(** * Patient narrative generator: template selection, filling and
      business rules

    A shallow embedding of [src/field_mapper.py], [src/narrative_generator.py],
    the fallback path and the prompt data of [src/ai_enhancer.py], and the
    cleaning and row building of [src/data_loader.py].

    Conventions of the model.
    - A Python [str] is a [string]; text-processing code walks over its
      characters as a [list ascii].  The model covers ASCII text
      ([ascii_text]): [\b], [\w], [\d], [re.IGNORECASE], [str.upper],
      [str.lower] and the decimal digits of a field name are modelled on the
      ASCII range, which is where the repository's templates and data live.
      Outside it Python differs ([str.lower] of U+0130 is two characters, the
      second of them no word character; a letter above U+007F is a word
      character), so a property that rests on case mapping or on word
      boundaries is stated of ASCII text.
    - A Python value stored in a row or a field mapping is a [pyval].
    - A [dict] with string keys is a [gmap string _]; [d.get(k)] is [d !! k].
    - An exception is an outcome [Raise e]; code that may raise is written in
      the [outcome] monad. *)

From Stdlib Require Import ZArith Lia List Ascii String.
From Stdlib Require Import DecimalString Sorted.
From Stdlib Require DecimalNat DecimalFacts.
From stdpp Require Import gmap strings.

Local Open Scope Z_scope.

(** ** Characters and strings *)

Abbreviation chars := list_ascii_of_string.
Abbreviation unchars := string_of_list_ascii.

Definition char_code (c : ascii) : N := N_of_ascii c.

Definition in_range (lo hi : ascii) (c : ascii) : bool :=
  (N.leb (char_code lo) (char_code c) && N.leb (char_code c) (char_code hi))%bool.

Definition is_digit (c : ascii) : bool := in_range "0" "9" c.
Definition is_upper (c : ascii) : bool := in_range "A" "Z" c.
Definition is_lower (c : ascii) : bool := in_range "a" "z" c.

(** The characters of ASCII, and the texts made of them. *)
Definition is_ascii (c : ascii) : bool := N.ltb (char_code c) 128.
Definition ascii_text (s : list ascii) : bool := forallb is_ascii s.

(** [\w] of [re] on ASCII text: letters, digits and the underscore.  (On a
    [str] pattern [\w] also takes the letters and digits above U+007F, which
    [ascii_text] leaves out.) *)
Definition is_word (c : ascii) : bool :=
  (is_upper c || is_lower c || is_digit c || Ascii.eqb c "_")%bool.

Definition lower_char (c : ascii) : ascii :=
  if is_upper c then ascii_of_N (char_code c + 32) else c.

Definition upper_char (c : ascii) : ascii :=
  if is_lower c then ascii_of_N (char_code c - 32) else c.

(** [str.lower] and [str.upper] on ASCII text, where both map character by
    character and keep the length.  (Above U+007F they need not: U+0130 is
    lowered to [i] followed by U+0307.) *)
Definition lower_text (s : list ascii) : list ascii := map lower_char s.
Definition upper_text (s : list ascii) : list ascii := map upper_char s.

Definition lower (s : string) : string := unchars (lower_text (chars s)).
Definition upper (s : string) : string := unchars (upper_text (chars s)).

(** ** Python values and exceptions *)

(** The values a row of the SQLite store or a JSON configuration gives a
    field: [None], a string, an integer, and the float NaN (the one float the
    missing-data handling singles out). *)
Inductive pyval :=
| VNone
| VStr (s : string)
| VInt (z : Z)
| VNaN.

Global Instance pyval_eq_dec : EqDecision pyval.
Proof. solve_decision. Defined.

(** Truthiness ([if v:], [a or b]). *)
Definition truthy (v : pyval) : bool :=
  match v with
  | VNone => false
  | VStr s => negb (String.eqb s "")
  | VInt z => negb (z =? 0)
  | VNaN => true
  end.

(** [a or b]. *)
Definition py_or (a b : pyval) : pyval := if truthy a then a else b.

(** [str(v)], which is also [format(v, "")]. *)
Definition py_str (v : pyval) : string :=
  match v with
  | VNone => "None"
  | VStr s => s
  | VInt z => NilEmpty.string_of_int (Z.to_int z)
  | VNaN => "nan"
  end.

(** [d.get(k)] as a Python value: [None] when the key is absent. *)
Definition py_get (d : gmap string pyval) (k : string) : pyval :=
  default VNone (d !! k).

Inductive exn :=
| KeyError (key : string)
| IndexError
| AttributeError
| FormatSyntaxError
    (* ValueError of string.Formatter: malformed format string, or too many
       decimal digits in a field name *)
| TemplateFieldError (field : string) (available : gset string)
    (* ValueError of fill_template: "Template requires field ..." *)
| NoTemplateError (serious hosp med_imp : string) (available : gset string)
    (* ValueError of select_template: "No suitable template found" *)
| RuntimeError (what : string).
    (* any other Exception: a timeout, a transport error, a bad response *)

(** The result of running code that may raise.  [Unmodelled] marks the
    format-string features the model does not interpret (conversions, format
    specifications, attribute and index access). *)
Inductive outcome (A : Type) :=
| Return (a : A)
| Raise (e : exn)
| Unmodelled.
Arguments Return {A} a.
Arguments Raise {A} e.
Arguments Unmodelled {A}.

Definition bind {A B} (x : outcome A) (f : A -> outcome B) : outcome B :=
  match x with
  | Return a => f a
  | Raise e => Raise e
  | Unmodelled => Unmodelled
  end.

Global Instance outcome_bind : MBind outcome := fun A B f x => bind x f.

(** ** Configuration entities *)

(** A paragraph of a narrative template: [number], the base text [template]
    and the optional [variations] keyed by [with_end_date] and
    [without_end_date]. *)
Record paragraph := {
  number : Z;
  template : string;
  variations : option (gmap string string)
}.

(** A narrative template.  It is a JSON object carrying [template_id] and
    [paragraphs], hence a non-empty dict: the test [if template:] that
    follows each [self.templates.get(...)] holds exactly when the key is
    bound. *)
Record narrative_template := {
  template_id : string;
  paragraphs : list paragraph
}.

(** A field of the field-mapping specification. *)
Record field_config := {
  name : string;
  db_table : string;
  db_column : string;
  value_map : option (gmap string pyval);
  format : option string
}.

(** ** datetime.strptime and strftime

    [strptime] compiles the format into a regular expression, takes its
    first match at the start of the string, demands that nothing is left
    over, and builds the date, which checks the calendar.  A parser returns
    the ways a pattern can match in the order a backtracking matcher tries
    them; the first complete one is the match.  Month names are those of the
    C locale. *)

Module Datetime.

Record date := { year : nat; month : nat; day : nat }.

Definition parser (A : Type) := list ascii -> list (A * list ascii).

Definition digit_val (c : ascii) : nat := N.to_nat (char_code c - 48).

Definition p_class (ok : ascii -> bool) : parser ascii := fun s =>
  match s with
  | c :: r => if ok c then [(c, r)] else []
  | [] => []
  end.

Definition p_char (c : ascii) : parser ascii := p_class (Ascii.eqb c).

Definition p_bind {A B} (p : parser A) (f : A -> parser B) : parser B := fun s =>
  concat (map (fun '(a, r) => f a r) (p s)).

Definition p_ret {A} (a : A) : parser A := fun s => [(a, s)].

Definition p_alt {A} (p q : parser A) : parser A := fun s => p s ++ q s.

Definition two (hi lo : ascii -> bool) : parser nat :=
  p_bind (p_class hi) (fun a => p_bind (p_class lo) (fun b =>
    p_ret (10 * digit_val a + digit_val b)%nat)).

Definition one (ok : ascii -> bool) : parser nat :=
  p_bind (p_class ok) (fun a => p_ret (digit_val a)).

(** [(?P<Y>\d\d\d\d)] *)
Definition re_Y : parser nat :=
  p_bind (two is_digit is_digit) (fun hi => p_bind (two is_digit is_digit) (fun lo =>
    p_ret (100 * hi + lo)%nat)).

(** [(?P<m>1[0-2]|0[1-9]|[1-9])] *)
Definition re_m : parser nat :=
  p_alt (two (Ascii.eqb "1") (in_range "0" "2"))
    (p_alt (two (Ascii.eqb "0") (in_range "1" "9"))
       (one (in_range "1" "9"))).

(** [(?P<d>3[0-1]|[1-2]\d|0[1-9]|[1-9]| [1-9])] *)
Definition re_d : parser nat :=
  p_alt (two (Ascii.eqb "3") (in_range "0" "1"))
    (p_alt (two (in_range "1" "2") is_digit)
       (p_alt (two (Ascii.eqb "0") (in_range "1" "9"))
          (p_alt (one (in_range "1" "9"))
             (p_bind (p_char " ") (fun _ => one (in_range "1" "9")))))).

Definition month_abbr : list string :=
  ["Jan"; "Feb"; "Mar"; "Apr"; "May"; "Jun";
   "Jul"; "Aug"; "Sep"; "Oct"; "Nov"; "Dec"]%string.

(** A literal matched under [re.IGNORECASE]. *)
Fixpoint p_word_ci (w : list ascii) : parser unit :=
  match w with
  | [] => p_ret tt
  | c :: w' =>
      p_bind (p_class (fun x => Ascii.eqb (lower_char x) (lower_char c)))
        (fun _ => p_word_ci w')
  end.

Fixpoint re_b_from (i : nat) (names : list string) : parser nat :=
  match names with
  | [] => fun _ => []
  | n :: rest => p_alt (p_bind (p_word_ci (chars n)) (fun _ => p_ret i))
                   (re_b_from (S i) rest)
  end.

(** [(?P<b>jan|feb|...|dec)] *)
Definition re_b : parser nat := re_b_from 1 month_abbr.

Definition is_leap (y : nat) : bool :=
  ((y mod 4 =? 0) && (negb (y mod 100 =? 0) || (y mod 400 =? 0)))%nat%bool.

Definition days_in_month (y m : nat) : nat :=
  match m with
  | 1 | 3 | 5 | 7 | 8 | 10 | 12 => 31
  | 4 | 6 | 9 | 11 => 30
  | 2 => if is_leap y then 29 else 28
  | _ => 0
  end%nat.

(** The check of the [date] constructor: a year from 1 (four digits keep it
    below 10000), a month, a day of that month. *)
Definition valid_date (d : date) : bool :=
  ((1 <=? year d) && (1 <=? month d) && (month d <=? 12)
   && (1 <=? day d) && (day d <=? days_in_month (year d) (month d)))%nat%bool.

(** The first match, with nothing unconverted left, and a real date. *)
Definition finish (matches : list (date * list ascii)) : option date :=
  match matches with
  | (d, []) :: _ => if valid_date d then Some d else None
  | _ => None
  end.

(** [datetime.strptime(s, "%Y-%m-%d")]; [None] stands for [ValueError]. *)
Definition strptime_Ymd (s : list ascii) : option date :=
  finish (p_bind re_Y (fun y => p_bind (p_char "-") (fun _ =>
          p_bind re_m (fun m => p_bind (p_char "-") (fun _ =>
          p_bind re_d (fun d => p_ret {| year := y; month := m; day := d |}))))) s).

(** [datetime.strptime(s, "%d-%b-%Y")] *)
Definition strptime_dbY (s : list ascii) : option date :=
  finish (p_bind re_d (fun d => p_bind (p_char "-") (fun _ =>
          p_bind re_b (fun m => p_bind (p_char "-") (fun _ =>
          p_bind re_Y (fun y => p_ret {| year := y; month := m; day := d |}))))) s).

Definition digit_char (n : nat) : ascii := ascii_of_nat (48 + n mod 10).

Definition pad2 (n : nat) : list ascii := [digit_char (n / 10); digit_char n].

(** [%Y] as the C library of Linux renders it: the decimal number, with no
    padding (a year below 1000 comes out shorter than four digits). *)
Definition year_digits (n : nat) : list ascii :=
  chars (NilEmpty.string_of_uint (Nat.to_uint n)).

(** [d.strftime("%d-%b-%Y")] *)
Definition strftime_dbY (d : date) : list ascii :=
  pad2 (day d) ++ "-"%char :: chars (nth (month d - 1) month_abbr ""%string)
    ++ "-"%char :: year_digits (year d).

(** [d.strftime("%Y-%m-%d")] *)
Definition strftime_Ymd (d : date) : list ascii :=
  year_digits (year d) ++ "-"%char :: pad2 (month d) ++ "-"%char :: pad2 (day d).

End Datetime.

(** ** field_mapper.py *)

Module FieldMapper.

(** [value_map.get(value)] with the raw value as key: the keys of a JSON
    object are strings, so only a string value can hit one. *)
Definition get_raw (vm : gmap string pyval) (value : pyval) : pyval :=
  match value with
  | VStr s => py_get vm s
  | _ => VNone
  end.

(** [str(value).upper()] *)
Definition upper_key (value : pyval) : string := upper (py_str value).

Definition apply_value_mapping (value : pyval) (config : field_config) : pyval :=
  match value, value_map config with
  | VNone, _ => value
  | _, None => value
  | _, Some vm =>
      if bool_decide (vm = ∅) then value
      else
        let mapped_value := py_or (py_get vm (upper_key value)) (get_raw vm value) in
        match mapped_value with
        | VNone => value
        | _ => mapped_value
        end
  end.

(** [_parse_date] for a string: ISO first, then [DD-Mon-YYYY].  A value
    that is not a string makes both [strptime] calls raise [TypeError], which
    is caught. *)
Definition _parse_date (value : pyval) : option Datetime.date :=
  match value with
  | VStr s =>
      match Datetime.strptime_Ymd (chars s) with
      | Some d => Some d
      | None => Datetime.strptime_dbY (chars s)
      end
  | _ => None
  end.

Definition format_field (value : pyval) (config : field_config) : pyval :=
  match value with
  | VNone => VNone
  | _ =>
      if bool_decide (format config = Some "date"%string) then
        match _parse_date value with
        | Some parsed => VStr (unchars (Datetime.strftime_dbY parsed))
        | None => value
        end
      else value
  end.

(** The rows the three point lookups of [map_all_fields] and
    [get_event_data] return for one (subject, sequence number); [None] when
    the row does not exist. *)
Record rows := {
  subject_data : option (gmap string pyval);
  event_data : option (gmap string pyval);
  treatment_data : option (gmap string pyval)
}.

(** [data_sources.get(table, {}).get(column)] *)
Definition raw_value (r : rows) (table column : string) : pyval :=
  let source :=
    if String.eqb table "subjects" then default ∅ (subject_data r)
    else if String.eqb table "adverse_events" then default ∅ (event_data r)
    else if String.eqb table "treatment_exposure" then default ∅ (treatment_data r)
    else ∅ in
  py_get source column.

(** [map_all_fields]; [config] lists the sections of the field-mapping
    specification in order, each with its fields in order. *)
Definition map_all_fields (config : list (list field_config)) (r : rows)
    : gmap string pyval :=
  fold_left
    (fun mapped_fields field =>
       let value := apply_value_mapping (raw_value r (db_table field) (db_column field)) field in
       let value := format_field value field in
       <[name field := value]> mapped_fields)
    (concat config) ∅.

End FieldMapper.

(** ** ai_enhancer.py *)

Module OpenAINarrativeEnhancer.

(** The chat-completion call together with the read of
    [response.choices[0].message.content], as a function of what the prompts
    are built from: it returns the content ([None] or a string) or raises. *)
Definition client :=
  gmap string pyval -> string -> string -> outcome (option string).

(** Whitespace of [str.strip()] on ASCII text. *)
Definition is_space (c : ascii) : bool :=
  (in_range "009" "013" c || in_range "028" " " c)%bool.

Fixpoint lstrip (s : list ascii) : list ascii :=
  match s with
  | c :: r => if is_space c then lstrip r else s
  | [] => []
  end.

Definition strip (s : string) : string :=
  unchars (rev (lstrip (rev (lstrip (chars s))))).

Definition enhance (cl : client) (field_values : gmap string pyval)
    (template_id baseline_text : string) : outcome string :=
  match cl field_values template_id baseline_text with
  | Return content =>
      let content :=
        match content with
        | Some c => if String.eqb c "" then baseline_text else c
        | None => baseline_text
        end in
      Return (strip content)
  | Raise exc => Return baseline_text      (* except Exception *)
  | Unmodelled => Unmodelled
  end.

End OpenAINarrativeEnhancer.

(** ** string.Formatter

    [Formatter().vformat(format_string, (), kwargs)] as the scanner of
    CPython's [MarkupIterator] and [Formatter._vformat]: literal text is
    copied, [{{] and [}}] are escapes, [{name}] is replaced by
    [format(kwargs[name], "")].  There are no positional arguments, so an
    empty or numeric field name raises [IndexError], unless its digits
    overflow the index type, which raises [ValueError].  [kwargs] is the
    [__getitem__] of the mapping passed in. *)

Module Formatter.

Inductive scan_state :=
| Literal                       (* copying literal text *)
| OpenBrace                     (* just read a "{" *)
| CloseBrace                    (* just read a "}" *)
| FieldName (acc : list ascii). (* inside a replacement field *)

(** The characters that end or structure a field name: conversion,
    format specification, attribute access, index access. *)
Definition starts_unmodelled (c : ascii) : bool :=
  (Ascii.eqb c "!" || Ascii.eqb c ":" || Ascii.eqb c "." || Ascii.eqb c "[")%bool.

(** [PY_SSIZE_T_MAX] of a 64-bit build of CPython. *)
Definition PY_SSIZE_T_MAX : N := 9223372036854775807.

(** What [get_integer] of CPython's [unicode_format.h] makes of the first
    part of a field name. *)
Inductive first_index :=
| Index (i : N)       (* a decimal number: the field is positional *)
| NotAnIndex          (* -1 and no error: the field is a keyword *)
| TooManyDigits.      (* ValueError: Too many decimal digits in format string *)

(** The loop of [get_integer]: the digits are accumulated from the left; a
    character that is no digit ends the scan with -1; the overflow test runs
    before each digit is added, so digits that overflow raise even when a
    character that is no digit follows them. *)
Fixpoint get_integer_from (accumulator : N) (s : list ascii) : first_index :=
  match s with
  | [] => Index accumulator
  | c :: r =>
      if is_digit c then
        let digitval := (char_code c - 48)%N in
        if N.ltb ((PY_SSIZE_T_MAX - digitval) / 10) accumulator then TooManyDigits
        else get_integer_from (accumulator * 10 + digitval)%N r
      else NotAnIndex
  end.

Definition get_integer (s : list ascii) : first_index :=
  match s with
  | [] => NotAnIndex        (* "empty string is an error" *)
  | _ => get_integer_from 0 s
  end.

(** [get_field] with [args = ()].  An empty name is auto-numbered by
    [_vformat]: it becomes ["0"], the first automatic index (no second one is
    reached, the first raises).  A name that is a decimal number is
    positional and indexes the empty tuple; any other name is looked up
    among the keywords. *)
Definition get_field (kwargs : string -> outcome pyval) (field_name : list ascii)
    : outcome pyval :=
  let field_name :=
    match field_name with [] => ["0"%char] | _ => field_name end in
  match get_integer field_name with
  | Index _ => Raise IndexError
  | TooManyDigits => Raise FormatSyntaxError
  | NotAnIndex => kwargs (unchars field_name)
  end.

Definition emit (c : ascii) (rest : outcome (list ascii)) : outcome (list ascii) :=
  r ← rest; Return (c :: r).

Fixpoint vformat_from (kwargs : string -> outcome pyval) (st : scan_state)
    (s : list ascii) : outcome (list ascii) :=
  let in_field acc c r :=
    if Ascii.eqb c "}" then
      obj ← get_field kwargs acc;
      rest ← vformat_from kwargs Literal r;
      Return (chars (py_str obj) ++ rest)
    else if Ascii.eqb c "{" then Raise FormatSyntaxError
    else if starts_unmodelled c then Unmodelled
    else vformat_from kwargs (FieldName (acc ++ [c])) r in
  match s with
  | [] =>
      match st with
      | Literal => Return []
      | _ => Raise FormatSyntaxError
      end
  | c :: r =>
      match st with
      | Literal =>
          if Ascii.eqb c "{" then vformat_from kwargs OpenBrace r
          else if Ascii.eqb c "}" then vformat_from kwargs CloseBrace r
          else emit c (vformat_from kwargs Literal r)
      | OpenBrace =>
          if Ascii.eqb c "{" then emit "{" (vformat_from kwargs Literal r)
          else in_field [] c r
      | CloseBrace =>
          if Ascii.eqb c "}" then emit "}" (vformat_from kwargs Literal r)
          else Raise FormatSyntaxError
      | FieldName acc => in_field acc c r
      end
  end.

Definition vformat (format_string : string) (kwargs : string -> outcome pyval)
    : outcome string :=
  r ← vformat_from kwargs Literal (chars format_string); Return (unchars r).

(** [dict.__getitem__]: a missing key raises [KeyError]. *)
Definition dict_getitem (d : gmap string pyval) (key : string) : outcome pyval :=
  match d !! key with
  | Some v => Return v
  | None => Raise (KeyError key)
  end.

End Formatter.

(** ** re.sub

    [re.sub(pattern, repl, text)] scans the text from the left: where the
    pattern matches, the replacement is written and the scan resumes after
    the match; elsewhere the character is copied.  A [matcher] says, from
    the character before the current position and the text from the current
    position on, whether the pattern matches here, and then the replacement
    and the length of the match.  Every pattern of the business rules
    matches at least one character and matches in at most one way. *)

Module Re.

Definition matcher := option ascii -> list ascii -> option (list ascii * nat).

Fixpoint sub_from (m : matcher) (skip : nat) (prev : option ascii) (s : list ascii)
    : list ascii :=
  match s with
  | [] => []
  | c :: r =>
      match skip with
      | S k => sub_from m k (Some c) r
      | O =>
          match m prev s with
          | Some (repl, n) => repl ++ sub_from m (Nat.pred n) (Some c) r
          | None => c :: sub_from m 0 (Some c) r
          end
      end
  end.

Definition sub (m : matcher) (s : list ascii) : list ascii := sub_from m 0 None s.

Definition is_word_opt (c : option ascii) : bool :=
  match c with
  | Some c => is_word c
  | None => false
  end.

(** [\b] between two neighbouring characters; the ends of the text count
    as non-word. *)
Definition word_boundary (before after : option ascii) : bool :=
  xorb (is_word_opt before) (is_word_opt after).

(** The pattern [p], a literal, matches at the start of [s]. *)
Fixpoint starts_with (cmp : ascii -> ascii -> bool) (p s : list ascii) : bool :=
  match p, s with
  | [], _ => true
  | a :: p', c :: s' => cmp a c && starts_with cmp p' s'
  | _ :: _, [] => false
  end.

Definition same_char : ascii -> ascii -> bool := Ascii.eqb.

(** Two characters match under [re.IGNORECASE]. *)
Definition same_char_ci (a c : ascii) : bool := Ascii.eqb (lower_char a) (lower_char c).

(** The longest prefix of characters in a class: a greedy [+] or [*]. *)
Fixpoint span (ok : ascii -> bool) (s : list ascii) : list ascii :=
  match s with
  | c :: r => if ok c then c :: span ok r else []
  | [] => []
  end.

(** [\bLITERAL\b], replaced by a fixed text. *)
Definition bounded_literal (cmp : ascii -> ascii -> bool) (pat repl : string) : matcher :=
  fun prev s =>
    let p := chars pat in
    let n := length p in
    if (word_boundary prev (head s) && starts_with cmp p s
        && word_boundary (s !! (n - 1)%nat) (s !! n))%bool
    then Some (chars repl, n) else None.

(** [(TRIGGER)([^\.]+)] under [re.IGNORECASE], replaced by
    [m.group(1) + m.group(2).lower()]. *)
Definition lowercase_clause (trigger : string) : matcher :=
  fun prev s =>
    let t := chars trigger in
    let clause := span (fun c => negb (Ascii.eqb c ".")) (drop (length t) s) in
    if (starts_with same_char_ci t s && negb (Nat.eqb (length clause) 0))%bool
    then Some (take (length t) s ++ lower_text clause, (length t + length clause)%nat)
    else None.

End Re.

(** ** narrative_generator.py: template selection *)

Module NarrativeGenerator.

(** [(event_data.get(key) or "").upper()]: a falsy or missing flag becomes
    the empty string; [.upper()] exists on strings only. *)
Definition flag (event_data : gmap string pyval) (key : string) : outcome string :=
  match py_or (py_get event_data key) (VStr "") with
  | VStr s => Return (upper s)
  | _ => Raise AttributeError
  end.

Definition select_template (templates : gmap string narrative_template)
    (event_data : gmap string pyval) : outcome narrative_template :=
  serious ← flag event_data "serious_event";
  hosp ← flag event_data "hospitalization";
  med_imp ← flag event_data "other_medically_important";
  let next5 :=
    (* Priority 5: non-serious AE, also the default *)
    match templates !! "ae_non_serious" with
    | Some t => Return t
    | None => Raise (NoTemplateError serious hosp med_imp (dom templates))
    end in
  let next4 :=
    (* Priority 4: any SAE *)
    if String.eqb serious "Y" then
      match templates !! "sae_generic" with
      | Some t => Return t
      | None =>
          match templates !! "sae_hospitalization" with
          | Some t => Return t
          | None => next5
          end
      end
    else next5 in
  let next3 :=
    (* Priority 3: any SAE without hospitalization *)
    if (String.eqb serious "Y" && negb (String.eqb hosp "Y"))%bool then
      match templates !! "sae_medically_important" with
      | Some t => Return t
      | None => next4
      end
    else next4 in
  let next2 :=
    (* Priority 2: medically important SAE *)
    if (String.eqb serious "Y" && String.eqb hosp "N" && String.eqb med_imp "Y")%bool then
      match templates !! "sae_medically_important" with
      | Some t => Return t
      | None => next3
      end
    else next3 in
  (* Priority 1: hospitalization SAE *)
  if (String.eqb serious "Y" && String.eqb hosp "Y")%bool then
    match templates !! "sae_hospitalization" with
    | Some t => Return t
    | None => next2
    end
  else next2.

(** ** narrative_generator.py: template filling *)

Definition NOT_AVAILABLE : string := "[NOT AVAILABLE]".

(** [class _SafeDict(dict)]: [__getitem__] of a dict subclass calls
    [__missing__] for an absent key. *)
Module _SafeDict.

Definition __missing__ (key : string) : pyval := VStr NOT_AVAILABLE.

Definition __getitem__ (d : gmap string pyval) (key : string) : outcome pyval :=
  match d !! key with
  | Some v => Return v
  | None => Return (__missing__ key)
  end.

End _SafeDict.

(** [value not in (None, "", "nan", "NaN")]: membership in a tuple compares
    by identity, then by [==]; the float NaN equals nothing. *)
Definition is_missing_value (value : pyval) : bool :=
  match value with
  | VNone => true
  | VStr s => (String.eqb s "" || String.eqb s "nan" || String.eqb s "NaN")%bool
  | VInt _ => false
  | VNaN => false
  end.

Definition safe_value (value : pyval) : pyval :=
  if is_missing_value value then VStr NOT_AVAILABLE else value.

Definition fill_template (template_text : string) (field_values : gmap string pyval)
    : outcome string :=
  let safe_dict := safe_value <$> field_values in
  match Formatter.vformat template_text (_SafeDict.__getitem__ safe_dict) with
  | Raise (KeyError e) => Raise (TemplateFieldError e (dom field_values))
  | r => r
  end.

(** ** narrative_generator.py: business rules *)

(** [_date_repl]: the matched text re-rendered, or left as it is when
    [strptime] raises [ValueError]. *)
Definition _date_repl (raw : list ascii) : list ascii :=
  match Datetime.strptime_Ymd raw with
  | Some parsed => Datetime.strftime_dbY parsed
  | None => raw
  end.

(** [\d{4}-\d{2}-\d{2}] at the start of [s]. *)
Definition iso_shape (s : list ascii) : bool :=
  match s with
  | y1 :: y2 :: y3 :: y4 :: h1 :: m1 :: m2 :: h2 :: d1 :: d2 :: _ =>
      (is_digit y1 && is_digit y2 && is_digit y3 && is_digit y4
       && Ascii.eqb h1 "-" && is_digit m1 && is_digit m2
       && Ascii.eqb h2 "-" && is_digit d1 && is_digit d2)%bool
  | _ => false
  end.

(** Rule 1: [\blast dose\b], ignoring case. *)
Definition rule1 : Re.matcher :=
  Re.bounded_literal Re.same_char_ci "last dose" "most recent dose".

(** Rule 2: [\b\d{4}-\d{2}-\d{2}\b]. *)
Definition rule2 : Re.matcher := fun prev s =>
  if (Re.word_boundary prev (head s) && iso_shape s
      && Re.word_boundary (s !! 9%nat) (s !! 10%nat))%bool
  then Some (_date_repl (take 10 s), 10%nat) else None.

(** Rule 3 and rule 4. *)
Definition rule3 : Re.matcher := Re.lowercase_clause "action taken with study drug was ".
Definition rule4 : Re.matcher := Re.lowercase_clause "assessed the event as ".

(** Rule 5: [(\d+)-YEARS-old], ignoring case, replaced by [\1-year-old]. *)
Definition rule5 : Re.matcher := fun prev s =>
  let digits := Re.span is_digit s in
  if (negb (Nat.eqb (length digits) 0)
      && Re.starts_with Re.same_char_ci (chars "-years-old") (drop (length digits) s))%bool
  then Some (digits ++ chars "-year-old", (length digits + 10)%nat) else None.

(** Rule 6, in the order of the source. *)
Definition rule6_white : Re.matcher :=
  Re.bounded_literal Re.same_char "WHITE" "White".
Definition rule6_black : Re.matcher :=
  Re.bounded_literal Re.same_char "BLACK OR AFRICAN AMERICAN" "Black or African American".
Definition rule6_asian : Re.matcher :=
  Re.bounded_literal Re.same_char "ASIAN" "Asian".
Definition rule6_not_hispanic : Re.matcher :=
  Re.bounded_literal Re.same_char "NOT HISPANIC OR LATINO" "Not Hispanic or Latino".
Definition rule6_hispanic : Re.matcher :=
  Re.bounded_literal Re.same_char "HISPANIC OR LATINO" "Hispanic or Latino".

(** Rule 7: [(SAE of )([A-Z])], the letter lowercased. *)
Definition rule7 : Re.matcher := fun prev s =>
  if Re.starts_with Re.same_char (chars "SAE of ") s then
    match s !! 7%nat with
    | Some c => if is_upper c then Some (chars "SAE of " ++ [lower_char c], 8%nat) else None
    | None => None
    end
  else None.

Definition business_rules : list Re.matcher :=
  [rule1; rule2; rule3; rule4; rule5;
   rule6_white; rule6_black; rule6_asian; rule6_not_hispanic; rule6_hispanic;
   rule7].

(** [text = re.sub(...)], rule after rule. *)
Definition apply_rules (rules : list Re.matcher) (text : list ascii) : list ascii :=
  fold_left (fun t m => Re.sub m t) rules text.

Definition apply_business_rules (text : string) : string :=
  unchars (apply_rules business_rules (chars text)).

(** ** narrative_generator.py: paragraphs *)

(** The template text [generate_paragraph] fills: the base text, followed
    by the variation chosen by the truthiness of [end_date] when there is
    one. *)
Definition paragraph_template_text (paragraph_config : paragraph)
    (field_values : gmap string pyval) : string :=
  let base_template := template paragraph_config in
  match variations paragraph_config with
  | Some vars =>
      if bool_decide (vars = ∅) then base_template
      else
        let key := if truthy (py_get field_values "end_date")
                   then "with_end_date" else "without_end_date" in
        match vars !! key with
        | Some variation_text =>
            if String.eqb variation_text "" then base_template
            else base_template +:+ " " +:+ variation_text
        | None => base_template
        end
  | None => base_template
  end.

Definition generate_paragraph (paragraph_config : paragraph)
    (field_values : gmap string pyval) : outcome string :=
  filled ← fill_template (paragraph_template_text paragraph_config field_values)
             field_values;
  Return (apply_business_rules filled).

(** ** narrative_generator.py: the narrative *)

(** [sorted(..., key=lambda p: p["number"])]: a stable sort. *)
Fixpoint insert_paragraph (p : paragraph) (sorted : list paragraph) : list paragraph :=
  match sorted with
  | [] => [p]
  | q :: rest =>
      if (number p <=? number q)%Z then p :: sorted
      else q :: insert_paragraph p rest
  end.

Definition sorted_paragraphs (ps : list paragraph) : list paragraph :=
  foldr insert_paragraph [] ps.

Fixpoint generate_paragraphs (ps : list paragraph) (field_values : gmap string pyval)
    : outcome (list string) :=
  match ps with
  | [] => Return []
  | p :: rest =>
      paragraph_text ← generate_paragraph p field_values;
      texts ← generate_paragraphs rest field_values;
      Return (paragraph_text :: texts)
  end.

Definition paragraph_separator : string := String "010" (String "010" "").

(** [sep.join(parts)] *)
Fixpoint join (sep : string) (parts : list string) : string :=
  match parts with
  | [] => ""
  | [p] => p
  | p :: rest => p +:+ sep +:+ join sep rest
  end.

(** What [self.enhancer] offers: an [enhance] method, which may raise. *)
Definition enhancer := gmap string pyval -> string -> string -> outcome string.

(** The deterministic part of [generate_narrative]: the text assembled
    before the enhancer is consulted, with the template selected. *)
Definition baseline_narrative (templates : gmap string narrative_template)
    (field_values event_data : gmap string pyval) : outcome (narrative_template * string) :=
  template ← select_template templates event_data;
  texts ← generate_paragraphs (sorted_paragraphs (paragraphs template)) field_values;
  Return (template, join paragraph_separator texts).

(** [generate_narrative]; the rows are those found for the subject and
    sequence number. *)
Definition generate_narrative (templates : gmap string narrative_template)
    (config : list (list field_config)) (enh : option enhancer)
    (r : FieldMapper.rows) : outcome string :=
  let field_values := FieldMapper.map_all_fields config r in
  let event_data := default ∅ (FieldMapper.event_data r) in
  '(template, narrative_text) ← baseline_narrative templates field_values event_data;
  match enh with
  | Some enhance => enhance field_values (template_id template) narrative_text
  | None => Return narrative_text
  end.

End NarrativeGenerator.

(** ** ai_enhancer.py: the data shown in the prompt *)

Module PromptData.

(** [{k: v for k, v in data.items() if k in keys and v is not None}] *)
Definition _extract_category (data : gmap string pyval) (keys : list string)
    : gmap string pyval :=
  filter (fun kv => kv.1 ∈ keys /\ kv.2 <> VNone) data.

(** [sorted(data.items())]: the keys of a dict are distinct, so the pairs
    are ordered by key, and strings by their characters' codes. *)
Fixpoint insert_item (kv : string * pyval) (sorted : list (string * pyval))
    : list (string * pyval) :=
  match sorted with
  | [] => [kv]
  | kv' :: rest =>
      if String.leb kv.1 kv'.1 then kv :: sorted
      else kv' :: insert_item kv rest
  end.

Definition sorted_items (data : gmap string pyval) : list (string * pyval) :=
  foldr insert_item [] (map_to_list data).

Definition line (kv : string * pyval) : string :=
  "  - " +:+ kv.1 +:+ ": " +:+ py_str kv.2.

Definition NO_DATA : string := "  (no data available)".

Definition _format_dict (data : gmap string pyval) : string :=
  if bool_decide (data = ∅) then NO_DATA
  else NarrativeGenerator.join (String "010" "") (line <$> sorted_items data).

End PromptData.

(** ** data_loader.py *)

Module ADAELoader.

(** [pd.isna] on a scalar. *)
Definition isna (value : pyval) : bool :=
  match value with
  | VNone | VNaN => true
  | _ => false
  end.

(** [_clean_string]; the result, [None] or a string, as a value. *)
Definition _clean_string (value : pyval) : pyval :=
  if isna value then VNone
  else
    let value := OpenAINarrativeEnhancer.strip (py_str value) in
    if String.eqb value "" then VNone else VStr value.

(** A cell read from the sheet: a scalar, or a timestamp, of which only the
    date matters here. *)
Inductive cell :=
| Scalar (value : pyval)
| Timestamp (d : Datetime.date).

(** [_clean_date].  A missing cell gives [None] and a timestamp its ISO
    date; any other cell goes through [pd.to_datetime], which the model does
    not interpret. *)
Definition _clean_date (value : cell) : outcome pyval :=
  match value with
  | Scalar v => if isna v then Return VNone else Unmodelled
  | Timestamp d => Return (VStr (unchars (Datetime.strftime_Ymd d)))
  end.

(** The tuple [_insert_records] builds for a record:
    [tuple(record.get(column) for column in columns)]. *)
Definition record_row (columns : list string) (record : gmap string pyval)
    : list pyval :=
  py_get record <$> columns.

(** [_insert_records]: the rows handed to [executemany], and the count
    returned. *)
Definition _insert_records (columns : list string) (records : list (gmap string pyval))
    : list (list pyval) * nat :=
  let rows := record_row columns <$> records in
  (rows, length rows).

(** The keys of the dict [extract_adverse_events] builds for an event. *)
Definition event_keys : list string :=
  ["subject_id"; "sequence_number"; "sponsor_id"; "verbatim_term";
   "preferred_term"; "pt_code"; "soc"; "serious_event"; "start_date";
   "end_date"; "study_day_start"; "study_day_end"; "severity_grade";
   "outcome"; "action_taken"; "causality"; "analysis_causality";
   "hospitalization"; "life_threatening"; "results_in_death"; "disability";
   "other_medically_important"; "treatment_emergent"].

(** The columns [load_to_database] inserts into [adverse_events]. *)
Definition adverse_events_columns : list string :=
  ["subject_id"; "sequence_number"; "sponsor_id"; "verbatim_term";
   "preferred_term"; "pt_code"; "soc"; "serious_event"; "start_date";
   "end_date"; "study_day_start"; "study_day_end"; "severity_grade";
   "outcome"; "action_taken"; "causality";
   "hospitalization"; "life_threatening"; "results_in_death"; "disability";
   "other_medically_important"; "treatment_emergent"].

End ADAELoader.

(** ** Dates in a text *)

(** A token of the form [dddd-dd-dd], the shape rule 2 looks for. *)
Definition iso_token (tok : list ascii) : Prop :=
  NarrativeGenerator.iso_shape tok = true /\ length tok = 10%nat.

(** A date of the form [DD-Mon-YYYY], the shape [strftime("%d-%b-%Y")]
    writes: two digits, a month abbreviation, the digits of the year. *)
Inductive date_text : list ascii -> Prop :=
| date_text_intro d1 d2 mon ys :
    is_digit d1 = true -> is_digit d2 = true ->
    In mon Datetime.month_abbr ->
    ys <> [] -> Forall (fun c => is_digit c = true) ys ->
    date_text ([d1; d2] ++ ("-"%char :: chars mon ++ ["-"%char]) ++ ys).

(** An entry of field_mappings.json with ["format": "date"]. *)
Definition date_config (name table column : string) : field_config :=
  {| name := name; db_table := table; db_column := column;
     value_map := None; format := Some "date"%string |}.

(** ** Vocabulary of the properties *)

(** The flag of an event, as the event holds it.  [holds event_data key
    letter]: the value under [key] is the letter, in upper or in lower
    case. *)
Definition holds (event_data : gmap string pyval) (key letter : string) : Prop :=
  event_data !! key = Some (VStr letter)
  \/ event_data !! key = Some (VStr (lower letter)).

(** The flag is unknown: the key is missing, or its value is [None] or the
    empty string. *)
Definition unknown (event_data : gmap string pyval) (key : string) : Prop :=
  event_data !! key = None \/ event_data !! key = Some VNone
  \/ event_data !! key = Some (VStr "").

(** The flag is a text or nothing: the key is missing, or its value is [None]
    or a string. *)
Definition text_or_none (event_data : gmap string pyval) (key : string) : Prop :=
  event_data !! key = None \/ event_data !! key = Some VNone
  \/ exists s, event_data !! key = Some (VStr s).

(** The keys [select_template] tries for a serious event, in order. *)
Definition sae_candidates (hosp : string) : list string :=
  if String.eqb hosp "Y"
  then ["sae_hospitalization"; "sae_generic"; "ae_non_serious"]
  else ["sae_medically_important"; "sae_generic"; "sae_hospitalization";
        "ae_non_serious"].

(** The first of [keys] that the configuration binds. *)
Definition first_configured (templates : gmap string narrative_template)
    (keys : list string) : option narrative_template :=
  head (omap (fun key => templates !! key) keys).

Definition is_brace (c : ascii) : bool := (Ascii.eqb c "{" || Ascii.eqb c "}")%bool.

(** No brace occurs in the text. *)
Definition brace_free (s : list ascii) : bool := forallb (fun c => negb (is_brace c)) s.




(** What [map_all_fields] computes for one field of the specification. *)
Definition field_value (r : FieldMapper.rows) (field : field_config) : pyval :=
  FieldMapper.format_field
    (FieldMapper.apply_value_mapping
       (FieldMapper.raw_value r (db_table field) (db_column field)) field) field.

(** No row was found for the subject, the event or the treatment. *)
Definition no_rows : FieldMapper.rows :=
  {| FieldMapper.subject_data := None; FieldMapper.event_data := None;
     FieldMapper.treatment_data := None |}.

(** The text is made of whitespace only. *)
Definition all_space (s : list ascii) : bool :=
  forallb OpenAINarrativeEnhancer.is_space s.

(** * Properties *)

Import NarrativeGenerator.

(** ** Strings as character lists *)



Lemma chars_unchars (l : list ascii) : chars (unchars l) = l.
Proof. apply list_ascii_of_string_of_list_ascii. Qed.

Lemma unchars_chars (s : string) : unchars (chars s) = s.
Proof. apply string_of_list_ascii_of_string. Qed.

(** ** The outcome monad *)


Lemma bind_Return_l {A B} (a : A) (f : A -> outcome B) : Return a ≫= f = f a.
Proof. reflexivity. Qed.

(** ** Template selection *)

Section select_template.

Variable templates : gmap string narrative_template.
Variable event_data : gmap string pyval.
Variables T_hosp T_med T_non : narrative_template.
Variables serious hosp med_imp : string.

Hypothesis has_hosp : templates !! "sae_hospitalization" = Some T_hosp.
Hypothesis has_med : templates !! "sae_medically_important" = Some T_med.
Hypothesis has_non : templates !! "ae_non_serious" = Some T_non.
Hypothesis flag_serious : flag event_data "serious_event" = Return serious.
Hypothesis flag_hosp : flag event_data "hospitalization" = Return hosp.
Hypothesis flag_med : flag event_data "other_medically_important" = Return med_imp.

Lemma select_template_flags :
  select_template templates event_data =
  Return (if String.eqb serious "Y"
          then if String.eqb hosp "Y" then T_hosp else T_med
          else T_non).
Proof.
  unfold select_template.
  rewrite flag_serious, flag_hosp, flag_med. cbn.
  rewrite has_hosp, has_med, has_non.
  destruct (String.eqb serious "Y"), (String.eqb hosp "Y"),
    (String.eqb hosp "N"), (String.eqb med_imp "Y"); cbn; try reflexivity;
    destruct (templates !! "sae_generic"); reflexivity.
Qed.

End select_template.

(** A flag that is missing, [None] or empty reads as the empty string, which
    is neither ["Y"] nor ["N"]. *)
Lemma flag_unknown event_data key :
  event_data !! key = None \/ event_data !! key = Some VNone
  \/ event_data !! key = Some (VStr "") ->
  flag event_data key = Return "".
Proof. unfold flag, py_get. by intros [-> | [-> | ->]]. Qed.

(** A string flag is read through [str.upper]. *)
Lemma flag_string event_data key s :
  event_data !! key = Some (VStr s) -> flag event_data key = Return (upper s).
Proof.
  unfold flag, py_get, py_or. intros ->. cbn.
  destruct (String.eqb_spec s ""); by subst.
Qed.

(** A flag reads as the letter exactly when the event holds the letter in
    either case. *)
Lemma upper_is_letter s letter :
  letter = "Y"%string \/ letter = "N"%string ->
  upper s = letter <-> s = letter \/ s = lower letter.
Proof.
  intros Hl. split.
  - destruct s as [|c [|c' s']].
    + by destruct Hl as [-> | ->].
    + destruct Hl as [-> | ->]; intros H; revert H; clear;
        destruct c as [[] [] [] [] [] [] [] []]; vm_compute; intros H;
        first [discriminate H | by left | by right].
    + by destruct Hl as [-> | ->].
  - by destruct Hl as [-> | ->]; intros [-> | ->].
Qed.

Lemma flag_reads event_data key :
  text_or_none event_data key ->
  exists x, flag event_data key = Return x
    /\ (holds event_data key "Y" <-> x = "Y"%string)
    /\ (holds event_data key "N" <-> x = "N"%string)
    /\ (unknown event_data key -> x = ""%string).
Proof.
  intros [Hk | [Hk | [s Hk]]].
  - exists ""%string. rewrite flag_unknown by auto. unfold holds, unknown.
    rewrite Hk. repeat split; try done; by intros [? | ?].
  - exists ""%string. rewrite flag_unknown by auto. unfold holds, unknown.
    rewrite Hk. repeat split; try done; by intros [? | ?].
  - exists (upper s). rewrite (flag_string _ _ _ Hk). unfold holds, unknown.
    rewrite Hk. split; [done|]. split; [|split].
    + rewrite (upper_is_letter s "Y") by auto.
      split; (intros [H | H]; [left | right]); congruence.
    + rewrite (upper_is_letter s "N") by auto.
      split; (intros [H | H]; [left | right]); congruence.
    + intros [H | [H | H]]; try done. by injection H as ->.
Qed.

(** C2.  With the hospitalization, medically-important and non-serious
    templates configured, and each of the three flags of the event a string,
    [None] or missing.  A flag is compared without regard to case: it holds Y
    when its value is ["Y"] or ["y"]; it is unknown when it is missing,
    [None] or empty.  Then: serious=Y and hospitalization=Y selects the
    hospitalization template; serious=Y, hospitalization=N and
    other_medically_important=Y selects the medically-important template;
    serious=Y with hospitalization not Y, an unknown hospitalization
    included, selects the medically-important template; a serious flag that
    is not Y selects the non-serious template, and so do serious=N and an
    unknown serious flag alike. *)
Theorem select_template_cascade templates event_data T_hosp T_med T_non :
  templates !! "sae_hospitalization" = Some T_hosp ->
  templates !! "sae_medically_important" = Some T_med ->
  templates !! "ae_non_serious" = Some T_non ->
  text_or_none event_data "serious_event" ->
  text_or_none event_data "hospitalization" ->
  text_or_none event_data "other_medically_important" ->
  (holds event_data "serious_event" "Y" -> holds event_data "hospitalization" "Y" ->
     select_template templates event_data = Return T_hosp) /\
  (holds event_data "serious_event" "Y" -> holds event_data "hospitalization" "N" ->
   holds event_data "other_medically_important" "Y" ->
     select_template templates event_data = Return T_med) /\
  (holds event_data "serious_event" "Y" -> ~ holds event_data "hospitalization" "Y" ->
     select_template templates event_data = Return T_med) /\
  (holds event_data "serious_event" "Y" -> unknown event_data "hospitalization" ->
     select_template templates event_data = Return T_med) /\
  (~ holds event_data "serious_event" "Y" ->
     select_template templates event_data = Return T_non) /\
  (holds event_data "serious_event" "N" \/ unknown event_data "serious_event" ->
     select_template templates event_data = Return T_non).
Proof.
  intros Hh Hm Hn Ts Th Tm.
  destruct (flag_reads _ _ Ts) as (serious & Fs & SY & SN & SU).
  destruct (flag_reads _ _ Th) as (hosp & Fh & HY & HN & HU).
  destruct (flag_reads _ _ Tm) as (med_imp & Fm & MY & _ & _).
  rewrite (select_template_flags _ _ _ _ _ _ _ _ Hh Hm Hn Fs Fh Fm).
  split; [|split; [|split; [|split; [|split]]]].
  - intros ->%SY ->%HY. done.
  - intros ->%SY ->%HN _. done.
  - intros ->%SY Hne. cbn.
    destruct (String.eqb_spec hosp "Y") as [E | ?]; [|done]. by apply HY in E.
  - intros ->%SY ->%HU. done.
  - intros Hne. destruct (String.eqb_spec serious "Y") as [E | ?]; [|done].
    by apply SY in E.
  - intros [->%SN | ->%SU]; done.
Qed.

Definition example_template (id : string) : narrative_template :=
  {| template_id := id; paragraphs := [] |}.

Definition example_templates : gmap string narrative_template :=
  {[ "sae_hospitalization" := example_template "SAE_HOSP_V1";
     "sae_medically_important" := example_template "SAE_MED_IMP_V1";
     "ae_non_serious" := example_template "AE_NON_SERIOUS_V1" ]}.

Lemma select_template_cascade_witness :
  select_template example_templates
    {[ "serious_event" := VStr "y"; "hospitalization" := VNone ]}
  = Return (example_template "SAE_MED_IMP_V1").
Proof.
  refine (proj1 (proj2 (proj2 (proj2
    (select_template_cascade example_templates
       {[ "serious_event" := VStr "y"; "hospitalization" := VNone ]}
       (example_template "SAE_HOSP_V1") (example_template "SAE_MED_IMP_V1")
       (example_template "AE_NON_SERIOUS_V1") _ _ _ _ _ _)))) _ _).
  - reflexivity.
  - reflexivity.
  - reflexivity.
  - right. right. exists "y"%string. reflexivity.
  - right. left. reflexivity.
  - left. reflexivity.
  - right. reflexivity.
  - right. left. reflexivity.
Defined.

(** C3.  A serious event and a configuration with no SAE template but with
    the non-serious one: the cascade runs past priority 4 into priority 5 and
    returns the non-serious template; no error is raised. *)
Theorem select_template_serious_without_sae_templates (T : narrative_template) :
  select_template {[ "ae_non_serious" := T ]} {[ "serious_event" := VStr "Y" ]}
  = Return T.
Proof. reflexivity. Qed.

(** With no template at all the error is raised, naming the flags and the
    keys. *)
Lemma select_template_no_templates :
  select_template ∅ {[ "serious_event" := VStr "Y" ]}
  = Raise (NoTemplateError "Y" "" "" ∅).
Proof. reflexivity. Qed.

(** ** Value mapping *)

Import FieldMapper.

Definition sex_config : field_config :=
  {| name := "sex"; db_table := "subjects"; db_column := "sex";
     value_map := Some {[ "MALE" := VStr "" ]}; format := None |}.

(** C9, as stated, fails: the entry under the uppercased key is the empty
    string, and a raw value that is its own uppercased form is rewritten to
    it by the second lookup. *)
Lemma apply_value_mapping_rewrites_to_empty :
  py_get {[ "MALE" := VStr "" ]} (upper_key (VStr "MALE")) = VStr ""
  /\ truthy (VStr "") = false
  /\ apply_value_mapping (VStr "MALE") sex_config = VStr ""
  /\ apply_value_mapping (VStr "MALE") sex_config <> VStr "MALE".
Proof. repeat split; discriminate. Qed.

(** C9, amended.  For a value other than [None] and a non-empty value map:
    a truthy entry under the uppercased string form is the result; otherwise
    the entry under the raw value decides: when that lookup gives [None] the
    raw value is returned unchanged, and when it gives an entry, the entry is
    returned, the empty string included. *)
Theorem apply_value_mapping_lookups value config vm :
  value <> VNone -> value_map config = Some vm -> vm <> ∅ ->
  (truthy (py_get vm (upper_key value)) = true ->
     apply_value_mapping value config = py_get vm (upper_key value)) /\
  (truthy (py_get vm (upper_key value)) = false -> get_raw vm value = VNone ->
     apply_value_mapping value config = value) /\
  (truthy (py_get vm (upper_key value)) = false -> get_raw vm value <> VNone ->
     apply_value_mapping value config = get_raw vm value).
Proof.
  intros Hv Hvm Hne. unfold apply_value_mapping. rewrite Hvm.
  rewrite bool_decide_eq_false_2 by done. unfold py_or.
  repeat split.
  - intros Ht. rewrite Ht.
    destruct value; try done;
      destruct (py_get vm _); try done.
  - intros Ht Hr. rewrite Ht, Hr. by destruct value.
  - intros Ht Hr. rewrite Ht.
    destruct value; try done; destruct (get_raw vm _); done.
Qed.

Lemma apply_value_mapping_lookups_witness :
  apply_value_mapping (VStr "male") sex_config = VStr "male".
Proof.
  refine (proj1 (proj2
    (apply_value_mapping_lookups (VStr "male") sex_config {[ "MALE" := VStr "" ]}
       _ _ _)) _ _); try reflexivity; discriminate.
Defined.

(** ** Paragraph variations *)

Definition ended_paragraph : paragraph :=
  {| number := 1; template := "The event started.";
     variations := Some {[ "with_end_date" := "" ]} |}.

(** C10, as stated, fails: the chosen variation key is present, its text is
    empty, and the base text is used alone, without the separating space. *)
Lemma paragraph_empty_variation :
  let field_values : gmap string pyval := {[ "end_date" := VStr "25-Jan-2024" ]} in
  truthy (py_get field_values "end_date") = true
  /\ ({[ "with_end_date" := "" ]} : gmap string string) !! "with_end_date" = Some ""
  /\ paragraph_template_text ended_paragraph field_values = "The event started."
  /\ paragraph_template_text ended_paragraph field_values
     <> "The event started." +:+ " " +:+ "".
Proof. repeat split; discriminate. Qed.

(** C10, amended.  For a paragraph that declares variations: a truthy
    [end_date] chooses [with_end_date], any other ([None], empty, missing)
    chooses [without_end_date]; a chosen variation with non-empty text is
    appended to the base text after one space; when the chosen key is absent
    or its text is empty the base text is used alone. *)
Theorem paragraph_variation_choice paragraph_config field_values vars :
  variations paragraph_config = Some vars ->
  let base := template paragraph_config in
  let text := paragraph_template_text paragraph_config field_values in
  let key := if truthy (py_get field_values "end_date")
             then "with_end_date" else "without_end_date" in
  (field_values !! "end_date" = None \/ field_values !! "end_date" = Some VNone
   \/ field_values !! "end_date" = Some (VStr "") -> key = "without_end_date") /\
  (forall v, vars !! key = Some v -> v <> "" -> text = base +:+ " " +:+ v) /\
  (vars !! key = None \/ vars !! key = Some "" -> text = base) /\
  generate_paragraph paragraph_config field_values
  = (filled ← fill_template text field_values; Return (apply_business_rules filled)).
Proof.
  intros Hvars base text key.
  assert (generate_paragraph paragraph_config field_values
          = (filled ← fill_template text field_values;
             Return (apply_business_rules filled))) as Hgen by reflexivity.
  subst text. unfold paragraph_template_text in *.
  rewrite Hvars in *. fold base. fold key.
  split; [|split; [|split; [|exact Hgen]]].
  - subst key. unfold py_get. by intros [-> | [-> | ->]].
  - intros v Hv Hne. rewrite Hv.
    destruct (bool_decide_reflect (vars = ∅)) as [-> | _]; [done|].
    by destruct (String.eqb_spec v "").
  - intros [Hv | Hv]; rewrite Hv; by destruct (bool_decide (vars = ∅)).
Qed.

Definition dated_paragraph : paragraph :=
  {| number := 1; template := "The event started.";
     variations := Some {[ "with_end_date" := "It ended on {end_date}.";
                           "without_end_date" := "It is ongoing." ]} |}.

Lemma paragraph_variation_choice_witness :
  paragraph_template_text dated_paragraph {[ "end_date" := VStr "" ]}
  = "The event started. It is ongoing.".
Proof.
  refine (proj1 (proj2
    (paragraph_variation_choice dated_paragraph {[ "end_date" := VStr "" ]}
       {[ "with_end_date" := "It ended on {end_date}.";
          "without_end_date" := "It is ongoing." ]} _)) "It is ongoing." _ _);
    [reflexivity | reflexivity | discriminate].
Defined.

(** ** Template filling *)

Section vformat.

Variable kwargs : string -> outcome pyval.








End vformat.

(** [_SafeDict.__getitem__] always returns. *)
Lemma safe_getitem_returns d key :
  _SafeDict.__getitem__ d key
  = Return (default (VStr NOT_AVAILABLE) (d !! key)).
Proof. unfold _SafeDict.__getitem__. by destruct (d !! key). Qed.

Lemma bind_Raise {A B} (x : outcome A) (f : A -> outcome B) e :
  x ≫= f = Raise e -> x = Raise e \/ exists a, x = Return a /\ f a = Raise e.
Proof.
  destruct x as [a|e'|]; cbn; intros H; try discriminate.
  - right. eauto.
  - left. by injection H as ->.
Qed.

(** Scanning over a mapping whose [__getitem__] always returns raises
    nothing but the errors of the format string itself. *)
Definition format_error (e : exn) : Prop := e = IndexError \/ e = FormatSyntaxError.

Lemma vformat_from_raises kwargs e :
  (forall x, exists v, kwargs x = Return v) ->
  forall s st, Formatter.vformat_from kwargs st s = Raise e -> format_error e.
Proof.
  intros Htotal. induction s as [|c s IH]; intros st.
  - destruct st; cbn; intros [= <-]; by right.
  - assert (forall ch X, (X = Raise e -> format_error e) ->
              Formatter.emit ch X = Raise e -> format_error e) as Hemit.
    { intros ch X HX H. apply bind_Raise in H as [H | (r & _ & H)]; [auto|done]. }
    assert (forall acc,
      (if Ascii.eqb c "}" then
         obj ← Formatter.get_field kwargs acc;
         rest ← Formatter.vformat_from kwargs Formatter.Literal s;
         Return (chars (py_str obj) ++ rest)
       else if Ascii.eqb c "{" then Raise FormatSyntaxError
       else if Formatter.starts_unmodelled c then Unmodelled
       else Formatter.vformat_from kwargs (Formatter.FieldName (acc ++ [c])) s)
      = Raise e -> format_error e) as Hfield.
    { intros acc. destruct (Ascii.eqb c "}").
      - intros H. apply bind_Raise in H as [H | (obj & _ & H)].
        + unfold Formatter.get_field in H.
          destruct (Formatter.get_integer _);
            [injection H as <-; by left| |injection H as <-; by right].
          match type of H with
          | kwargs ?x = _ => destruct (Htotal x) as [v Hv]
          end. congruence.
        + apply bind_Raise in H as [H | (r & _ & H)]; [|done]. by apply IH in H.
      - destruct (Ascii.eqb c "{"); [intros [= <-]; by right|].
        destruct (Formatter.starts_unmodelled c); [done|]. apply IH. }
    destruct st; cbn.
    + destruct (Ascii.eqb c "{"); [apply IH|].
      destruct (Ascii.eqb c "}"); [apply IH|]. apply Hemit, IH.
    + destruct (Ascii.eqb c "{") eqn:E; [apply Hemit, IH|].
      apply (Hfield []).
    + destruct (Ascii.eqb c "}"); [apply Hemit, IH|intros [= <-]; by right].
    + apply Hfield.
Qed.

Lemma fill_template_raises template_text field_values e :
  Formatter.vformat template_text
    (_SafeDict.__getitem__ (safe_value <$> field_values)) = Raise e ->
  format_error e.
Proof.
  unfold Formatter.vformat. intros E.
  apply bind_Raise in E as [E | (r & _ & E)]; [|done].
  revert E. apply vformat_from_raises.
  intros x. rewrite safe_getitem_returns. eauto.
Qed.

(** The handler of [fill_template] never fires: filling is the scan over the
    safe dictionary. *)
Lemma fill_template_vformat template_text field_values :
  fill_template template_text field_values
  = Formatter.vformat template_text
      (_SafeDict.__getitem__ (safe_value <$> field_values)).
Proof.
  unfold fill_template.
  destruct (Formatter.vformat _ _) as [r|e|] eqn:E; try done.
  by destruct (fill_template_raises _ _ _ E) as [-> | ->].
Qed.




(** The hard error exists for a plain [dict] only: there the scan raises
    [KeyError], which [_SafeDict] pre-empts. *)
Lemma vformat_plain_dict_missing_field :
  Formatter.vformat "Subject {subject_id}." (Formatter.dict_getitem ∅)
  = Raise (KeyError "subject_id").
Proof. reflexivity. Qed.





(** C7.  A field whose value is the string ["None"] and one whose value is
    the float NaN pass the missing-value test and reach the paragraph as the
    texts [None] and [nan]. *)
Theorem generate_paragraph_literal_None_nan :
  generate_paragraph
    {| number := 1; template := "Outcome: {outcome}; grade {severity_grade}.";
       variations := None |}
    {[ "outcome" := VStr "None"; "severity_grade" := VNaN ]}
  = Return "Outcome: None; grade nan.".
Proof. vm_compute. reflexivity. Qed.

(** ** Enhancement *)

Definition example_config : list (list field_config) :=
  [[ {| name := "age"; db_table := "subjects"; db_column := "age";
        value_map := None; format := None |};
     {| name := "sex"; db_table := "subjects"; db_column := "sex";
        value_map := Some {[ "MALE" := VStr "male" ]}; format := None |} ];
   [ {| name := "preferred_term"; db_table := "adverse_events";
        db_column := "preferred_term"; value_map := None; format := None |};
     {| name := "start_date"; db_table := "adverse_events";
        db_column := "start_date"; value_map := None; format := Some "date" |};
     {| name := "end_date"; db_table := "adverse_events";
        db_column := "end_date"; value_map := None; format := Some "date" |} ]].

Definition example_rows : rows :=
  {| subject_data := Some {[ "age" := VInt 74; "sex" := VStr "Male" ]};
     event_data := Some {[ "preferred_term" := VStr "Pneumonia";
                           "start_date" := VStr "2024-01-22";
                           "serious_event" := VStr "N" ]};
     treatment_data := None |}.

Definition example_narrative_templates : gmap string narrative_template :=
  {[ "ae_non_serious" :=
       {| template_id := "AE_NON_SERIOUS_V1";
          paragraphs :=
            [ {| number := 2;
                 template := "The event of {preferred_term} started on {start_date}.";
                 variations := Some {[ "with_end_date" := "It ended on {end_date}.";
                                       "without_end_date" := "It was ongoing." ]} |};
              {| number := 1;
                 template := "The subject was a {age}-YEARS-old {sex}.";
                 variations := None |} ] |} ]}.

Definition example_baseline : string :=
  "The subject was a 74-year-old male." +:+ paragraph_separator
  +:+ "The event of Pneumonia started on 22-Jan-2024. It was ongoing.".

Example generate_narrative_baseline :
  generate_narrative example_narrative_templates example_config None example_rows
  = Return example_baseline.
Proof. vm_compute. reflexivity. Qed.

(** An enhancer whose [enhance] raises on every call. *)
Definition failing_enhancer : enhancer :=
  fun _ _ _ => Raise (RuntimeError "timeout").

(** C4, as stated, fails: [generate_narrative] calls [enhance] with no
    handler, so an enhancer that raises makes narrative generation fail,
    although the baseline text was assembled. *)
Lemma generate_narrative_enhancer_raises :
  generate_narrative example_narrative_templates example_config None example_rows
  = Return example_baseline
  /\ generate_narrative example_narrative_templates example_config
       (Some failing_enhancer) example_rows
     = Raise (RuntimeError "timeout").
Proof. split; vm_compute; reflexivity. Qed.

(** C4, amended.  The fallback is that of [OpenAINarrativeEnhancer.enhance]:
    when the client call fails with any exception, [enhance] returns the
    baseline text unchanged, and narrative generation with that enhancer
    gives exactly what it gives without an enhancer. *)
Theorem generate_narrative_client_failure templates config r
    (cl : OpenAINarrativeEnhancer.client) :
  (forall field_values template_id baseline_text,
     exists exc, cl field_values template_id baseline_text = Raise exc) ->
  (forall field_values template_id baseline_text,
     OpenAINarrativeEnhancer.enhance cl field_values template_id baseline_text
     = Return baseline_text)
  /\ generate_narrative templates config
       (Some (OpenAINarrativeEnhancer.enhance cl)) r
     = generate_narrative templates config None r.
Proof.
  intros Hfail.
  assert (forall fv tid b, OpenAINarrativeEnhancer.enhance cl fv tid b = Return b)
    as Henh.
  { intros fv tid b. unfold OpenAINarrativeEnhancer.enhance.
    by destruct (Hfail fv tid b) as [exc ->]. }
  split; [exact Henh|].
  unfold generate_narrative.
  destruct (baseline_narrative _ _ _) as [[t text]| |]; cbn; [|done..].
  apply Henh.
Qed.

Definition failing_client : OpenAINarrativeEnhancer.client :=
  fun _ _ _ => Raise (RuntimeError "timeout").

Lemma generate_narrative_client_failure_witness :
  generate_narrative example_narrative_templates example_config
    (Some (OpenAINarrativeEnhancer.enhance failing_client)) example_rows
  = generate_narrative example_narrative_templates example_config None example_rows.
Proof.
  refine (proj2 (generate_narrative_client_failure example_narrative_templates
                   example_config example_rows failing_client _)).
  intros fv tid b. exists (RuntimeError "timeout"). reflexivity.
Defined.

(** * The business rules *)

(** ** Substitution as a segmentation of the text *)

(** The character before the position reached by reading [a], when [prev]
    stood before [a]. *)
Definition prev_at (prev : option ascii) (a : list ascii) : option ascii :=
  match last a with
  | Some c => Some c
  | None => prev
  end.

Lemma prev_at_nil prev : prev_at prev [] = prev.
Proof. reflexivity. Qed.

Lemma prev_at_cons prev c a : prev_at prev (c :: a) = prev_at (Some c) a.
Proof. unfold prev_at. rewrite last_cons. by destruct (last a). Qed.

Lemma prev_at_app prev a b : prev_at prev (a ++ b) = prev_at (prev_at prev a) b.
Proof. unfold prev_at. rewrite last_app. by destruct (last b). Qed.

Lemma prev_at_snoc prev a c : prev_at prev (a ++ [c]) = Some c.
Proof. unfold prev_at. by rewrite last_snoc. Qed.

Section segments.

Variable m : Re.matcher.

(** A match is not empty and lies within the text. *)
Definition well_formed : Prop :=
  forall prev s repl n, m prev s = Some (repl, n) -> (1 <= n <= length s)%nat.

(** [segments prev s out]: the scan of [s], with [prev] before it, copies
    and replaces its way to [out]. *)
Inductive segments : option ascii -> list ascii -> list ascii -> Prop :=
| seg_end prev : segments prev [] []
| seg_copy prev c s out :
    m prev (c :: s) = None ->
    segments (Some c) s out ->
    segments prev (c :: s) (c :: out)
| seg_match prev matched rest repl out :
    m prev (matched ++ rest) = Some (repl, length matched) ->
    matched <> [] ->
    segments (prev_at prev matched) rest out ->
    segments prev (matched ++ rest) (repl ++ out).

Lemma sub_from_skip a : forall prev b,
  Re.sub_from m (length a) prev (a ++ b) = Re.sub_from m 0 (prev_at prev a) b.
Proof.
  induction a as [|c a IH]; intros prev b; [done|].
  cbn [length app Re.sub_from]. rewrite IH. by rewrite prev_at_cons.
Qed.

Lemma sub_from_segments : well_formed ->
  forall s prev, segments prev s (Re.sub_from m 0 prev s).
Proof.
  intros Hwf s. remember (length s) as k eqn:Hk.
  revert s Hk. induction k as [k IH] using lt_wf_ind. intros s Hk prev.
  destruct s as [|c r]; [constructor|].
  cbn [Re.sub_from]. destruct (m prev (c :: r)) as [[repl n]|] eqn:Hm.
  - destruct (Hwf _ _ _ _ Hm) as [Hn1 Hn2]. cbn [length] in Hn2.
    pose (a := take (Nat.pred n) r). pose (b := drop (Nat.pred n) r).
    assert (r = a ++ b) as Hr by (symmetry; apply take_drop).
    assert (length a = Nat.pred n) as Hlen
      by (subst a; rewrite length_take; lia).
    assert (n = length (c :: a)) as Hn by (cbn [length]; lia).
    clearbody a b. subst r. rewrite <- Hlen, sub_from_skip.
    rewrite <- (prev_at_cons prev).
    change (c :: a ++ b) with ((c :: a) ++ b).
    apply seg_match.
    + rewrite <- Hn. exact Hm.
    + done.
    + eapply IH; [|reflexivity]. subst k. cbn [length].
      rewrite length_app. lia.
  - apply seg_copy; [done|]. eapply IH; [|reflexivity]. subst k. cbn. lia.
Qed.

(** Where every match is replaced by itself, the text is unchanged. *)
Lemma segments_unchanged prev s out :
  segments prev s out ->
  (forall a b repl n, s = a ++ b ->
     m (prev_at prev a) b = Some (repl, n) -> repl = take n b) ->
  out = s.
Proof.
  induction 1 as [prev|prev c s out Hm Hseg IH|prev matched rest repl out Hm Hne Hseg IH];
    intros Hq.
  - done.
  - f_equal. apply IH. intros a b repl n -> Hab.
    apply (Hq (c :: a) b repl n); [done|]. by rewrite prev_at_cons.
  - rewrite (Hq [] (matched ++ rest) repl (length matched) eq_refl Hm).
    rewrite take_app_length. f_equal. apply IH.
    intros a b repl' n -> Hab.
    apply (Hq (matched ++ a) b repl' n); [by rewrite app_assoc|].
    by rewrite prev_at_app.
Qed.

End segments.

(** ** Positions a rule would rewrite *)

(** A detector says, from the character before a position and the text from
    the position on, that a rule has something to rewrite there. *)
Definition detector := option ascii -> list ascii -> bool.

Definition clear_from (bad : detector) (prev : option ascii) (s : list ascii) : Prop :=
  forall a b, s = a ++ b -> bad (prev_at prev a) b = false.

Definition clear (bad : detector) (s : list ascii) : Prop := clear_from bad None s.

Lemma clear_from_cons bad prev c s :
  clear_from bad prev (c :: s) -> clear_from bad (Some c) s.
Proof.
  intros H a b ->. rewrite <- (prev_at_cons prev). by apply H.
Qed.

Lemma clear_from_app bad prev a s :
  clear_from bad prev (a ++ s) -> clear_from bad (prev_at prev a) s.
Proof.
  intros H a' b ->. rewrite <- prev_at_app. apply H. by rewrite app_assoc.
Qed.

Section clear_after_sub.

Variable m : Re.matcher.
Variable bad : detector.

(** What is known where the scan stands: about the character before it in
    the input, the character before it in the output, and the input left. *)
Variable Inv : option ascii -> option ascii -> list ascii -> Prop.

Hypothesis Inv_copy : forall p p' c s,
  Inv p p' (c :: s) -> m p (c :: s) = None -> Inv (Some c) (Some c) s.
Hypothesis Inv_match : forall p p' matched rest repl,
  Inv p p' (matched ++ rest) ->
  m p (matched ++ rest) = Some (repl, length matched) -> matched <> [] ->
  Inv (prev_at p matched) (prev_at p' repl) rest.
Hypothesis copy_clear : forall p p' c s,
  Inv p p' (c :: s) -> m p (c :: s) = None -> bad p (c :: s) = false.
Hypothesis transfer : forall p p' c s out,
  Inv p p' (c :: s) -> m p (c :: s) = None -> segments m (Some c) s out ->
  bad p' (c :: out) = true -> bad p (c :: s) = true.
Hypothesis block_clear : forall p p' matched rest repl out,
  Inv p p' (matched ++ rest) ->
  m p (matched ++ rest) = Some (repl, length matched) -> matched <> [] ->
  segments m (prev_at p matched) rest out ->
  forall r1 r2, repl = r1 ++ r2 -> r2 <> [] ->
  bad (prev_at p' r1) (r2 ++ out) = false.
Hypothesis bad_nil : forall p, bad p [] = false.

Theorem clear_after_segments p s out :
  segments m p s out -> forall p', Inv p p' s -> clear_from bad p' out.
Proof.
  induction 1 as [p|p c s out Hm Hseg IH|p matched rest repl out Hm Hne Hseg IH];
    intros p' HI a' b' Hsplit.
  - symmetry in Hsplit. apply app_eq_nil in Hsplit as [-> ->]. apply bad_nil.
  - destruct a' as [|c' a'].
    + cbn in Hsplit. subst b'. rewrite prev_at_nil.
      destruct (bad p' (c :: out)) eqn:Hbad; [|done].
      apply (transfer _ _ _ _ _ HI Hm Hseg) in Hbad.
      by rewrite (copy_clear _ _ _ _ HI Hm) in Hbad.
    + injection Hsplit as <- ->. rewrite prev_at_cons.
      by apply (IH (Some c) (Inv_copy _ _ _ _ HI Hm)).
  - apply app_eq_app in Hsplit as [l [[-> ->] | [-> ->]]].
    + destruct l as [|x l].
      * specialize (IH _ (Inv_match _ _ _ _ _ HI Hm Hne) [] out eq_refl).
        by rewrite prev_at_nil, app_nil_r in IH.
      * by apply (block_clear _ _ _ _ _ _ HI Hm Hne Hseg).
    + rewrite prev_at_app.
      by apply (IH _ (Inv_match _ _ _ _ _ HI Hm Hne)).
Qed.

End clear_after_sub.

(** ** Lowering *)

(** A character and what a rule that only lowers case may make of it. *)
Definition lowers (c c' : ascii) : Prop := c' = c \/ c' = lower_char c.

Definition lowered : list ascii -> list ascii -> Prop := Forall2 lowers.

Definition lowers_opt (p p' : option ascii) : Prop :=
  match p, p' with
  | Some c, Some c' => lowers c c'
  | None, None => True
  | _, _ => False
  end.

Lemma lowers_refl c : lowers c c.
Proof. by left. Qed.

Lemma lowered_refl s : lowered s s.
Proof. induction s; constructor; auto using lowers_refl. Qed.

Lemma lowers_opt_refl p : lowers_opt p p.
Proof. destruct p; cbn; auto using lowers_refl. Qed.

Lemma lowered_lower_text s : lowered s (lower_text s).
Proof. induction s; constructor; [by right|done]. Qed.

Lemma lowers_opt_last a a' : lowered a a' -> lowers_opt (last a) (last a').
Proof.
  induction 1 as [|c c' a a' Hc Ha IH]; [done|].
  rewrite !last_cons. destruct (last a), (last a'); done.
Qed.

Lemma lowers_opt_prev_at p p' a a' :
  lowers_opt p p' -> lowered a a' -> lowers_opt (prev_at p a) (prev_at p' a').
Proof.
  intros Hp Ha. apply lowers_opt_last in Ha. unfold prev_at.
  destruct (last a), (last a'); done.
Qed.


(** ** Characters *)

Ltac each_char c := destruct c as [[] [] [] [] [] [] [] []]; vm_compute.

Lemma lower_char_idem c : lower_char (lower_char c) = lower_char c.
Proof. by each_char c. Qed.

Lemma is_word_lower_char c : is_word (lower_char c) = is_word c.
Proof. by each_char c. Qed.

Lemma is_digit_lower_char c : is_digit (lower_char c) = is_digit c.
Proof. by each_char c. Qed.

Lemma is_upper_lower_char c : is_upper (lower_char c) = false.
Proof. by each_char c. Qed.

Lemma lower_char_not_upper c : is_upper c = false -> lower_char c = c.
Proof. unfold lower_char. by intros ->. Qed.

Lemma lower_char_dot c : Ascii.eqb (lower_char c) "." = Ascii.eqb c ".".
Proof. by each_char c. Qed.

Lemma lower_char_space c : lower_char c = " "%char -> c = " "%char.
Proof. each_char c; congruence. Qed.

Lemma is_digit_word c : is_digit c = true -> is_word c = true.
Proof. each_char c; congruence. Qed.

Lemma lowers_is_word c c' : lowers c c' -> is_word c' = is_word c.
Proof. intros [-> | ->]; [done|apply is_word_lower_char]. Qed.

Lemma lowers_is_digit c c' : lowers c c' -> is_digit c' = is_digit c.
Proof. intros [-> | ->]; [done|apply is_digit_lower_char]. Qed.

Lemma lowers_lower_char c c' : lowers c c' -> lower_char c' = lower_char c.
Proof. intros [-> | ->]; [done|apply lower_char_idem]. Qed.

Lemma lowers_dot c c' : lowers c c' -> Ascii.eqb c' "." = Ascii.eqb c ".".
Proof. intros [-> | ->]; [done|apply lower_char_dot]. Qed.

Lemma lowers_is_upper c c' : lowers c c' -> is_upper c' = true -> c' = c.
Proof. intros [-> | ->]; [done|]. by rewrite is_upper_lower_char. Qed.

Lemma lowers_same_char_ci x c c' :
  lowers c c' -> Re.same_char_ci x c' = Re.same_char_ci x c.
Proof. intros H. unfold Re.same_char_ci. by rewrite (lowers_lower_char _ _ H). Qed.

Lemma lowers_opt_is_word p p' :
  lowers_opt p p' -> Re.is_word_opt p' = Re.is_word_opt p.
Proof. destruct p, p'; cbn; try done. apply lowers_is_word. Qed.

Lemma lowered_lookup s s' i : lowered s s' -> lowers_opt (s !! i) (s' !! i).
Proof.
  intros H. revert i. induction H as [|c c' s s' Hc Hs IH]; intros [|i]; cbn; auto.
Qed.

Lemma lowered_head s s' : lowered s s' -> lowers_opt (head s) (head s').
Proof. by destruct 1. Qed.

Lemma lowered_length s s' : lowered s s' -> length s = length s'.
Proof. apply Forall2_length. Qed.

(** The characters before two positions are of the same kind. *)
Definition is_digit_opt (c : option ascii) : bool :=
  match c with
  | Some c => is_digit c
  | None => false
  end.

Definition same_kind (p p' : option ascii) : Prop :=
  Re.is_word_opt p = Re.is_word_opt p' /\ is_digit_opt p = is_digit_opt p'.

Lemma same_kind_refl p : same_kind p p.
Proof. done. Qed.

Lemma lowers_opt_same_kind p p' : lowers_opt p p' -> same_kind p p'.
Proof.
  destruct p, p'; cbn; try done. intros H. split; cbn.
  - by rewrite (lowers_is_word _ _ H).
  - by rewrite (lowers_is_digit _ _ H).
Qed.

(** A rule that only lowers the case of what it matches. *)
Definition lowering (m : Re.matcher) : Prop :=
  forall prev s repl n, m prev s = Some (repl, n) ->
    (1 <= n <= length s)%nat /\ lowered (take n s) repl.

(** A detector that finds in the lowered text only what it found before. *)
Definition antitone (bad : detector) : Prop :=
  forall p p' b b', same_kind p p' -> lowered b b' ->
    bad p' b' = true -> bad p b = true.

Lemma lowering_well_formed m : lowering m -> well_formed m.
Proof. intros H p s repl n Hm. by destruct (H _ _ _ _ Hm). Qed.

Lemma segments_lowered m : lowering m ->
  forall p s out, segments m p s out -> lowered s out.
Proof.
  intros Hl p s out. induction 1 as [|p c s out Hm Hseg IH|p matched rest repl out Hm Hne Hseg IH].
  - constructor.
  - constructor; [apply lowers_refl|done].
  - apply Forall2_app; [|done].
    destruct (Hl _ _ _ _ Hm) as [_ H]. by rewrite take_app_length in H.
Qed.

Lemma sub_lowered m s : lowering m -> lowered s (Re.sub m s).
Proof.
  intros Hl. eapply segments_lowered; [done|].
  apply sub_from_segments. by apply lowering_well_formed.
Qed.

Lemma clear_lowered bad s s' :
  antitone bad -> lowered s s' -> clear bad s -> clear bad s'.
Proof.
  intros Hanti Hlow Hclear a' b' ->.
  apply Forall2_app_inv_r in Hlow as (a & b & Ha & Hb & ->).
  destruct (bad (prev_at None a') b') eqn:Hbad; [|done].
  apply (Hanti (prev_at None a) _ b) in Hbad;
    [|by apply lowers_opt_same_kind, lowers_opt_prev_at|done].
  by rewrite (Hclear a b eq_refl) in Hbad.
Qed.

(** A lowering rule leaves clear what was clear. *)
Lemma clear_sub_lowering bad m s :
  antitone bad -> lowering m -> clear bad s -> clear bad (Re.sub m s).
Proof. intros Ha Hl. apply clear_lowered; [done|]. by apply sub_lowered. Qed.
(** ** Literal prefixes and spans *)

Lemma starts_with_app cmp p s t :
  Re.starts_with cmp p s = true -> Re.starts_with cmp p (s ++ t) = true.
Proof.
  revert s. induction p as [|a p IH]; intros [|c s]; cbn; try done.
  intros [-> H]%andb_prop. cbn. by apply IH.
Qed.

Lemma starts_with_length cmp p s :
  Re.starts_with cmp p s = true -> (length p <= length s)%nat.
Proof.
  revert s. induction p as [|a p IH]; intros [|c s]; cbn; try done; [lia..|].
  intros [_ H]%andb_prop. apply IH in H. lia.
Qed.

Lemma starts_with_same p s :
  Re.starts_with Re.same_char p s = true -> take (length p) s = p.
Proof.
  revert s. induction p as [|a p IH]; intros [|c s]; cbn; try done.
  intros [Hc H]%andb_prop. apply Ascii.eqb_eq in Hc as ->. by rewrite IH.
Qed.

Lemma starts_with_ci_lowered p s s' :
  lowered s s' ->
  Re.starts_with Re.same_char_ci p s' = Re.starts_with Re.same_char_ci p s.
Proof.
  intros H. revert p. induction H as [|c c' s s' Hc Hs IH]; intros [|a p]; cbn; try done.
  by rewrite (lowers_same_char_ci _ _ _ Hc), IH.
Qed.

Lemma span_app ok s : exists rest, s = Re.span ok s ++ rest
  /\ (rest = [] \/ exists c r, rest = c :: r /\ ok c = false).
Proof.
  induction s as [|c s (rest & IH & Hrest)].
  - exists []. auto.
  - cbn. destruct (ok c) eqn:Hc.
    + exists rest. cbn. by rewrite <- IH.
    + exists (c :: s). split; [done|]. right. eauto.
Qed.

Lemma span_all ok s : Forall (fun c => ok c = true) (Re.span ok s).
Proof.
  induction s as [|c s IH]; cbn; [constructor|].
  destruct (ok c) eqn:Hc; by constructor.
Qed.

Lemma span_app_stop ok x out :
  Forall (fun c => ok c = true) x ->
  (out = [] \/ exists c r, out = c :: r /\ ok c = false) ->
  Re.span ok (x ++ out) = x.
Proof.
  intros Hx Hout. induction Hx as [|c x Hc Hx IH]; cbn.
  - destruct Hout as [-> | (c & r & -> & Hc)]; cbn; [done|by rewrite Hc].
  - by rewrite Hc, IH.
Qed.

Lemma span_lowered ok s s' :
  (forall c c', lowers c c' -> ok c' = ok c) ->
  lowered s s' -> lowered (Re.span ok s) (Re.span ok s').
Proof.
  intros Hok. induction 1 as [|c c' s s' Hc Hs IH]; cbn; [constructor|].
  rewrite (Hok _ _ Hc). destruct (ok c); by constructor.
Qed.

(** The non-empty suffixes of a text. *)
Fixpoint suffixes (l : list ascii) : list (list ascii) :=
  match l with
  | [] => []
  | _ :: t => l :: suffixes t
  end.

Lemma in_suffixes l r1 r2 : l = r1 ++ r2 -> r2 <> [] -> In r2 (suffixes l).
Proof.
  revert l. induction r1 as [|c r1 IH]; intros l -> Hne.
  - destruct r2; [done|]. by left.
  - right. by apply IH.
Qed.

(** A literal and a text disagree on a character both have: the literal
    starts no continuation of the text. *)
Fixpoint clash (cmp : ascii -> ascii -> bool) (p x : list ascii) : bool :=
  match p, x with
  | a :: p', c :: x' => negb (cmp a c) || clash cmp p' x'
  | _, _ => false
  end.

Lemma clash_starts_with cmp p x out :
  clash cmp p x = true -> Re.starts_with cmp p (x ++ out) = false.
Proof.
  revert x. induction p as [|a p IH]; intros [|c x]; cbn; try done.
  destruct (cmp a c); cbn; [apply IH|done].
Qed.

Lemma head_drop_lookup (l : list ascii) n : head (drop n l) = l !! n.
Proof. revert l. induction n as [|n IH]; intros [|c l]; cbn; auto. Qed.

Lemma lookup_of_take (l l' : list ascii) n i :
  take n l = take n l' -> (i < n)%nat -> l !! i = l' !! i.
Proof.
  intros H Hi. rewrite <- (lookup_take_lt l n i), <- (lookup_take_lt l' n i) by done.
  by rewrite H.
Qed.

(** ** Windows: a literal found in the output was copied from the input *)

Section window.

Variable m : Re.matcher.
Variable cmp : ascii -> ascii -> bool.

(** No replacement of [m] begins with a character of the literal [w]. *)
Definition head_excluded (w : list ascii) : Prop :=
  forall p s repl n, m p s = Some (repl, n) ->
    exists r0 r, repl = r0 :: r /\ Forall (fun a => cmp a r0 = false) w.

Lemma head_excluded_tail a w : head_excluded (a :: w) -> head_excluded w.
Proof.
  intros H p s repl n Hm. destruct (H _ _ _ _ Hm) as (r0 & r & -> & Hall).
  exists r0, r. split; [done|]. by inversion Hall.
Qed.

Lemma window w : head_excluded w ->
  forall p s out, segments m p s out ->
  Re.starts_with cmp w out = true ->
  Re.starts_with cmp w s = true
  /\ take (length w) out = take (length w) s
  /\ segments m (prev_at p (take (length w) s)) (drop (length w) s)
       (drop (length w) out).
Proof.
  induction w as [|a w IH]; intros Hex p s out Hseg Hw.
  - by rewrite !take_0, !drop_0.
  - destruct out as [|c out]; [done|]. cbn in Hw.
    apply andb_prop in Hw as [Hc Hw].
    inversion Hseg as [|p0 c0 s0 out0 Hm Hseg' E1 E2 E3
                       |p0 matched rest repl out0 Hm Hne Hseg' E1 E2 E3]; subst.
    + destruct (IH (head_excluded_tail _ _ Hex) _ _ _ Hseg' Hw) as (H1 & H2 & H3).
      cbn. rewrite Hc, H1, H2. rewrite prev_at_cons. done.
    + destruct (Hex _ _ _ _ Hm) as (r0 & r & -> & Hall).
      injection E3 as -> _. inversion Hall as [|? ? Hr0 _]; subst. congruence.
Qed.

(** [m] replaces a match by a text that begins and ends with characters of
    the same kind, word or not and digit or not, as the match. *)
Definition kind_preserving : Prop :=
  forall p matched rest repl,
    m p (matched ++ rest) = Some (repl, length matched) -> matched <> [] ->
    repl <> []
    /\ Re.is_word_opt (head repl) = Re.is_word_opt (head matched)
    /\ same_kind (last matched) (last repl).

Lemma segments_head_word : kind_preserving ->
  forall p s out, segments m p s out ->
  Re.is_word_opt (head out) = Re.is_word_opt (head s).
Proof.
  intros Hwp p s out. destruct 1 as [|p c s out Hm Hseg|p matched rest repl out Hm Hne Hseg];
    [done..|].
  destruct (Hwp _ _ _ _ Hm Hne) as (Hr & Hh & _).
  destruct repl; [done|]. destruct matched; [done|]. exact Hh.
Qed.

Lemma prev_at_kind_preserved p p' matched rest repl :
  kind_preserving ->
  m p (matched ++ rest) = Some (repl, length matched) -> matched <> [] ->
  same_kind (prev_at p matched) (prev_at p' repl).
Proof.
  intros Hwp Hm Hne. destruct (Hwp _ _ _ _ Hm Hne) as (Hr & _ & Hl).
  unfold prev_at.
  destruct (last repl) eqn:E1.
  - destruct (last matched) eqn:E2; [done|].
    apply last_None in E2. done.
  - apply last_None in E1. done.
Qed.

End window.

(** ** Literals between word boundaries *)

Section bounded.

Variable cmp : ascii -> ascii -> bool.
Variables pat repl : string.

Definition bounded_at : detector := fun prev s =>
  (Re.word_boundary prev (head s) && Re.starts_with cmp (chars pat) s
   && Re.word_boundary (s !! (length (chars pat) - 1)%nat) (s !! length (chars pat)))%bool.

Lemma bounded_literal_Some prev s r n :
  Re.bounded_literal cmp pat repl prev s = Some (r, n) ->
  bounded_at prev s = true /\ r = chars repl /\ n = length (chars pat).
Proof.
  unfold Re.bounded_literal, bounded_at.
  destruct (_ && _ && _)%bool; [|done]. by intros [= <- <-].
Qed.

Lemma bounded_literal_None prev s :
  Re.bounded_literal cmp pat repl prev s = None -> bounded_at prev s = false.
Proof.
  unfold Re.bounded_literal, bounded_at. by destruct (_ && _ && _)%bool.
Qed.

Lemma bounded_at_starts prev s :
  bounded_at prev s = true -> Re.starts_with cmp (chars pat) s = true.
Proof.
  unfold bounded_at. intros H. apply andb_prop in H as [H _].
  by apply andb_prop in H as [_ H].
Qed.

Lemma bounded_at_clash prev x out :
  clash cmp (chars pat) x = true -> bounded_at prev (x ++ out) = false.
Proof.
  intros H. unfold bounded_at. rewrite (clash_starts_with _ _ _ _ H).
  by rewrite andb_false_r.
Qed.

Hypothesis pat_nonempty : chars pat <> [].

Lemma bounded_literal_well_formed : well_formed (Re.bounded_literal cmp pat repl).
Proof.
  intros p s r n H. apply bounded_literal_Some in H as (H & _ & ->).
  apply bounded_at_starts, starts_with_length in H.
  destruct (chars pat); [done|]. cbn in *. lia.
Qed.

(** A rule whose replacement differs from every match: a text clear of
    matches is left as it is. *)
Lemma bounded_literal_fix s :
  clear bounded_at s -> Re.sub (Re.bounded_literal cmp pat repl) s = s.
Proof.
  intros Hclear. unfold Re.sub.
  eapply segments_unchanged; [apply sub_from_segments, bounded_literal_well_formed|].
  intros a b r n -> H. apply bounded_literal_Some in H as (H & _ & _).
  by rewrite (Hclear a b eq_refl) in H.
Qed.

End bounded.

(** ** Clearing a detector by substitution, with the kind of the previous
       character as the invariant *)

Section kind_invariant.

Variable m : Re.matcher.
Variable bad : detector.

Hypothesis wf : well_formed m.
Hypothesis kp : kind_preserving m.
Hypothesis transferK : forall p p' c s out,
  same_kind p p' -> m p (c :: s) = None -> segments m (Some c) s out ->
  bad p' (c :: out) = true -> bad p (c :: s) = true.
Hypothesis blockK : forall p p' matched rest repl out,
  same_kind p p' ->
  m p (matched ++ rest) = Some (repl, length matched) -> matched <> [] ->
  segments m (prev_at p matched) rest out ->
  forall r1 r2, repl = r1 ++ r2 -> r2 <> [] ->
  bad (prev_at p' r1) (r2 ++ out) = false.
Hypothesis bad_nil : forall p, bad p [] = false.

(** The rule clears its own detector. *)
Theorem clear_sub_own :
  (forall p s, m p s = None -> bad p s = false) ->
  forall s, clear bad (Re.sub m s).
Proof.
  intros Hown s. unfold clear, Re.sub.
  refine (clear_after_segments m bad (fun p p' _ => same_kind p p')
            _ _ _ _ _ bad_nil None s _ (sub_from_segments m wf s None) None _);
    try done.
  - intros p p' matched rest repl _ Hm Hne. by eapply prev_at_kind_preserved.
  - intros p p' c s' _ Hm. by apply Hown.
Qed.

(** The rule keeps clear a detector that was clear. *)
Theorem clear_sub_kept s : clear bad s -> clear bad (Re.sub m s).
Proof.
  intros Hclear. unfold clear, Re.sub.
  refine (clear_after_segments m bad
            (fun p p' s => same_kind p p' /\ clear_from bad p s)
            _ _ _ _ _ bad_nil None s _ (sub_from_segments m wf s None) None _);
    try done.
  - intros p p' c s' [_ Hc] _. split; [done|]. by eapply clear_from_cons.
  - intros p p' matched rest repl [_ Hc] Hm Hne. split.
    + by eapply prev_at_kind_preserved.
    + by apply clear_from_app.
  - intros p p' c s' [_ Hc] _. by apply (Hc [] (c :: s')).
  - intros p p' c s' out [Hk _]. by apply transferK.
  - intros p p' matched rest repl out [Hk _]. by apply blockK.
Qed.

End kind_invariant.

(** A lowering rule keeps the kind of the characters at the ends of a match. *)
Lemma lowering_kind_preserving m : lowering m -> kind_preserving m.
Proof.
  intros Hl p matched rest repl Hm Hne.
  destruct (Hl _ _ _ _ Hm) as [_ H]. rewrite take_app_length in H.
  split; [|split].
  - destruct H; done.
  - apply lowers_opt_is_word. by apply lowered_head.
  - apply lowers_opt_same_kind. by apply lowers_opt_last.
Qed.

(** A lowering rule clears its own detector when the detector is antitone
    and finds nothing inside the replacements. *)
Lemma clear_sub_own_lowering m bad :
  lowering m -> antitone bad ->
  (forall p, bad p [] = false) ->
  (forall p s, m p s = None -> bad p s = false) ->
  (forall p p' matched rest repl out,
     same_kind p p' ->
     m p (matched ++ rest) = Some (repl, length matched) -> matched <> [] ->
     segments m (prev_at p matched) rest out ->
     forall r1 r2, repl = r1 ++ r2 -> r2 <> [] ->
     bad (prev_at p' r1) (r2 ++ out) = false) ->
  forall s, clear bad (Re.sub m s).
Proof.
  intros Hl Hanti Hnil Hown Hblock.
  apply clear_sub_own; try done.
  - by apply lowering_well_formed.
  - by apply lowering_kind_preserving.
  - intros p p' c s out Hk Hm Hseg. apply Hanti; [done|].
    constructor; [apply lowers_refl|]. by eapply segments_lowered.
Qed.

(** ** Antitone detectors *)

Lemma word_boundary_kind p p' q q' :
  Re.is_word_opt p = Re.is_word_opt p' -> Re.is_word_opt q = Re.is_word_opt q' ->
  Re.word_boundary p q = Re.word_boundary p' q'.
Proof. unfold Re.word_boundary. by intros -> ->. Qed.

Lemma bounded_at_ci_antitone pat : antitone (bounded_at Re.same_char_ci pat).
Proof.
  intros p p' b b' [Hk _] Hlow. unfold bounded_at.
  rewrite (starts_with_ci_lowered _ _ _ Hlow).
  rewrite (word_boundary_kind p p' (head b) (head b')); [|done|].
  2: { symmetry. apply lowers_opt_is_word, lowered_head, Hlow. }
  rewrite (word_boundary_kind (b !! (length (chars pat) - 1)%nat)
             (b' !! (length (chars pat) - 1)%nat)
             (b !! length (chars pat)) (b' !! length (chars pat))).
  - done.
  - symmetry. apply lowers_opt_is_word, lowered_lookup, Hlow.
  - symmetry. apply lowers_opt_is_word, lowered_lookup, Hlow.
Qed.

(** The literal is made of capital letters and spaces. *)
Definition capitals (p : list ascii) : bool :=
  forallb (fun a => is_upper a || Ascii.eqb a " ") p.

Lemma starts_with_same_lowered p s s' :
  capitals p = true -> lowered s s' ->
  Re.starts_with Re.same_char p s' = true -> Re.starts_with Re.same_char p s = true.
Proof.
  intros Hp H. revert p Hp.
  induction H as [|c c' s s' Hc Hs IH]; intros [|a p] Hp; cbn; try done.
  cbn in Hp. apply andb_prop in Hp as [Ha Hp].
  intros [Hac H]%andb_prop. rewrite (IH _ Hp H), andb_true_r.
  apply Ascii.eqb_eq in Hac as <-. apply Ascii.eqb_eq.
  destruct Hc as [-> | ->]; [done|].
  apply orb_prop in Ha as [Ha | Ha].
  - by rewrite is_upper_lower_char in Ha.
  - apply Ascii.eqb_eq in Ha. by rewrite (lower_char_space _ Ha).
Qed.

Lemma bounded_at_same_antitone pat :
  capitals (chars pat) = true -> antitone (bounded_at Re.same_char pat).
Proof.
  intros Hcap p p' b b' [Hk _] Hlow. unfold bounded_at.
  intros H. apply andb_prop in H as [H H3]. apply andb_prop in H as [H1 H2].
  rewrite (starts_with_same_lowered _ _ _ Hcap Hlow H2), andb_true_r.
  rewrite (word_boundary_kind p p' (head b) (head b')); [|done|].
  2: { symmetry. apply lowers_opt_is_word, lowered_head, Hlow. }
  rewrite H1.
  rewrite (word_boundary_kind (b !! (length (chars pat) - 1)%nat)
             (b' !! (length (chars pat) - 1)%nat)
             (b !! length (chars pat)) (b' !! length (chars pat))).
  - done.
  - symmetry. apply lowers_opt_is_word, lowered_lookup, Hlow.
  - symmetry. apply lowers_opt_is_word, lowered_lookup, Hlow.
Qed.

(** ** Rule 6: capitals between word boundaries *)

Fixpoint lowered_b (a b : list ascii) : bool :=
  match a, b with
  | [], [] => true
  | c :: a', c' :: b' =>
      (Ascii.eqb c' c || Ascii.eqb c' (lower_char c)) && lowered_b a' b'
  | _, _ => false
  end.

Lemma lowered_b_true a b : lowered_b a b = true -> lowered a b.
Proof.
  revert b. induction a as [|c a IH]; intros [|c' b]; cbn; try done.
  - constructor.
  - intros [Hc H]%andb_prop. constructor; [|by apply IH].
    apply orb_prop in Hc as [Hc | Hc]; apply Ascii.eqb_eq in Hc; [by left|by right].
Qed.

Section capitals_rule.

Variables pat repl : string.

Hypothesis pat_capitals : capitals (chars pat) = true.
Hypothesis pat_nonempty : chars pat <> [].
Hypothesis repl_lowered : lowered_b (chars pat) (chars repl) = true.
Hypothesis repl_clashes :
  forallb (clash Re.same_char (chars pat)) (suffixes (chars repl)) = true.

Lemma capitals_rule_lowering : lowering (Re.bounded_literal Re.same_char pat repl).
Proof.
  intros p s r n H.
  pose proof (bounded_literal_well_formed _ _ _ pat_nonempty _ _ _ _ H) as Hn.
  apply bounded_literal_Some in H as (H & -> & ->). split; [done|].
  apply bounded_at_starts, starts_with_same in H. rewrite H.
  by apply lowered_b_true.
Qed.

Lemma capitals_rule_clean s :
  clear (bounded_at Re.same_char pat)
    (Re.sub (Re.bounded_literal Re.same_char pat repl) s).
Proof.
  apply clear_sub_own_lowering.
  - apply capitals_rule_lowering.
  - by apply bounded_at_same_antitone.
  - intros p. unfold bounded_at. destruct (chars pat); [done|]. cbn.
    by rewrite andb_false_r.
  - intros p s'. apply bounded_literal_None.
  - intros p p' matched rest r out _ Hm _ _ r1 r2 Hr Hne.
    apply bounded_literal_Some in Hm as (_ & -> & _).
    apply bounded_at_clash.
    pose proof (in_suffixes _ _ _ Hr Hne) as Hin.
    rewrite forallb_forall in repl_clashes. by apply repl_clashes.
Qed.

Lemma capitals_rule_kept bad s :
  antitone bad -> clear bad s ->
  clear bad (Re.sub (Re.bounded_literal Re.same_char pat repl) s).
Proof. intros Ha. apply clear_sub_lowering; [done|apply capitals_rule_lowering]. Qed.

End capitals_rule.

(** ** Texts in which a literal cannot start *)

(** The literal [w] starts at no position of [x], whatever follows [x]. *)
Definition unstartable (cmp : ascii -> ascii -> bool) (w x : list ascii) : Prop :=
  forall r1 r2 out, x = r1 ++ r2 -> r2 <> [] ->
    Re.starts_with cmp w (r2 ++ out) = false.

Lemma unstartable_app cmp w x y :
  unstartable cmp w x -> unstartable cmp w y -> unstartable cmp w (x ++ y).
Proof.
  intros Hx Hy r1 r2 out Hsplit Hne.
  apply app_eq_app in Hsplit as [l [[-> ->] | [-> ->]]].
  - destruct l as [|c l].
    + rewrite app_nil_l in *. by apply (Hy [] y out).
    + rewrite <- app_assoc. by apply (Hx r1 (c :: l) (y ++ out)).
  - by apply (Hy l r2 out).
Qed.

Lemma unstartable_heads cmp a w x :
  Forall (fun c => cmp a c = false) x -> unstartable cmp (a :: w) x.
Proof.
  intros Hx r1 r2 out -> Hne. apply Forall_app in Hx as [_ Hx].
  destruct r2 as [|c r2]; [done|]. inversion Hx as [|? ? Hc _]; subst.
  cbn. by rewrite Hc.
Qed.

Lemma unstartable_literal cmp w x :
  forallb (clash cmp w) (suffixes x) = true -> unstartable cmp w x.
Proof.
  intros H r1 r2 out Hsplit Hne. apply clash_starts_with.
  rewrite forallb_forall in H. apply H. by eapply in_suffixes.
Qed.

Lemma ci_digit_clash a c :
  is_digit a = false -> is_digit c = true -> Re.same_char_ci a c = false.
Proof.
  intros Ha Hc. unfold Re.same_char_ci.
  destruct (Ascii.eqb_spec (lower_char a) (lower_char c)) as [E|]; [|done].
  apply (f_equal is_digit) in E. rewrite !is_digit_lower_char in E. congruence.
Qed.

Lemma unstartable_digits a w x :
  is_digit a = false -> Forall (fun c => is_digit c = true) x ->
  unstartable Re.same_char_ci (a :: w) x.
Proof.
  intros Ha Hx. apply unstartable_heads.
  eapply Forall_impl; [exact Hx|]. intros c Hc. by apply ci_digit_clash.
Qed.

(** ** A bounded literal after the substitution of another rule *)

Section bounded_after.

Variable m : Re.matcher.
Variable cmp : ascii -> ascii -> bool.
Variable pat : string.

Hypothesis wf : well_formed m.
Hypothesis kp : kind_preserving m.
Hypothesis excluded : head_excluded m cmp (chars pat).
Hypothesis pat_nonempty : chars pat <> [].
Hypothesis blocks : forall p matched rest repl,
  m p (matched ++ rest) = Some (repl, length matched) -> matched <> [] ->
  unstartable cmp (chars pat) repl.

Lemma bounded_transfer p p' c s out :
  same_kind p p' -> m p (c :: s) = None -> segments m (Some c) s out ->
  bounded_at cmp pat p' (c :: out) = true -> bounded_at cmp pat p (c :: s) = true.
Proof.
  intros [Hk _] Hm Hseg. unfold bounded_at.
  intros H. apply andb_prop in H as [H H3]. apply andb_prop in H as [H1 H2].
  assert (segments m p (c :: s) (c :: out)) as Hfull by by constructor.
  destruct (window m cmp _ excluded _ _ _ Hfull H2) as (Hs & Htake & Hrest).
  rewrite Hs, andb_true_r.
  rewrite (word_boundary_kind p p' (head (c :: s)) (head (c :: out))) by done.
  rewrite H1. cbn [andb].
  assert (1 <= length (chars pat))%nat as Hlen
    by (destruct (chars pat); [done|cbn; lia]).
  rewrite (lookup_of_take (c :: s) (c :: out) (length (chars pat))) by (done || lia).
  rewrite <- H3. apply word_boundary_kind; [done|].
  rewrite <- !head_drop_lookup. symmetry. by eapply segments_head_word.
Qed.

Lemma bounded_block p p' matched rest repl out :
  same_kind p p' ->
  m p (matched ++ rest) = Some (repl, length matched) -> matched <> [] ->
  segments m (prev_at p matched) rest out ->
  forall r1 r2, repl = r1 ++ r2 -> r2 <> [] ->
  bounded_at cmp pat (prev_at p' r1) (r2 ++ out) = false.
Proof.
  intros _ Hm Hne _ r1 r2 Hr Hr2. unfold bounded_at.
  rewrite (blocks _ _ _ _ Hm Hne r1 r2 out Hr Hr2). by rewrite andb_false_r.
Qed.

Lemma bounded_nil p : bounded_at cmp pat p [] = false.
Proof.
  unfold bounded_at. destruct (chars pat); [done|]. cbn. by rewrite andb_false_r.
Qed.

(** The rule [m] keeps the text clear of the bounded literal. *)
Theorem bounded_kept s :
  clear (bounded_at cmp pat) s -> clear (bounded_at cmp pat) (Re.sub m s).
Proof.
  apply clear_sub_kept;
    [exact wf | exact kp | exact bounded_transfer | exact bounded_block
    | exact bounded_nil].
Qed.

(** When [m] is the rule of the bounded literal itself, it clears it. *)
Theorem bounded_own s :
  (forall p s, m p s = None -> bounded_at cmp pat p s = false) ->
  clear (bounded_at cmp pat) (Re.sub m s).
Proof.
  intros Hown.
  apply clear_sub_own;
    [exact wf | exact kp | exact bounded_transfer | exact bounded_block
    | exact bounded_nil | exact Hown].
Qed.

End bounded_after.

(** ** Rule 1 *)

Definition bad1 : detector := bounded_at Re.same_char_ci "last dose".

Lemma same_char_ci_kind a c :
  Re.same_char_ci a c = true -> is_word c = is_word a /\ is_digit c = is_digit a.
Proof.
  unfold Re.same_char_ci. intros H%Ascii.eqb_eq. split.
  - by rewrite <- (is_word_lower_char c), <- H, is_word_lower_char.
  - by rewrite <- (is_digit_lower_char c), <- H, is_digit_lower_char.
Qed.

Lemma starts_with_lookup cmp w s i a :
  Re.starts_with cmp w s = true -> w !! i = Some a ->
  exists c, s !! i = Some c /\ cmp a c = true.
Proof.
  revert s i. induction w as [|x w IH]; intros [|c s] i; cbn; try done.
  intros [Hx H]%andb_prop. destruct i as [|i]; cbn.
  - intros [= <-]. eauto.
  - by apply IH.
Qed.

Lemma last_of_prefix (matched rest : list ascii) :
  matched <> [] ->
  last matched = (matched ++ rest) !! (length matched - 1)%nat.
Proof.
  intros Hne. rewrite last_lookup, lookup_app_l; [|destruct matched; [done|cbn; lia]].
  f_equal. lia.
Qed.

Lemma head_lookup0 (l : list ascii) : head l = l !! 0%nat.
Proof. by destruct l. Qed.

Lemma head_of_prefix (matched rest : list ascii) :
  matched <> [] -> head matched = head (matched ++ rest).
Proof. by destruct matched. Qed.

Lemma rule1_well_formed : well_formed rule1.
Proof. by apply bounded_literal_well_formed. Qed.

Lemma rule1_kind_preserving : kind_preserving rule1.
Proof.
  intros p matched rest repl Hm Hne.
  apply bounded_literal_Some in Hm as (Hm & -> & Hlen).
  apply bounded_at_starts in Hm.
  split; [done|]. split.
  - rewrite (head_of_prefix _ rest Hne).
    destruct (starts_with_lookup _ _ _ 0%nat "l"%char Hm eq_refl) as (c & Hl & Hc).
    rewrite (head_lookup0 (matched ++ rest)), Hl.
    apply same_char_ci_kind in Hc as [Hc _]. cbn. by rewrite Hc.
  - rewrite (last_of_prefix _ rest Hne), Hlen.
    destruct (starts_with_lookup _ _ _ 8%nat "e"%char Hm eq_refl) as (c & Hl & Hc).
    cbn [length chars] in *. cbn in Hl |- *. rewrite Hl.
    apply same_char_ci_kind in Hc as [Hw Hd]. split; cbn; by rewrite ?Hw, ?Hd.
Qed.

Lemma rule1_head_excluded : head_excluded rule1 Re.same_char_ci (chars "last dose").
Proof.
  intros p s repl n Hm. apply bounded_literal_Some in Hm as (_ & -> & _).
  eexists _, _. split; [reflexivity|]. repeat constructor.
Qed.

Lemma rule1_clean s : clear bad1 (Re.sub rule1 s).
Proof.
  apply (bounded_own rule1 Re.same_char_ci "last dose").
  - apply rule1_well_formed.
  - apply rule1_kind_preserving.
  - apply rule1_head_excluded.
  - done.
  - intros p matched rest repl Hm _.
    apply bounded_literal_Some in Hm as (_ & -> & _).
    by apply unstartable_literal.
  - intros p s'. apply bounded_literal_None.
Qed.

Lemma rule1_fix s : clear bad1 s -> Re.sub rule1 s = s.
Proof. by apply bounded_literal_fix. Qed.

(** ** Rule 5 *)

Lemma rule5_Some p s repl n :
  rule5 p s = Some (repl, n) ->
  exists ds rest,
    s = ds ++ rest /\ ds <> [] /\ Forall (fun c => is_digit c = true) ds
    /\ Re.starts_with Re.same_char_ci (chars "-years-old") rest = true
    /\ repl = ds ++ chars "-year-old" /\ n = (length ds + 10)%nat.
Proof.
  unfold rule5.
  destruct (span_app is_digit s) as (rest & Hs & _).
  destruct (negb _ && _)%bool eqn:E; [|done]. intros [= <- <-].
  apply andb_prop in E as [E1 E2].
  exists (Re.span is_digit s), rest. repeat split; try done.
  - intros E. by rewrite E in E1.
  - apply span_all.
  - rewrite Hs in E2 at 2. by rewrite drop_app_length in E2.
Qed.

Lemma rule5_match p matched rest0 repl :
  rule5 p (matched ++ rest0) = Some (repl, length matched) ->
  exists ds lit,
    matched = ds ++ lit /\ ds <> [] /\ Forall (fun c => is_digit c = true) ds
    /\ length lit = 10%nat
    /\ Re.starts_with Re.same_char_ci (chars "-years-old") lit = true
    /\ repl = ds ++ chars "-year-old".
Proof.
  intros H. apply rule5_Some in H as (ds & rest & Hs & Hne & Hds & Hlit & -> & Hn).
  pose proof (starts_with_length _ _ _ Hlit) as Hlen. cbn in Hlen.
  exists ds, (take 10 rest). repeat split; try done.
  - apply (f_equal (take (length matched))) in Hs.
    rewrite take_app_length, Hn, take_app_add in Hs. done.
  - rewrite length_take. lia.
  - rewrite <- (take_drop 10 rest) in Hlit.
    revert Hlit. generalize (drop 10 rest).
    assert (length (take 10 rest) = 10%nat) as H10 by (rewrite length_take; lia).
    revert H10. generalize (take 10 rest). intros l Hl l0.
    do 11 (destruct l as [|? l]; try done).
Qed.

Lemma rule5_well_formed : well_formed rule5.
Proof.
  intros p s repl n H. apply rule5_Some in H as (ds & rest & -> & Hne & _ & Hlit & _ & ->).
  apply starts_with_length in Hlit. cbn in Hlit. rewrite length_app.
  destruct ds; [done|]. cbn. lia.
Qed.

Lemma rule5_kind_preserving : kind_preserving rule5.
Proof.
  intros p matched rest repl Hm Hne.
  apply rule5_match in Hm as (ds & lit & -> & Hds & Hall & Hlen & Hlit & ->).
  split; [by destruct ds|]. split.
  - by destruct ds.
  - do 11 (destruct lit as [|? lit]; try done).
    rewrite !last_app. cbn in Hlit |- *.
    repeat (apply andb_prop in Hlit as [? Hlit]).
    match goal with H : Re.same_char_ci "d" ?c = true |- _ =>
      apply same_char_ci_kind in H as [Hw Hd] end.
    split; cbn; by rewrite ?Hw, ?Hd.
Qed.

Lemma rule5_head_excluded w :
  forallb (fun a => negb (is_digit a)) w = true ->
  head_excluded rule5 Re.same_char_ci w.
Proof.
  intros Hw p s repl n H.
  apply rule5_Some in H as (ds & rest & _ & Hne & Hds & _ & -> & _).
  destruct ds as [|d ds]; [done|]. inversion Hds as [|? ? Hd _]; subst.
  eexists _, _. split; [reflexivity|].
  rewrite forallb_forall in Hw. apply Forall_forall. intros a Ha.
  apply ci_digit_clash; [|done]. apply negb_true_iff, Hw. by apply list_elem_of_In.
Qed.

(** A literal that begins with no digit starts nowhere in a replacement of
    rule 5, if it starts nowhere in [-year-old]. *)
Lemma rule5_blocks a w p matched rest repl :
  is_digit a = false ->
  forallb (clash Re.same_char_ci (a :: w)) (suffixes (chars "-year-old")) = true ->
  rule5 p (matched ++ rest) = Some (repl, length matched) ->
  unstartable Re.same_char_ci (a :: w) repl.
Proof.
  intros Ha Hw Hm.
  apply rule5_match in Hm as (ds & lit & _ & _ & Hds & _ & _ & ->).
  apply unstartable_app; [by apply unstartable_digits|by apply unstartable_literal].
Qed.

Lemma rule5_keeps_bad1 s : clear bad1 s -> clear bad1 (Re.sub rule5 s).
Proof.
  apply (bounded_kept rule5 Re.same_char_ci "last dose").
  - apply rule5_well_formed.
  - apply rule5_kind_preserving.
  - by apply rule5_head_excluded.
  - done.
  - intros p matched rest repl Hm _. by eapply rule5_blocks.
Qed.

(** ** Rule 2 *)

Lemma is_digit_digit_char n : is_digit (Datetime.digit_char n) = true.
Proof.
  unfold Datetime.digit_char.
  pose proof (Nat.mod_upper_bound n 10 ltac:(lia)) as H.
  remember (n mod 10)%nat as k eqn:Hk. clear Hk.
  do 10 (destruct k as [|k]; [by vm_compute|]). lia.
Qed.

Lemma string_of_uint_digits u :
  Forall (fun c => is_digit c = true) (chars (NilEmpty.string_of_uint u)).
Proof. induction u; cbn; by constructor. Qed.

Lemma year_digits_digits n :
  Forall (fun c => is_digit c = true) (Datetime.year_digits n).
Proof. apply string_of_uint_digits. Qed.

Lemma year_digits_nonempty n : Datetime.year_digits n <> [].
Proof.
  unfold Datetime.year_digits.
  assert (Nat.to_uint n <> Decimal.Nil) as H.
  { rewrite <- (DecimalNat.Unsigned.of_to n) at 1. rewrite DecimalNat.Unsigned.to_of.
    apply DecimalFacts.unorm_nonnil. }
  by destruct (Nat.to_uint n).
Qed.

Lemma finish_valid l d : Datetime.finish l = Some d -> Datetime.valid_date d = true.
Proof.
  unfold Datetime.finish. destruct l as [|[d' [|]] l]; try done.
  destruct (Datetime.valid_date d') eqn:E; [|done]. by intros [= <-].
Qed.

Lemma strptime_Ymd_valid s d :
  Datetime.strptime_Ymd s = Some d -> Datetime.valid_date d = true.
Proof. apply finish_valid. Qed.

Lemma valid_date_month d :
  Datetime.valid_date d = true ->
  In (nth (Datetime.month d - 1) Datetime.month_abbr ""%string) Datetime.month_abbr.
Proof.
  unfold Datetime.valid_date. intros H.
  repeat (apply andb_prop in H as [H ?]).
  apply nth_In. cbn [length Datetime.month_abbr].
  apply Nat.leb_le in H1, H2. lia.
Qed.

Lemma strftime_dbY_date_text d :
  Datetime.valid_date d = true -> date_text (Datetime.strftime_dbY d).
Proof.
  intros Hv. unfold Datetime.strftime_dbY, Datetime.pad2.
  replace (_ ++ _) with
    ([Datetime.digit_char (Datetime.day d / 10); Datetime.digit_char (Datetime.day d)]
     ++ ("-"%char :: chars (nth (Datetime.month d - 1) Datetime.month_abbr ""%string)
           ++ ["-"%char]) ++ Datetime.year_digits (Datetime.year d)).
  - constructor; auto using is_digit_digit_char, valid_date_month,
      year_digits_nonempty, year_digits_digits.
  - cbn. by rewrite <- app_assoc.
Qed.

Lemma iso_shape_inv s :
  iso_shape s = true ->
  exists tok rest, s = tok ++ rest /\ length tok = 10%nat
    /\ Forall (fun c => is_digit c = true \/ c = "-"%char) tok
    /\ (exists c t, tok = c :: t /\ is_digit c = true)
    /\ (exists t c, tok = t ++ [c] /\ is_digit c = true).
Proof.
  unfold iso_shape.
  do 10 (destruct s as [|? s]; [done|]).
  intros H. do 9 (apply andb_prop in H as [H ?]).
  repeat match goal with H : Ascii.eqb _ _ = true |- _ => apply Ascii.eqb_eq in H; subst end.
  eexists [_; _; _; _; _; _; _; _; _; _], s. split; [reflexivity|]. split; [done|].
  split.
  { repeat (apply List.Forall_cons; [first [by left | by right]|]).
    apply List.Forall_nil. }
  split.
  - eauto.
  - eexists [_; _; _; _; _; _; _; _; _], _. split; [reflexivity|done].
Qed.

Lemma rule2_Some p s repl n :
  rule2 p s = Some (repl, n) ->
  n = 10%nat /\ iso_shape s = true /\ repl = _date_repl (take 10 s).
Proof.
  unfold rule2. destruct (_ && _ && _)%bool eqn:E; [|done]. intros [= <- <-].
  apply andb_prop in E as [E _]. by apply andb_prop in E as [_ E].
Qed.

Lemma rule2_match p matched rest repl :
  rule2 p (matched ++ rest) = Some (repl, length matched) ->
  length matched = 10%nat
  /\ Forall (fun c => is_digit c = true \/ c = "-"%char) matched
  /\ (exists c t, matched = c :: t /\ is_digit c = true)
  /\ (exists t c, matched = t ++ [c] /\ is_digit c = true)
  /\ (repl = matched \/ date_text repl).
Proof.
  intros H. apply rule2_Some in H as (Hn & Hshape & ->).
  apply iso_shape_inv in Hshape as (tok & rest' & Hs & Hlen & Hall & Hh & Hl).
  assert (matched = tok) as ->.
  { apply (f_equal (take 10)) in Hs.
    by rewrite <- Hn, take_app_length, Hn, <- Hlen, take_app_length in Hs. }
  rewrite <- Hlen, take_app_length. repeat split; try done.
  unfold _date_repl. destruct (Datetime.strptime_Ymd tok) as [d|] eqn:E; [|by left].
  right. apply strftime_dbY_date_text. by eapply strptime_Ymd_valid.
Qed.

Lemma rule2_well_formed : well_formed rule2.
Proof.
  intros p s repl n H. apply rule2_Some in H as (-> & H & _).
  apply iso_shape_inv in H as (tok & rest & -> & Hlen & _).
  rewrite length_app. lia.
Qed.

Lemma last_digits ys :
  ys <> [] -> Forall (fun c => is_digit c = true) ys ->
  exists c, last ys = Some c /\ is_digit c = true.
Proof.
  intros Hne Hall. destruct (last ys) as [c|] eqn:E.
  - exists c. split; [done|]. apply last_Some in E as [l ->].
    apply Forall_app in Hall as [_ H]. by inversion H.
  - by apply last_None in E.
Qed.

Lemma rule2_kind_preserving : kind_preserving rule2.
Proof.
  intros p matched rest repl Hm Hne.
  apply rule2_match in Hm as (_ & _ & (c & t & -> & Hc) & (t' & c' & Ht' & Hc') & Hrepl).
  assert (last (c :: t) = Some c') as Hlast by (rewrite Ht'; apply last_snoc).
  destruct Hrepl as [-> | Hd].
  - split; [done|]. split; [done|]. by rewrite Hlast.
  - destruct Hd as [d1 d2 mon ys Hd1 Hd2 Hmon Hys Hall].
    split; [done|]. split.
    + cbn. by rewrite (is_digit_word _ Hd1), (is_digit_word _ Hc).
    + rewrite Hlast, !last_app.
      destruct (last_digits _ Hys Hall) as (y & -> & Hy).
      split; cbn; by rewrite ?(is_digit_word _ Hy), ?(is_digit_word _ Hc'), ?Hy, ?Hc'.
Qed.

Lemma rule2_head_excluded w :
  forallb (fun a => negb (is_digit a)) w = true ->
  head_excluded rule2 Re.same_char_ci w.
Proof.
  intros Hw p s repl n H.
  assert (exists matched rest, s = matched ++ rest /\ n = length matched)
    as (matched & rest & -> & ->).
  { pose proof (rule2_well_formed _ _ _ _ H) as Hn.
    exists (take n s), (drop n s). rewrite take_drop, length_take. split; [done|lia]. }
  apply rule2_match in H as (_ & _ & (c & t & -> & Hc) & _ & Hrepl).
  assert (exists r0 r, repl = r0 :: r /\ is_digit r0 = true) as (r0 & r & -> & Hr0).
  { destruct Hrepl as [-> | Hd]; [eauto|]. destruct Hd. cbn. eauto. }
  exists r0, r. split; [done|].
  rewrite forallb_forall in Hw. apply Forall_forall. intros a Ha.
  apply ci_digit_clash; [|done]. apply negb_true_iff, Hw. by apply list_elem_of_In.
Qed.

Lemma rule2_blocks_last_dose p matched rest repl :
  rule2 p (matched ++ rest) = Some (repl, length matched) ->
  unstartable Re.same_char_ci (chars "last dose") repl.
Proof.
  intros Hm. apply rule2_match in Hm as (_ & Hall & _ & _ & Hrepl).
  destruct Hrepl as [-> | Hd].
  - apply unstartable_heads. eapply Forall_impl; [exact Hall|].
    intros c [Hc | ->]; [|done]. by apply ci_digit_clash.
  - destruct Hd as [d1 d2 mon ys Hd1 Hd2 Hmon Hys Hys'].
    apply unstartable_app; [|apply unstartable_app].
    + apply unstartable_digits; [done|]. by repeat constructor.
    + apply unstartable_literal. cbn in Hmon.
      repeat (destruct Hmon as [<- | Hmon]; [by vm_compute|]). done.
    + by apply unstartable_digits.
Qed.

Lemma rule2_keeps_bad1 s : clear bad1 s -> clear bad1 (Re.sub rule2 s).
Proof.
  apply (bounded_kept rule2 Re.same_char_ci "last dose").
  - apply rule2_well_formed.
  - apply rule2_kind_preserving.
  - by apply rule2_head_excluded.
  - done.
  - intros p matched rest repl Hm _. by eapply rule2_blocks_last_dose.
Qed.

(** ** Rules 3 and 4: the clause after a trigger phrase *)

Definition not_dot (c : ascii) : bool := negb (Ascii.eqb c ".").

Definition has_upper (s : list ascii) : bool := existsb is_upper s.

Lemma has_upper_cons c s : has_upper (c :: s) = (is_upper c || has_upper s)%bool.
Proof. reflexivity. Qed.

Lemma lower_text_cons c s : lower_text (c :: s) = lower_char c :: lower_text s.
Proof. reflexivity. Qed.

Lemma length_lower_text s : length (lower_text s) = length s.
Proof. apply length_map. Qed.

Global Arguments has_upper : simpl never.
Global Arguments lower_text : simpl never.

Lemma has_upper_app x y : has_upper (x ++ y) = (has_upper x || has_upper y)%bool.
Proof. apply existsb_app. Qed.

Lemma lower_text_no_upper s : has_upper s = false -> lower_text s = s.
Proof.
  induction s as [|c s IH]; [done|]. rewrite has_upper_cons, lower_text_cons.
  intros [Hc Hs]%orb_false_elim. by rewrite (lower_char_not_upper _ Hc), (IH Hs).
Qed.

Lemma has_upper_lower_text s : has_upper (lower_text s) = false.
Proof.
  induction s as [|c s IH]; [done|].
  by rewrite lower_text_cons, has_upper_cons, is_upper_lower_char, IH.
Qed.

Lemma has_upper_drop k s : has_upper s = false -> has_upper (drop k s) = false.
Proof.
  intros H. rewrite <- (take_drop k s), has_upper_app in H.
  by apply orb_false_elim in H as [_ H].
Qed.

Lemma has_upper_lowered s s' : lowered s s' -> has_upper s' = true -> has_upper s = true.
Proof.
  induction 1 as [|c c' s s' Hc Hs IH]; [done|]. rewrite !has_upper_cons.
  intros [H | H]%orb_prop.
  - by rewrite <- (lowers_is_upper _ _ Hc H), H.
  - by rewrite (IH H), orb_true_r.
Qed.

Lemma not_dot_lower_text s :
  Forall (fun c => not_dot c = true) s -> Forall (fun c => not_dot c = true) (lower_text s).
Proof.
  induction 1 as [|c s Hc Hs IH]; [constructor|].
  rewrite lower_text_cons. constructor; [|done].
  unfold not_dot in *. by rewrite lower_char_dot.
Qed.

Lemma span_app_all ok x y :
  Forall (fun c => ok c = true) x -> Re.span ok (x ++ y) = x ++ Re.span ok y.
Proof. induction 1 as [|c x Hc Hx IH]; cbn; [done|]. by rewrite Hc, IH. Qed.

(** A text that ends, or goes on with a full stop. *)
Definition stops (out : list ascii) : Prop :=
  out = [] \/ exists c r, out = c :: r /\ not_dot c = false.

Lemma starts_with_short cmp w x out :
  (length x < length w)%nat -> stops out ->
  Forall (fun a => forall c, not_dot c = false -> cmp a c = false) w ->
  Re.starts_with cmp w (x ++ out) = false.
Proof.
  intros Hlen Hout Hw. revert x Hlen.
  induction Hw as [|a w Ha Hw IH]; intros x Hlen; [cbn in Hlen; lia|].
  destruct x as [|c x]; cbn.
  - destruct Hout as [-> | (c & r & -> & Hc)]; [done|]. by rewrite (Ha c Hc).
  - rewrite IH; [by rewrite andb_false_r|]. cbn in Hlen. lia.
Qed.

Section clause_rule.

Variable trig : string.

Let t := length (chars trig).

Hypothesis trig_nonempty : chars trig <> [].
Hypothesis trig_no_dot :
  forallb (fun a => negb (Re.same_char_ci a ".")) (chars trig) = true.

Definition bad_clause : detector := fun _ s =>
  (Re.starts_with Re.same_char_ci (chars trig) s
   && has_upper (Re.span not_dot (drop (length (chars trig)) s)))%bool.

Lemma trig_dot_clash :
  Forall (fun a => forall c, not_dot c = false -> Re.same_char_ci a c = false) (chars trig).
Proof.
  rewrite forallb_forall in trig_no_dot. apply Forall_forall. intros a Ha c Hc.
  unfold not_dot in Hc. apply negb_false_iff, Ascii.eqb_eq in Hc as ->.
  apply negb_true_iff, trig_no_dot. by apply list_elem_of_In.
Qed.

Lemma starts_with_ci_not_dot w s :
  Forall (fun a => forall c, not_dot c = false -> Re.same_char_ci a c = false) w ->
  Re.starts_with Re.same_char_ci w s = true ->
  Forall (fun c => not_dot c = true) (take (length w) s).
Proof.
  intros Hw. revert s. induction Hw as [|a w Ha Hw IH]; intros s; [constructor|].
  destruct s as [|c s]; cbn; [done|]. intros [Hc H]%andb_prop.
  constructor; [|by apply IH].
  destruct (not_dot c) eqn:E; [done|]. by rewrite (Ha c E) in Hc.
Qed.

Lemma clause_rule_Some p s repl n :
  Re.lowercase_clause trig p s = Some (repl, n) ->
  exists trg clause rest,
    s = trg ++ clause ++ rest /\ length trg = t
    /\ Re.starts_with Re.same_char_ci (chars trig) s = true
    /\ Forall (fun c => not_dot c = true) trg
    /\ clause <> [] /\ Forall (fun c => not_dot c = true) clause
    /\ Re.span not_dot (drop t s) = clause
    /\ stops rest
    /\ repl = trg ++ lower_text clause /\ n = (t + length clause)%nat.
Proof.
  unfold Re.lowercase_clause. fold t. fold not_dot.
  destruct (_ && _)%bool eqn:E; [|done]. intros [= <- <-].
  apply andb_prop in E as [E1 E2].
  pose proof (starts_with_length _ _ _ E1) as Hlen. fold t in Hlen.
  destruct (span_app not_dot (drop t s)) as (rest & Hs & Hrest).
  exists (take t s), (Re.span not_dot (drop t s)), rest.
  repeat split; try done.
  - by rewrite <- Hs, take_drop.
  - rewrite length_take. lia.
  - by apply (starts_with_ci_not_dot _ _ trig_dot_clash).
  - intros E. rewrite E in E2. done.
  - apply span_all.
Qed.

Lemma clause_rule_match p matched rest0 repl :
  Re.lowercase_clause trig p (matched ++ rest0) = Some (repl, length matched) ->
  exists trg clause,
    matched = trg ++ clause /\ length trg = t
    /\ Forall (fun c => not_dot c = true) trg
    /\ clause <> [] /\ Forall (fun c => not_dot c = true) clause
    /\ stops rest0
    /\ repl = trg ++ lower_text clause.
Proof.
  intros H.
  apply clause_rule_Some in H
    as (trg & clause & rest & Hs & Hlen & _ & Htrg & Hne & Hcl & _ & Hrest & -> & Hn).
  assert (matched = trg ++ clause) as ->.
  { apply (f_equal (take (length matched))) in Hs.
    rewrite take_app_length, app_assoc, Hn, <- Hlen, <- length_app in Hs.
    by rewrite take_app_length in Hs. }
  rewrite <- app_assoc in Hs. apply app_inv_head in Hs. apply app_inv_head in Hs.
  subst rest0. by exists trg, clause.
Qed.

Lemma clause_rule_lowering : lowering (Re.lowercase_clause trig).
Proof.
  intros p s repl n H.
  apply clause_rule_Some in H
    as (trg & clause & rest & -> & Hlen & _ & _ & Hne & _ & _ & _ & -> & ->).
  split.
  - rewrite !length_app. fold t. destruct clause; [done|]. cbn. lia.
  - rewrite app_assoc, <- Hlen, <- length_app, take_app_length.
    apply Forall2_app; [apply lowered_refl|apply lowered_lower_text].
Qed.

Lemma bad_clause_antitone : antitone bad_clause.
Proof.
  intros p p' b b' _ Hlow. unfold bad_clause.
  rewrite (starts_with_ci_lowered _ _ _ Hlow).
  intros [-> H]%andb_prop. cbn.
  eapply has_upper_lowered; [|exact H].
  apply span_lowered; [|by apply Forall2_drop].
  intros c c' Hc. unfold not_dot. by rewrite (lowers_dot _ _ Hc).
Qed.

Lemma bad_clause_nil p : bad_clause p [] = false.
Proof. unfold bad_clause. by destruct (chars trig). Qed.

Lemma clause_rule_own p s :
  Re.lowercase_clause trig p s = None -> bad_clause p s = false.
Proof.
  unfold Re.lowercase_clause, bad_clause. fold not_dot.
  destruct (Re.starts_with _ _ _); [|done]. cbn.
  destruct (Re.span not_dot _); [done|]. done.
Qed.

(** After a match the scan stands at a full stop or at the end, and so does
    the output. *)
Lemma segments_stops p rest out :
  segments (Re.lowercase_clause trig) p rest out -> stops rest -> stops out.
Proof.
  intros Hseg Hstop.
  destruct Hseg as [|p c s out Hm Hseg|p matched rest repl out Hm Hne Hseg].
  - by left.
  - destruct Hstop as [|(c' & r & [= <- <-] & Hc)]; [done|]. right. eauto.
  - exfalso.
    apply clause_rule_Some in Hm as (_ & _ & _ & _ & _ & Hs & _).
    destruct Hstop as [E | (c & r & E & Hc)].
    + apply app_eq_nil in E as [-> _]. done.
    + rewrite E in Hs. pose proof trig_dot_clash as Hall.
      pose proof trig_nonempty as Hne'.
      destruct Hall as [|a w Ha _]; [done|].
      cbn in Hs. apply andb_prop in Hs as [Hs _]. by rewrite (Ha c Hc) in Hs.
Qed.

Lemma clause_rule_block p p' matched rest repl out :
  same_kind p p' ->
  Re.lowercase_clause trig p (matched ++ rest) = Some (repl, length matched) ->
  matched <> [] ->
  segments (Re.lowercase_clause trig) (prev_at p matched) rest out ->
  forall r1 r2, repl = r1 ++ r2 -> r2 <> [] ->
  bad_clause (prev_at p' r1) (r2 ++ out) = false.
Proof.
  intros _ Hm _ Hseg r1 r2 Hr Hr2.
  apply clause_rule_match in Hm as (trg & clause & -> & Hlen & Htrg & Hne & Hcl & Hrest & ->).
  pose proof (segments_stops _ _ _ Hseg Hrest) as Hout.
  unfold bad_clause. fold t.
  destruct (Re.starts_with _ _ (r2 ++ out)) eqn:Hs; [|done]. cbn.
  assert (Forall (fun c => not_dot c = true) (lower_text clause)) as HL
    by by apply not_dot_lower_text.
  assert (r2 = drop (length r1) (trg ++ lower_text clause)) as Hr2'
    by by rewrite Hr, drop_app_length.
  destruct (decide (length r1 <= length clause)%nat) as [Hk | Hk].
  - assert (drop t (r2 ++ out) = drop (length r1) (lower_text clause) ++ out) as ->.
    { rewrite Hr2'. rewrite <- drop_app_le by (rewrite length_app, length_lower_text; lia).
      rewrite drop_drop, <- app_assoc, <- Hlen, Nat.add_comm.
      rewrite <- drop_drop, drop_app_length.
      rewrite drop_app_le by (rewrite length_lower_text; lia). done. }
    rewrite span_app_stop; [|by apply Forall_drop|done].
    apply has_upper_drop, has_upper_lower_text.
  - exfalso. rewrite (starts_with_short _ _ r2 out) in Hs; [done| |done|apply trig_dot_clash].
    apply (f_equal length) in Hr. rewrite !length_app, length_lower_text in Hr.
    fold t. lia.
Qed.

(** Rule 3 or 4 clears its own detector. *)
Theorem clause_rule_clean s : clear bad_clause (Re.sub (Re.lowercase_clause trig) s).
Proof.
  apply clear_sub_own_lowering.
  - apply clause_rule_lowering.
  - apply bad_clause_antitone.
  - apply bad_clause_nil.
  - apply clause_rule_own.
  - apply clause_rule_block.
Qed.

(** On a text clear of its detector, rule 3 or 4 changes nothing. *)
Theorem clause_rule_fix s :
  clear bad_clause s -> Re.sub (Re.lowercase_clause trig) s = s.
Proof.
  intros Hclear. unfold Re.sub.
  eapply segments_unchanged;
    [apply sub_from_segments, lowering_well_formed, clause_rule_lowering|].
  intros a b r n -> H. specialize (Hclear a b eq_refl).
  apply clause_rule_Some in H
    as (trg & clause & rest & -> & Hlen & Hs & _ & Hne & _ & Hspan & _ & -> & ->).
  unfold bad_clause in Hclear. fold t in Hclear. rewrite Hs, Hspan in Hclear.
  cbn in Hclear. rewrite (lower_text_no_upper _ Hclear).
  by rewrite app_assoc, <- Hlen, <- length_app, take_app_length.
Qed.

(** Rule 5 keeps the text clear of the detector of rule 3 or 4. *)
Hypothesis trig_no_digit :
  forallb (fun a => negb (is_digit a)) (chars trig) = true.
Hypothesis trig_year_old :
  forallb (clash Re.same_char_ci (chars trig)) (suffixes (chars "-year-old")) = true.

Lemma rule5_has_upper p s out :
  segments rule5 p s out ->
  has_upper (Re.span not_dot out) = true -> has_upper (Re.span not_dot s) = true.
Proof.
  induction 1 as [|p c s out Hm Hseg IH|p matched rest repl out Hm Hne Hseg IH];
    [done|..].
  - cbn [Re.span]. destruct (not_dot c); [|done]. rewrite !has_upper_cons.
    intros [-> | H]%orb_prop; [done|]. by rewrite (IH H), orb_true_r.
  - apply rule5_match in Hm as (ds & lit & -> & _ & Hds & Hlen & Hlit & ->).
    assert (Forall (fun c => not_dot c = true) ds) as Hds_dot.
    { eapply Forall_impl; [exact Hds|]. intros c Hc. by each_char c. }
    assert (has_upper ds = false) as Hds_up.
    { clear -Hds. induction Hds as [|c ds Hc _ IH]; [done|].
      rewrite has_upper_cons, IH. revert Hc. by each_char c. }
    assert (Forall (fun c => not_dot c = true) lit) as Hlit_dot.
    { do 11 (destruct lit as [|? lit]; try done). cbn in Hlit.
      repeat (apply andb_prop in Hlit as [? Hlit]).
      repeat (constructor; [match goal with
        | H : Re.same_char_ci _ ?c = true |- not_dot ?c = true =>
            revert H; clear; by each_char c end|]).
      constructor. }
    rewrite !span_app_all;
      [|by apply Forall_app
       |by apply Forall_app; split; [|by vm_compute; repeat constructor]].
    rewrite !has_upper_app, Hds_up. cbn [orb].
    change (has_upper (chars "-year-old")) with false. cbn [orb].
    intros H. by rewrite (IH H), !orb_true_r.
Qed.

Theorem rule5_keeps_clause s :
  clear bad_clause s -> clear bad_clause (Re.sub rule5 s).
Proof.
  apply clear_sub_kept.
  - apply rule5_well_formed.
  - apply rule5_kind_preserving.
  - intros p p' c s' out _ Hm Hseg. unfold bad_clause.
    intros [Hs Hup]%andb_prop.
    assert (segments rule5 p (c :: s') (c :: out)) as Hfull by by constructor.
    destruct (window rule5 Re.same_char_ci _ (rule5_head_excluded _ trig_no_digit)
                _ _ _ Hfull Hs) as (Hs' & _ & Hrest).
    rewrite Hs'. cbn [andb]. by eapply rule5_has_upper.
  - intros p p' matched rest repl out _ Hm Hne _ r1 r2 Hr Hr2. unfold bad_clause.
    pose proof trig_no_digit as Hnd. pose proof trig_year_old as Hyo.
    pose proof trig_nonempty as Hne'.
    destruct (chars trig) as [|a w]; [done|].
    cbn in Hnd. apply andb_prop in Hnd as [Ha _].
    apply negb_true_iff in Ha.
    rewrite (rule5_blocks a w _ _ _ _ Ha Hyo Hm r1 r2 out Hr Hr2). done.
  - apply bad_clause_nil.
Qed.

End clause_rule.

(** ** Rule 5 clears itself *)

Definition years_old : list ascii := chars "-years-old".

(** Rule 5 has something to rewrite where [-years-old] follows a digit. *)
Definition bad5 : detector := fun p s =>
  (is_digit_opt p && Re.starts_with Re.same_char_ci years_old s)%bool.

Lemma bad5_antitone : antitone bad5.
Proof.
  intros p p' b b' [_ Hd] Hlow. unfold bad5.
  by rewrite Hd, (starts_with_ci_lowered _ _ _ Hlow).
Qed.

Lemma years_old_no_digit s :
  Re.starts_with Re.same_char_ci years_old s = true -> Re.span is_digit s = [].
Proof.
  destruct s as [|c s]; [done|]. cbn. intros [Hc _]%andb_prop.
  apply same_char_ci_kind in Hc as [_ Hc]. by rewrite Hc.
Qed.

Lemma rule5_after_digit p c s :
  is_digit c = true -> rule5 p (c :: s) = None ->
  Re.starts_with Re.same_char_ci years_old s = false.
Proof.
  intros Hc Hm.
  destruct (Re.starts_with Re.same_char_ci years_old s) eqn:Hs; [|done].
  unfold rule5 in Hm. cbn [Re.span] in Hm.
  rewrite Hc, (years_old_no_digit _ Hs) in Hm.
  change (drop (length [c]) (c :: s)) with s in Hm.
  change (chars "-years-old") with years_old in Hm. by rewrite Hs in Hm.
Qed.

Lemma rule5_clean s : clear bad5 (Re.sub rule5 s).
Proof.
  unfold clear, Re.sub.
  refine (clear_after_segments rule5 bad5
            (fun p p' s => same_kind p p'
               /\ (is_digit_opt p = true ->
                   Re.starts_with Re.same_char_ci years_old s = false))
            _ _ _ _ _ _ None s _
            (sub_from_segments rule5 rule5_well_formed s None) None _).
  - intros p p' c s' [_ _] Hm. split; [done|]. intros Hc. by eapply rule5_after_digit.
  - intros p p' matched rest repl [_ _] Hm Hne.
    pose proof (prev_at_kind_preserved rule5 p p' _ _ _ rule5_kind_preserving Hm Hne)
      as Hk.
    split; [done|]. intros Hd. exfalso.
    destruct Hk as [_ Hk]. rewrite Hd in Hk.
    apply rule5_match in Hm as (ds & lit & _ & _ & _ & _ & _ & ->).
    unfold prev_at in Hk. rewrite last_app in Hk. cbn in Hk. done.
  - intros p p' c s' [_ Hi] _. unfold bad5.
    destruct (is_digit_opt p); [|done]. by rewrite Hi.
  - intros p p' c s' out [[_ Hd] _] Hm Hseg. unfold bad5.
    intros [Hp Hs]%andb_prop. rewrite Hd, Hp. cbn [andb].
    assert (segments rule5 p (c :: s') (c :: out)) as Hfull by by constructor.
    by destruct (window rule5 Re.same_char_ci _
                   (rule5_head_excluded years_old eq_refl) _ _ _ Hfull Hs).
  - intros p p' matched rest repl out _ Hm Hne _ r1 r2 Hr Hr2. unfold bad5.
    change years_old with ("-"%char :: chars "years-old").
    rewrite (rule5_blocks "-" (chars "years-old") _ _ _ _ eq_refl eq_refl Hm
               r1 r2 out Hr Hr2).
    by rewrite andb_false_r.
  - intros p. unfold bad5. by rewrite andb_false_r.
  - done.
Qed.

Lemma rule5_fix s : clear bad5 s -> Re.sub rule5 s = s.
Proof.
  intros Hclear. unfold Re.sub.
  eapply segments_unchanged; [apply sub_from_segments, rule5_well_formed|].
  intros a b r n -> H. exfalso.
  apply rule5_Some in H as (ds & rest & -> & Hne & Hds & Hlit & _ & _).
  specialize (Hclear (a ++ ds) rest). rewrite <- app_assoc in Hclear.
  specialize (Hclear eq_refl). unfold bad5 in Hclear.
  fold years_old in Hlit. rewrite Hlit, andb_true_r, prev_at_app in Hclear.
  destruct (last_digits _ Hne Hds) as (c & Hc & Hd).
  unfold prev_at in Hclear at 1. rewrite Hc in Hclear. cbn in Hclear. congruence.
Qed.

(** ** Rule 7 *)

Definition sae_of : list ascii := chars "SAE of ".

Definition bad7 : detector := fun _ s =>
  (Re.starts_with Re.same_char sae_of s
   && match s !! 7%nat with Some c => is_upper c | None => false end)%bool.

Lemma rule7_Some p s repl n :
  rule7 p s = Some (repl, n) ->
  exists c, Re.starts_with Re.same_char sae_of s = true
    /\ s !! 7%nat = Some c /\ is_upper c = true
    /\ repl = sae_of ++ [lower_char c] /\ n = 8%nat.
Proof.
  unfold rule7. fold sae_of.
  destruct (Re.starts_with _ _ _); [|done].
  destruct (s !! 7%nat) as [c|]; [|done].
  destruct (is_upper c) eqn:Hc; [|done]. intros [= <- <-]. by exists c.
Qed.

Lemma rule7_None p s : rule7 p s = None -> bad7 p s = false.
Proof.
  unfold rule7, bad7. fold sae_of.
  destruct (Re.starts_with _ _ _); [|done].
  destruct (s !! 7%nat) as [c|]; [|done]. by destruct (is_upper c).
Qed.

Lemma rule7_lowering : lowering rule7.
Proof.
  intros p s repl n H. apply rule7_Some in H as (c & Hs & Hc & Hup & -> & ->).
  pose proof (lookup_lt_Some _ _ _ Hc) as Hlen. split; [lia|].
  rewrite (take_S_r _ _ _ Hc). apply starts_with_same in Hs. cbn [length sae_of chars] in Hs.
  change (length (list_ascii_of_string "SAE of ")) with 7%nat in Hs. rewrite Hs.
  apply Forall2_app; [apply lowered_refl|]. constructor; [by right|constructor].
Qed.

Lemma rule7_head_excluded :
  head_excluded rule7 Re.same_char (chars "AE of ").
Proof.
  intros p s repl n H. apply rule7_Some in H as (c & _ & _ & _ & -> & _).
  eexists _, _. split; [reflexivity|]. repeat constructor.
Qed.

Lemma rule7_clean s : clear bad7 (Re.sub rule7 s).
Proof.
  apply clear_sub_own.
  - apply lowering_well_formed, rule7_lowering.
  - apply lowering_kind_preserving, rule7_lowering.
  - intros p p' c s' out _ Hm Hseg. unfold bad7.
    intros [Hs Hup]%andb_prop.
    change sae_of with ("S"%char :: chars "AE of ") in *.
    cbn [Re.starts_with] in Hs |- *. apply andb_prop in Hs as [-> Hs]. cbn [andb].
    destruct (window rule7 Re.same_char _ rule7_head_excluded _ _ _ Hseg Hs)
      as (-> & _ & Hrest).
    change ((c :: out) !! 7%nat) with (out !! 6%nat) in Hup.
    change ((c :: s') !! 7%nat) with (s' !! 6%nat).
    change (length (chars "AE of ")) with 6%nat in Hrest.
    rewrite <- (head_drop_lookup out 6) in Hup.
    rewrite <- (head_drop_lookup s' 6).
    destruct Hrest as [|p0 c0 s0 out0 Hm0 Hseg0|p0 matched rest repl out0 Hm0 Hne0 Hseg0];
      [done..|].
    apply rule7_Some in Hm0 as (x & Hs0 & _ & _ & -> & _).
    destruct (matched ++ rest) as [|y l]; [done|].
    change sae_of with ("S"%char :: chars "AE of ") in Hs0.
    cbn [Re.starts_with] in Hs0. apply andb_prop in Hs0 as [Hy _].
    apply Ascii.eqb_eq in Hy as <-. done.
  - intros p p' matched rest repl out _ Hm Hne _ r1 r2 Hr Hr2. unfold bad7.
    apply rule7_Some in Hm as (x & _ & _ & Hx & -> & _).
    destruct r1 as [|c1 r1].
    + cbn in Hr. subst r2. cbn. by rewrite is_upper_lower_char.
    + injection Hr as <- Hr.
      assert (unstartable Re.same_char sae_of (chars "AE of " ++ [lower_char x])) as Hun.
      { apply unstartable_heads. repeat (constructor; [done|]).
        constructor; [|constructor]. revert Hx. clear. by each_char x. }
      by rewrite (Hun r1 r2 out Hr Hr2).
  - done.
  - apply rule7_None.
Qed.

Lemma rule7_fix s : clear bad7 s -> Re.sub rule7 s = s.
Proof.
  intros Hclear. unfold Re.sub.
  eapply segments_unchanged;
    [apply sub_from_segments, lowering_well_formed, rule7_lowering|].
  intros a b r n -> H. exfalso. specialize (Hclear a b eq_refl).
  apply rule7_Some in H as (c & Hs & Hc & Hup & _ & _).
  unfold bad7 in Hclear. rewrite Hs, Hc, Hup in Hclear. done.
Qed.

(** ** Rule 6 *)

Definition bad6 (pat : string) : detector := bounded_at Re.same_char pat.

Definition race_terms : list (string * string) :=
  [("WHITE", "White");
   ("BLACK OR AFRICAN AMERICAN", "Black or African American");
   ("ASIAN", "Asian");
   ("NOT HISPANIC OR LATINO", "Not Hispanic or Latino");
   ("HISPANIC OR LATINO", "Hispanic or Latino")]%string.

(** What the lemmas on capitals ask of a pattern and its replacement. *)
Definition race_term_ok (pr : string * string) : bool :=
  (capitals (chars pr.1) && negb (Nat.eqb (length (chars pr.1)) 0)
   && lowered_b (chars pr.1) (chars pr.2)
   && forallb (clash Re.same_char (chars pr.1)) (suffixes (chars pr.2)))%bool.

Lemma race_terms_ok : forallb race_term_ok race_terms = true.
Proof. vm_compute. reflexivity. Qed.

Section race_term.

Variables pat repl : string.
Hypothesis listed : In (pat, repl) race_terms.

Lemma race_term_checks : race_term_ok (pat, repl) = true.
Proof.
  pose proof race_terms_ok as H. rewrite forallb_forall in H. by apply H.
Qed.

Lemma race_term_capitals : capitals (chars pat) = true.
Proof.
  pose proof race_term_checks as H. unfold race_term_ok in H.
  by do 3 (apply andb_prop in H as [H _]).
Qed.

Lemma race_term_nonempty : chars pat <> [].
Proof.
  pose proof race_term_checks as H. unfold race_term_ok in H.
  do 2 (apply andb_prop in H as [H _]). apply andb_prop in H as [_ H].
  intros E. cbn [fst] in H. by rewrite E in H.
Qed.

Lemma race_term_lowered : lowered_b (chars pat) (chars repl) = true.
Proof.
  pose proof race_term_checks as H. unfold race_term_ok in H.
  apply andb_prop in H as [H _]. by apply andb_prop in H as [_ H].
Qed.

Lemma race_term_clashes :
  forallb (clash Re.same_char (chars pat)) (suffixes (chars repl)) = true.
Proof.
  pose proof race_term_checks as H. unfold race_term_ok in H.
  by apply andb_prop in H as [_ H].
Qed.

Lemma rule6_lowering : lowering (Re.bounded_literal Re.same_char pat repl).
Proof.
  apply capitals_rule_lowering; auto using race_term_nonempty, race_term_lowered.
Qed.

Lemma rule6_clean s :
  clear (bad6 pat) (Re.sub (Re.bounded_literal Re.same_char pat repl) s).
Proof.
  apply capitals_rule_clean;
    auto using race_term_capitals, race_term_nonempty, race_term_lowered,
      race_term_clashes.
Qed.

Lemma rule6_fix s :
  clear (bad6 pat) s -> Re.sub (Re.bounded_literal Re.same_char pat repl) s = s.
Proof. apply bounded_literal_fix, race_term_nonempty. Qed.

Lemma bad6_antitone : antitone (bad6 pat).
Proof. apply bounded_at_same_antitone, race_term_capitals. Qed.

End race_term.

(** ** The rules in sequence *)

Definition bad3 : detector := bad_clause "action taken with study drug was ".
Definition bad4 : detector := bad_clause "assessed the event as ".

(** Every detector but that of rule 2, in the order of the rules. *)
Definition detectors : list detector :=
  [bad1; bad3; bad4; bad5;
   bad6 "WHITE"; bad6 "BLACK OR AFRICAN AMERICAN"; bad6 "ASIAN";
   bad6 "NOT HISPANIC OR LATINO"; bad6 "HISPANIC OR LATINO"; bad7].

Lemma rule3_lowering : lowering rule3.
Proof. by apply clause_rule_lowering. Qed.

Lemma rule4_lowering : lowering rule4.
Proof. by apply clause_rule_lowering. Qed.

Lemma bad3_antitone : antitone bad3.
Proof. apply bad_clause_antitone. Qed.

Lemma bad4_antitone : antitone bad4.
Proof. apply bad_clause_antitone. Qed.

Lemma bad1_antitone : antitone bad1.
Proof. apply bounded_at_ci_antitone. Qed.

(** The detectors a lowering rule cannot set off. *)
Definition antitone_detectors : list detector :=
  [bad1; bad3; bad4; bad5;
   bad6 "WHITE"; bad6 "BLACK OR AFRICAN AMERICAN"; bad6 "ASIAN";
   bad6 "NOT HISPANIC OR LATINO"; bad6 "HISPANIC OR LATINO"].

Lemma antitone_detectors_antitone : Forall antitone antitone_detectors.
Proof.
  repeat constructor;
    first [ apply bad1_antitone | apply bad3_antitone | apply bad4_antitone
          | apply bad5_antitone
          | apply bad6_antitone with (repl := "White"%string); cbn; tauto
          | apply bad6_antitone with (repl := "Black or African American"%string); cbn; tauto
          | apply bad6_antitone with (repl := "Asian"%string); cbn; tauto
          | apply bad6_antitone with (repl := "Not Hispanic or Latino"%string); cbn; tauto
          | apply bad6_antitone with (repl := "Hispanic or Latino"%string); cbn; tauto ].
Qed.

(** A lowering rule keeps clear every such detector that was clear. *)
Lemma lowering_keeps m s bads :
  lowering m -> Forall antitone bads ->
  Forall (fun bad => clear bad s) bads ->
  Forall (fun bad => clear bad (Re.sub m s)) bads.
Proof.
  intros Hl Hanti Hclear. induction Hanti as [|bad bads Ha _ IH]; [constructor|].
  inversion Hclear; subst. constructor; [by apply clear_sub_lowering|by apply IH].
Qed.

(** The text after one pass of the rules: every detector is clear. *)
Theorem apply_rules_clear text :
  Forall (fun bad => clear bad (apply_rules business_rules text)) detectors.
Proof.
  unfold apply_rules, business_rules. cbn [fold_left].
  set (s1 := Re.sub rule1 text).
  set (s2 := Re.sub rule2 s1).
  set (s3 := Re.sub rule3 s2).
  set (s4 := Re.sub rule4 s3).
  set (s5 := Re.sub rule5 s4).
  set (s6 := Re.sub rule6_white s5).
  set (s7 := Re.sub rule6_black s6).
  set (s8 := Re.sub rule6_asian s7).
  set (s9 := Re.sub rule6_not_hispanic s8).
  set (s10 := Re.sub rule6_hispanic s9).
  pose proof antitone_detectors_antitone as Hanti.
  assert (clear bad1 s2) as H1 by apply rule2_keeps_bad1, rule1_clean.
  assert (Forall (fun bad => clear bad s3) [bad1; bad3]) as H3.
  { constructor; [|constructor; [|constructor]].
    - apply clear_sub_lowering; [apply bad1_antitone|apply rule3_lowering|done].
    - by apply clause_rule_clean. }
  assert (Forall (fun bad => clear bad s4) [bad1; bad3; bad4]) as H4.
  { apply (Forall_app _ [bad1; bad3] [bad4]). split.
    - apply lowering_keeps; [apply rule4_lowering| |done].
      exact (Forall_take _ 2 _ Hanti).
    - constructor; [|constructor]. by apply clause_rule_clean. }
  assert (Forall (fun bad => clear bad s5) [bad1; bad3; bad4; bad5]) as H5.
  { inversion H4 as [|? ? Hb1 H4']; subst.
    inversion H4' as [|? ? Hb3 H4'']; subst.
    inversion H4'' as [|? ? Hb4 _]; subst.
    repeat constructor.
    - by apply rule5_keeps_bad1.
    - by apply rule5_keeps_clause.
    - by apply rule5_keeps_clause.
    - apply rule5_clean. }
  assert (forall pat repl s bads,
            In (pat, repl) race_terms -> Forall antitone bads ->
            Forall (fun bad => clear bad s) bads ->
            Forall (fun bad => clear bad
                      (Re.sub (Re.bounded_literal Re.same_char pat repl) s))
              (bads ++ [bad6 pat])) as Hstep.
  { intros pat repl s bads Hin Ha Hc. apply Forall_app. split.
    - apply lowering_keeps; [by apply rule6_lowering|done..].
    - constructor; [|constructor]. by apply rule6_clean. }
  assert (Forall (fun bad => clear bad s6) (take 5 antitone_detectors)) as H6.
  { apply (Hstep "WHITE" "White" s5 [bad1; bad3; bad4; bad5])%string;
      [cbn; tauto|exact (Forall_take _ 4 _ Hanti)|done]. }
  assert (Forall (fun bad => clear bad s7) (take 6 antitone_detectors)) as H7.
  { apply (Hstep "BLACK OR AFRICAN AMERICAN" "Black or African American" s6
             (take 5 antitone_detectors))%string;
      [cbn; tauto|by apply Forall_take|done]. }
  assert (Forall (fun bad => clear bad s8) (take 7 antitone_detectors)) as H8.
  { apply (Hstep "ASIAN" "Asian" s7 (take 6 antitone_detectors))%string;
      [cbn; tauto|by apply Forall_take|done]. }
  assert (Forall (fun bad => clear bad s9) (take 8 antitone_detectors)) as H9.
  { apply (Hstep "NOT HISPANIC OR LATINO" "Not Hispanic or Latino" s8
             (take 7 antitone_detectors))%string;
      [cbn; tauto|by apply Forall_take|done]. }
  assert (Forall (fun bad => clear bad s10) antitone_detectors) as H10.
  { apply (Hstep "HISPANIC OR LATINO" "Hispanic or Latino" s9
             (take 8 antitone_detectors))%string;
      [cbn; tauto|by apply Forall_take|done]. }
  change detectors with (antitone_detectors ++ [bad7]).
  apply Forall_app. split.
  - apply lowering_keeps; [apply rule7_lowering|done..].
  - constructor; [|constructor]. apply rule7_clean.
Qed.

(** On a text with every detector clear, each rule but rule 2 changes
    nothing. *)
Theorem apply_rules_fix text :
  Forall (fun bad => clear bad text) detectors ->
  Re.sub rule2 text = text ->
  apply_rules business_rules text = text.
Proof.
  intros Hclear H2. unfold detectors in Hclear.
  repeat match goal with
         | H : Forall _ (_ :: _) |- _ => inversion H; clear H; subst
         end.
  unfold apply_rules, business_rules. cbn [fold_left].
  rewrite rule1_fix by done. rewrite H2.
  unfold rule3, rule4.
  rewrite (clause_rule_fix "action taken with study drug was ") by done.
  rewrite (clause_rule_fix "assessed the event as ") by done.
  rewrite rule5_fix by done.
  unfold rule6_white, rule6_black, rule6_asian, rule6_not_hispanic, rule6_hispanic.
  rewrite (rule6_fix "WHITE" "White")%string by (done || (cbn; tauto)).
  rewrite (rule6_fix "BLACK OR AFRICAN AMERICAN" "Black or African American")%string
    by (done || (cbn; tauto)).
  rewrite (rule6_fix "ASIAN" "Asian")%string by (done || (cbn; tauto)).
  rewrite (rule6_fix "NOT HISPANIC OR LATINO" "Not Hispanic or Latino")%string
    by (done || (cbn; tauto)).
  rewrite (rule6_fix "HISPANIC OR LATINO" "Hispanic or Latino")%string
    by (done || (cbn; tauto)).
  by apply rule7_fix.
Qed.

(** ** Rule 2 and the date formatter *)

Lemma sub_from_app_stable m pre rest :
  (forall a b p, pre = a ++ b -> b <> [] ->
     m p (b ++ rest) = m p b
     /\ forall repl n, m p b = Some (repl, n) -> (n <= length b)%nat) ->
  forall k prev, (k <= length pre)%nat ->
  Re.sub_from m k prev (pre ++ rest)
  = Re.sub_from m k prev pre ++ Re.sub_from m 0 (prev_at prev pre) rest.
Proof.
  induction pre as [|c pre IH]; intros Hst k prev Hk.
  - cbn in Hk. by replace k with 0%nat by lia.
  - assert (forall a b p, pre = a ++ b -> b <> [] ->
              m p (b ++ rest) = m p b
              /\ forall repl n, m p b = Some (repl, n) -> (n <= length b)%nat) as Hst'.
    { intros a b p -> Hb. by apply (Hst (c :: a) b p). }
    rewrite prev_at_cons. cbn [app Re.sub_from]. destruct k as [|k].
    + destruct (Hst [] (c :: pre) prev eq_refl ltac:(done)) as [Heq Hlen].
      cbn [app] in Heq. rewrite Heq.
      destruct (m prev (c :: pre)) as [[repl n]|] eqn:Hm.
      * specialize (Hlen _ _ eq_refl). cbn in Hlen.
        rewrite IH by (done || lia). by rewrite app_assoc.
      * by rewrite IH by (done || lia).
    + cbn in Hk. by rewrite IH by (done || lia).
Qed.

Lemma iso_shape_lookup s i c :
  iso_shape s = true -> s !! i = Some c -> (i < 10)%nat ->
  if (Nat.eqb i 4 || Nat.eqb i 7)%bool then c = "-"%char else is_digit c = true.
Proof.
  unfold iso_shape. do 10 (destruct s as [|? s]; [done|]).
  intros H. do 9 (apply andb_prop in H as [H ?]).
  repeat match goal with H : Ascii.eqb _ _ = true |- _ => apply Ascii.eqb_eq in H; subst end.
  do 10 (destruct i as [|i]; [by intros [= <-]|]). lia.
Qed.

Lemma iso_shape_length s : iso_shape s = true -> (10 <= length s)%nat.
Proof.
  unfold iso_shape. do 10 (destruct s as [|? s]; [done|]). cbn. lia.
Qed.

Lemma iso_shape_app s t : iso_shape s = true -> iso_shape (s ++ t) = true.
Proof. unfold iso_shape. by do 10 (destruct s as [|? s]; [done|]). Qed.

Lemma iso_shape_take s : iso_shape s = true -> iso_shape (take 10 s) = true.
Proof. unfold iso_shape. by do 10 (destruct s as [|? s]; [done|]). Qed.

Lemma not_word_not_digit c : is_word c = false -> is_digit c = false.
Proof. destruct (is_digit c) eqn:E; [|done]. by rewrite (is_digit_word _ E). Qed.

Lemma dash_not_digit : is_digit "-" = false.
Proof. reflexivity. Qed.

Lemma iso_token_digit tok i :
  iso_token tok -> (i < 10)%nat -> i <> 4%nat -> i <> 7%nat ->
  exists c, tok !! i = Some c /\ is_digit c = true.
Proof.
  intros [Hs Hl] Hi H4 H7.
  destruct (tok !! i) as [c|] eqn:E.
  - exists c. split; [done|]. pose proof (iso_shape_lookup _ _ _ Hs E Hi) as H.
    destruct (Nat.eqb_spec i 4); [done|]. by destruct (Nat.eqb_spec i 7).
  - apply lookup_ge_None in E. lia.
Qed.

(** Before a token that follows a non-word character, rule 2 decides every
    position as it does in the text before the token alone. *)
Lemma rule2_stable pre tok post a b p :
  iso_token tok -> Re.is_word_opt (last pre) = false ->
  pre = a ++ b -> b <> [] ->
  rule2 p (b ++ tok ++ post) = rule2 p b
  /\ forall repl n, rule2 p b = Some (repl, n) -> (n <= length b)%nat.
Proof.
  intros Htok Hlast -> Hb. split.
  2: { intros repl n H. apply rule2_Some in H as (-> & H & _).
       by apply iso_shape_length. }
  assert (exists x, last b = Some x /\ is_word x = false) as (x & Hx & Hxw).
  { rewrite last_app in Hlast. destruct (last b) as [x|] eqn:E; [eauto|].
    by apply last_None in E. }
  assert (b !! (length b - 1)%nat = Some x) as Hbx.
  { by rewrite <- Hx, last_lookup, Nat.sub_1_r. }
  destruct (decide (11 <= length b)%nat) as [Hlong | Hshort].
  - do 11 (destruct b as [|? b]; [cbn in Hlong; lia|]). reflexivity.
  - assert (rule2 p b = None) as ->.
    { unfold rule2. destruct (iso_shape b) eqn:Hs; [|by rewrite andb_false_r].
      pose proof (iso_shape_length _ Hs) as Hl.
      assert (length b = 10%nat) as Hl10 by lia. rewrite Hl10 in Hbx.
      pose proof (iso_shape_lookup _ _ _ Hs Hbx ltac:(lia)) as H. cbn in H.
      by rewrite (not_word_not_digit _ Hxw) in H. }
    unfold rule2.
    destruct (iso_shape (b ++ tok ++ post)) eqn:Hs; [|by rewrite andb_false_r].
    assert (length b >= 1)%nat as Hl1 by (destruct b; [done|cbn; lia]).
    assert ((b ++ tok ++ post) !! (length b - 1)%nat = Some x) as Hbx'
      by (rewrite lookup_app_l by lia; done).
    pose proof (iso_shape_lookup _ _ _ Hs Hbx' ltac:(lia)) as H.
    assert (forall i, (i < 10)%nat -> i <> 4%nat -> i <> 7%nat ->
              exists c, (b ++ tok ++ post) !! (length b + i)%nat = Some c
                        /\ is_digit c = true) as Hd.
    { intros i Hi H4 H7. destruct (iso_token_digit tok i Htok Hi H4 H7) as (c & Hc & Hcd).
      exists c. split; [|done].
      rewrite lookup_app_r by lia. replace (length b + i - length b)%nat with i by lia.
      rewrite lookup_app_l; [done|]. destruct Htok as [_ ->]. done. }
    destruct (decide (length b = 5)%nat) as [E5 | N5].
    + destruct (Hd 2%nat ltac:(lia) ltac:(lia) ltac:(lia)) as (c & Hc & Hcd).
      rewrite E5 in Hc. pose proof (iso_shape_lookup _ _ _ Hs Hc ltac:(lia)) as H'.
      cbn in H'. subst c. done.
    + destruct (decide (length b = 8)%nat) as [E8 | N8].
      * destruct (Hd 1%nat ltac:(lia) ltac:(lia) ltac:(lia)) as (c1 & Hc1 & Hd1).
        destruct (Hd 2%nat ltac:(lia) ltac:(lia) ltac:(lia)) as (c2 & Hc2 & Hd2).
        rewrite E8 in Hc1, Hc2. cbn in Hc1, Hc2. rewrite Hc1, Hc2.
        unfold Re.word_boundary at 2. cbn.
        rewrite (is_digit_word _ Hd1), (is_digit_word _ Hd2). cbn.
        by rewrite andb_false_r.
      * exfalso.
        destruct (Nat.eqb_spec (length b - 1) 4); [lia|].
        destruct (Nat.eqb_spec (length b - 1) 7); [lia|]. cbn in H.
        by rewrite (not_word_not_digit _ Hxw) in H.
Qed.

(** Rule 2 at a token between non-word characters: the texts before and
    after are rewritten as they would be alone, the token by [_date_repl]. *)
Lemma sub_rule2_token pre tok post :
  iso_token tok ->
  Re.is_word_opt (last pre) = false -> Re.is_word_opt (head post) = false ->
  Re.sub rule2 (pre ++ tok ++ post)
  = Re.sub rule2 pre ++ _date_repl tok ++ Re.sub rule2 post.
Proof.
  intros Htok Hpre Hpost. unfold Re.sub.
  rewrite (sub_from_app_stable rule2 pre (tok ++ post)); [|..|lia].
  2: { intros a b p Hab Hb. by eapply rule2_stable. }
  f_equal.
  destruct (iso_token_digit tok 0 Htok ltac:(lia) ltac:(lia) ltac:(lia)) as (t0 & Ht0 & Hd0).
  destruct (iso_token_digit tok 9 Htok ltac:(lia) ltac:(lia) ltac:(lia)) as (t9 & Ht9 & Hd9).
  destruct Htok as [Hshape Hlen].
  assert (rule2 (prev_at None pre) (tok ++ post) = Some (_date_repl tok, 10%nat)) as Hm.
  { unfold rule2. rewrite (iso_shape_app _ _ Hshape).
    replace (take 10 (tok ++ post)) with tok
      by (symmetry; rewrite <- Hlen; apply take_app_length).
    assert (head (tok ++ post) = Some t0) as ->.
    { rewrite head_lookup0, lookup_app_l by lia. done. }
    assert ((tok ++ post) !! 9%nat = Some t9) as -> by (rewrite lookup_app_l by lia; done).
    assert ((tok ++ post) !! 10%nat = head post) as ->.
    { rewrite lookup_app_r by lia. rewrite Hlen. cbn. by rewrite head_lookup0. }
    unfold Re.word_boundary. rewrite Hpost. cbn.
    rewrite (is_digit_word _ Hd0), (is_digit_word _ Hd9).
    unfold prev_at. destruct (last pre) eqn:E; cbn in Hpre |- *; by rewrite ?Hpre. }
  destruct tok as [|c tok']; [done|]. cbn [app] in Hm |- *. cbn [Re.sub_from].
  rewrite Hm. f_equal. cbn [Nat.pred].
  assert (length tok' = 9%nat) as Hl' by (cbn in Hlen; lia).
  rewrite <- Hl', sub_from_skip.
  destruct post as [|x post]; [done|].
  cbn in Hpost. cbn [Re.sub_from].
  assert (forall p, rule2 p (x :: post) = None) as Hnone.
  { intros p. unfold rule2. destruct (iso_shape (x :: post)) eqn:Hs; [|by rewrite andb_false_r].
    pose proof (iso_shape_lookup (x :: post) 0 x Hs eq_refl ltac:(lia)) as H. cbn in H.
    by rewrite (not_word_not_digit _ Hpost) in H. }
  by rewrite !Hnone.
Qed.

Lemma month_abbr_letters mon :
  In mon Datetime.month_abbr ->
  exists M1 M2 M3, chars mon = [M1; M2; M3]
    /\ is_digit M1 = false /\ is_digit M2 = false /\ is_digit M3 = false.
Proof.
  cbn. intros H.
  repeat (destruct H as [<- | H]; [by eexists _, _, _|]). done.
Qed.

(** No part of a date of the form [DD-Mon-YYYY] has the form [dddd-dd-dd],
    so rule 2 finds nothing in it. *)
Lemma date_text_iso_shape x a b :
  date_text x -> x = a ++ b -> iso_shape b = false.
Proof.
  intros Hx Hsplit.
  destruct (iso_shape b) eqn:Hs; [exfalso|done].
  destruct Hx as [d1 d2 mon ys Hd1 Hd2 Hmon Hys Hall].
  destruct (month_abbr_letters _ Hmon) as (M1 & M2 & M3 & HM & HM1 & HM2 & HM3).
  rewrite HM in Hsplit. cbn [app] in Hsplit.
  assert (forall i c, b !! i = Some c -> (i < 4)%nat -> is_digit c = true) as Hdig.
  { intros i c Hc Hi. pose proof (iso_shape_lookup _ _ _ Hs Hc ltac:(lia)) as H.
    destruct (Nat.eqb_spec i 4); [lia|]. by destruct (Nat.eqb_spec i 7); [lia|]. }
  do 7 (destruct a as [|? a];
        [cbn [app] in Hsplit; subst b;
         first
           [ pose proof (Hdig 0%nat _ eq_refl ltac:(lia)) as Bad;
             first [congruence | by vm_compute in Bad]
           | pose proof (Hdig 1%nat _ eq_refl ltac:(lia)) as Bad;
             first [congruence | by vm_compute in Bad]
           | pose proof (Hdig 2%nat _ eq_refl ltac:(lia)) as Bad;
             first [congruence | by vm_compute in Bad] ]
        |injection Hsplit as <- Hsplit]).
  subst ys. apply Forall_app in Hall as [_ Hall].
  pose proof (iso_shape_length _ Hs) as Hlen.
  destruct (b !! 4%nat) as [c|] eqn:Hc; [|apply lookup_ge_None in Hc; lia].
  pose proof (iso_shape_lookup _ _ _ Hs Hc ltac:(lia)) as H. cbn in H. subst c.
  rewrite Forall_lookup in Hall. by specialize (Hall _ _ Hc).
Qed.

Lemma date_text_no_iso x a b p :
  date_text x -> x = a ++ b -> rule2 p b = None.
Proof.
  intros Hx Hsplit. unfold rule2.
  by rewrite (date_text_iso_shape _ _ _ Hx Hsplit), andb_false_r.
Qed.

Lemma sub_rule2_date_text x : date_text x -> Re.sub rule2 x = x.
Proof.
  intros Hx. unfold Re.sub.
  eapply segments_unchanged; [apply sub_from_segments, rule2_well_formed|].
  intros a b repl n Hsplit H. by rewrite (date_text_no_iso _ _ _ _ Hx Hsplit) in H.
Qed.

(** [strptime] with [%d-%b-%Y] refuses a token of the form [dddd-dd-dd]. *)
Lemma p_bind_nil {A B} (p : Datetime.parser A) (f : A -> Datetime.parser B) s :
  (forall a r, In (a, r) (p s) -> f a r = []) -> Datetime.p_bind p f s = [].
Proof.
  unfold Datetime.p_bind. intros H. induction (p s) as [|[a r] l IH]; [done|].
  cbn. rewrite (H a r) by (by left). apply IH. intros a' r' Hin. apply H. by right.
Qed.

Lemma re_d_rest y1 y2 s d r :
  In (d, r) (Datetime.re_d (y1 :: y2 :: s)) -> r = y2 :: s \/ r = s.
Proof.
  unfold Datetime.re_d, Datetime.p_alt, Datetime.two, Datetime.one, Datetime.p_bind,
    Datetime.p_char, Datetime.p_class, Datetime.p_ret.
  cbn [map concat app].
  repeat match goal with
         | |- context [if ?b then _ else _] => destruct b; cbn [map concat app]
         end;
    cbn; intros H; repeat (destruct H as [[= <- <-] | H]); auto; done.
Qed.

Lemma strptime_dbY_iso tok :
  iso_token tok -> Datetime.strptime_dbY tok = None.
Proof.
  intros Htok.
  destruct (iso_token_digit tok 1 Htok ltac:(lia) ltac:(lia) ltac:(lia)) as (y2 & H2 & Hd2).
  destruct (iso_token_digit tok 2 Htok ltac:(lia) ltac:(lia) ltac:(lia)) as (y3 & H3 & Hd3).
  destruct tok as [|y1 [|y2' [|y3' s]]]; try done.
  cbn in H2, H3. injection H2 as ->. injection H3 as ->.
  unfold Datetime.strptime_dbY. rewrite p_bind_nil; [done|].
  intros d r Hin. apply re_d_rest in Hin.
  apply p_bind_nil. intros u r' Hin'. exfalso.
  unfold Datetime.p_char, Datetime.p_class in Hin'.
  destruct Hin as [-> | ->].
  - destruct (Ascii.eqb_spec "-" y2) as [<- |]; [by vm_compute in Hd2|done].
  - destruct (Ascii.eqb_spec "-" y3) as [<- |]; [by vm_compute in Hd3|done].
Qed.

(** The date formatter and [_date_repl] agree on a token of the form
    [dddd-dd-dd]. *)
Lemma format_field_iso tok config :
  format config = Some "date"%string -> iso_token tok ->
  format_field (VStr (unchars tok)) config = VStr (unchars (_date_repl tok)).
Proof.
  intros Hfmt Htok. unfold format_field, _parse_date, _date_repl.
  rewrite Hfmt, bool_decide_eq_true_2 by done. rewrite chars_unchars.
  destruct (Datetime.strptime_Ymd tok); [done|].
  by rewrite (strptime_dbY_iso _ Htok).
Qed.

Lemma parse_date_valid value parsed :
  _parse_date value = Some parsed -> Datetime.valid_date parsed = true.
Proof.
  unfold _parse_date. destruct value as [|s| |]; try done.
  destruct (Datetime.strptime_Ymd (chars s)) eqn:E.
  - intros [= <-]. by eapply strptime_Ymd_valid.
  - apply finish_valid.
Qed.

(** *** A formatted date inside a text *)

Lemma iso_shape_app_long b rest :
  (10 <= length b)%nat -> iso_shape (b ++ rest) = iso_shape b.
Proof. intros H. by do 10 (destruct b as [|? b]; [cbn in H; lia|]). Qed.

Lemma iso_shape_not_word s i c :
  s !! i = Some c -> (i < 10)%nat -> is_word c = false -> c <> "-"%char ->
  iso_shape s = false.
Proof.
  intros Hc Hi Hw Hdash. destruct (iso_shape s) eqn:Hs; [exfalso|done].
  pose proof (iso_shape_lookup _ _ _ Hs Hc Hi) as H.
  destruct (_ || _)%bool; [done|]. by rewrite (not_word_not_digit _ Hw) in H.
Qed.

Lemma last_Some_lookup {A} (b : list A) x :
  last b = Some x -> b !! (length b - 1)%nat = Some x /\ (1 <= length b)%nat.
Proof.
  intros H. split; [by rewrite <- H, last_lookup, Nat.sub_1_r|].
  destruct b; [done|cbn; lia].
Qed.

Lemma rule2_None_shape p s : iso_shape s = false -> rule2 p s = None.
Proof. intros H. unfold rule2. by rewrite H, andb_false_r. Qed.

(** Before a text that follows a character that is neither a word character
    nor a hyphen, rule 2 decides every position as it does in the text
    before alone. *)
Lemma rule2_stable_delimited pre rest a b p x :
  last pre = Some x -> is_word x = false -> x <> "-"%char ->
  pre = a ++ b -> b <> [] ->
  rule2 p (b ++ rest) = rule2 p b
  /\ forall repl n, rule2 p b = Some (repl, n) -> (n <= length b)%nat.
Proof.
  intros Hlast Hw Hdash -> Hb. split.
  2: { intros repl n H. apply rule2_Some in H as (-> & H & _).
       by apply iso_shape_length. }
  assert (last b = Some x) as Hx.
  { rewrite last_app in Hlast. destruct (last b) eqn:E; [done|].
    by apply last_None in E. }
  apply last_Some_lookup in Hx as [Hbx Hl1].
  destruct (decide (11 <= length b)%nat) as [Hlong | Hshort].
  - do 11 (destruct b as [|? b]; [cbn in Hlong; lia|]). reflexivity.
  - rewrite !rule2_None_shape; [done|..].
    + by apply (iso_shape_not_word _ (length b - 1) x); [|lia|..].
    + apply (iso_shape_not_word _ (length b - 1) x); [|lia|done..].
      by rewrite lookup_app_l by lia.
Qed.

(** Inside a date of the form [DD-Mon-YYYY] that a character other than a
    digit or hyphen follows, rule 2 finds nothing. *)
Lemma rule2_date_text_followed x post a b p c :
  date_text x -> head post = Some c -> is_word c = false -> c <> "-"%char ->
  x = a ++ b -> b <> [] ->
  rule2 p (b ++ post) = None /\ rule2 p b = None.
Proof.
  intros Hx Hc Hw Hdash Hsplit Hb.
  pose proof (date_text_iso_shape _ _ _ Hx Hsplit) as Hs.
  split; apply rule2_None_shape; [|done].
  destruct (decide (10 <= length b)%nat) as [Hlong | Hshort].
  - by rewrite iso_shape_app_long.
  - apply (iso_shape_not_word _ (length b) c); [|lia|done..].
    rewrite lookup_app_r by lia. rewrite Nat.sub_diag. by rewrite <- head_lookup0.
Qed.

Lemma sub_from_unchanged m s :
  (forall a b p, s = a ++ b -> m p b = None) ->
  forall prev, Re.sub_from m 0 prev s = s.
Proof.
  induction s as [|c s IH]; intros H prev; [done|].
  cbn [Re.sub_from]. rewrite (H [] (c :: s) prev eq_refl). f_equal.
  apply IH. intros a b p ->. by apply (H (c :: a) b p).
Qed.

(** Rule 2 at a date of the form [DD-Mon-YYYY] between characters that are
    neither word characters nor hyphens (or at an end of the text): the date
    stays, the texts before and after are rewritten as they would be
    alone. *)
Lemma sub_rule2_date_text_between pre x post :
  date_text x ->
  Re.is_word_opt (last pre) = false -> last pre <> Some "-"%char ->
  Re.is_word_opt (head post) = false -> head post <> Some "-"%char ->
  Re.sub rule2 (pre ++ x ++ post) = Re.sub rule2 pre ++ x ++ Re.sub rule2 post.
Proof.
  intros Hx Hprew Hpred Hpostw Hpostd. unfold Re.sub.
  assert (forall prev, Re.sub_from rule2 0 prev (x ++ post)
                       = x ++ Re.sub_from rule2 0 None post) as Hrest.
  { intros prev. destruct post as [|c post].
    - rewrite app_nil_r. cbn [Re.sub_from]. rewrite app_nil_r.
      apply sub_from_unchanged. intros a b p Hab. by eapply date_text_no_iso.
    - cbn in Hpostw.
      assert (c <> "-"%char) as Hc by (intros ->; by apply Hpostd).
      rewrite (sub_from_app_stable rule2 x (c :: post)); [|..|lia].
      2: { intros a b p Hab Hb.
           destruct (rule2_date_text_followed x (c :: post) a b p c Hx eq_refl
                       Hpostw Hc Hab Hb) as [-> ->].
           split; [done|]. intros repl n Hn. done. }
      rewrite sub_from_unchanged by (intros a b p Hab; by eapply date_text_no_iso).
      f_equal. cbn [Re.sub_from].
      assert (forall p, rule2 p (c :: post) = None) as Hnone.
      { intros p. apply rule2_None_shape.
        apply (iso_shape_not_word _ 0 c); [done|lia|done..]. }
      by rewrite !Hnone. }
  destruct (last pre) as [y|] eqn:Hy.
  - cbn in Hprew.
    assert (y <> "-"%char) as Hyd by (intros ->; by apply Hpred).
    rewrite (sub_from_app_stable rule2 pre (x ++ post)); [|..|lia].
    + by rewrite Hrest.
    + intros a b p Hab Hb. by eapply rule2_stable_delimited.
  - apply last_None in Hy as ->. cbn [app Re.sub_from]. apply Hrest.
Qed.

(** ** Idempotence of the business rules *)

(** C5, as stated, fails: the date rule 2 writes for [2023-12-20] ends in the
    year, and the year followed by [-11-11] is again a token of the form
    [dddd-dd-dd], which a second run rewrites. *)
Lemma apply_business_rules_second_run_differs :
  apply_business_rules "2023-12-20-11-11" = "20-Dec-2023-11-11"
  /\ apply_business_rules (apply_business_rules "2023-12-20-11-11")
     = "20-Dec-11-Nov-2023"
  /\ apply_business_rules (apply_business_rules "2023-12-20-11-11")
     <> apply_business_rules "2023-12-20-11-11".
Proof. by vm_compute. Qed.

(** C5, amended.  On ASCII text a second run of the rules changes nothing
    whenever rule 2 finds nothing to rewrite in the result of the first run:
    rules 1 and 3 to 7 never fire on the result of a run.  (Text that is not
    ASCII is left out: there [str.lower] can put a word boundary where none
    was, and rule 1 fires on the second run.) *)
Theorem apply_business_rules_idempotent text :
  ascii_text (chars text) = true ->
  let once := apply_business_rules text in
  Re.sub rule2 (chars once) = chars once ->
  apply_business_rules once = once.
Proof.
  intros _ once H2. unfold once, apply_business_rules in *.
  rewrite chars_unchars in *. f_equal.
  apply apply_rules_fix; [apply apply_rules_clear|done].
Qed.

Definition example_text : string :=
  "A 74-YEARS-old WHITE male took the Last Dose on 2023-12-20. SAE of Pneumonia".

Lemma apply_business_rules_idempotent_witness :
  apply_business_rules example_text
  = "A 74-year-old White male took the most recent dose on 20-Dec-2023. SAE of pneumonia"
  /\ apply_business_rules (apply_business_rules example_text)
     = apply_business_rules example_text.
Proof.
  split; [by vm_compute|].
  apply (apply_business_rules_idempotent example_text); by vm_compute.
Defined.

(** ** Rule 2 and the date formatter of the Field Resolver *)

(** C6, as stated, fails: rule 2 matches between word boundaries only, so a
    date that follows a word character, or is followed by one, is not
    rewritten, while the formatter rewrites the same date; and the year that
    ends a formatted date starts a new match when [-dd-dd] follows it. *)
Lemma rule2_skips_date_next_to_word_char :
  format_field (VStr "2023-12-20") (date_config "start_date" "adverse_events" "AESTDTC")
  = VStr "20-Dec-2023"
  /\ Re.sub rule2 (chars "AE_2023-12-20") = chars "AE_2023-12-20"
  /\ Re.sub rule2 (chars "2023-12-20T08:30") = chars "2023-12-20T08:30"
  /\ apply_business_rules "Onset: AE_2023-12-20 (2023-12-20T08:30)."
     = "Onset: AE_2023-12-20 (2023-12-20T08:30)."
  /\ Re.sub rule2 (chars "20-Dec-2023" ++ chars "-11-11") = chars "20-Dec-11-Nov-2023".
Proof. by vm_compute. Qed.

(** C6, amended.  For a field configured with the [date] format:
    a value the formatter parses is written in the form [DD-Mon-YYYY]; rule 2
    leaves that text unchanged, alone and wherever it stands between
    characters that are neither word characters nor hyphens (or at an end of
    the text).  A token of the form [dddd-dd-dd] that stands between non-word
    characters (or at an end of the text) is rewritten by rule 2 to what the
    formatter returns for the token; when the token is not a date, both
    leave it unchanged.  In both cases the text before and the text after
    are rewritten as they would be alone. *)
Theorem rule2_date_round_trip config :
  format config = Some "date"%string ->
  (forall value parsed, _parse_date value = Some parsed ->
     let formatted := Datetime.strftime_dbY parsed in
     format_field value config = VStr (unchars formatted)
     /\ date_text formatted
     /\ Re.sub rule2 formatted = formatted
     /\ forall pre post,
          Re.is_word_opt (last pre) = false -> last pre <> Some "-"%char ->
          Re.is_word_opt (head post) = false -> head post <> Some "-"%char ->
          Re.sub rule2 (pre ++ formatted ++ post)
          = Re.sub rule2 pre ++ formatted ++ Re.sub rule2 post) /\
  (forall pre tok post,
     iso_token tok ->
     Re.is_word_opt (last pre) = false -> Re.is_word_opt (head post) = false ->
     exists formatted,
       format_field (VStr (unchars tok)) config = VStr formatted
       /\ Re.sub rule2 (pre ++ tok ++ post)
          = Re.sub rule2 pre ++ chars formatted ++ Re.sub rule2 post
       /\ (Datetime.strptime_Ymd tok = None -> chars formatted = tok)).
Proof.
  intros Hfmt. split.
  - intros value parsed Hp formatted.
    pose proof (strftime_dbY_date_text _ (parse_date_valid _ _ Hp)) as Hd.
    split; [|split; [done|split; [by apply sub_rule2_date_text|]]].
    + unfold format_field. rewrite Hfmt, bool_decide_eq_true_2, Hp by done.
      by destruct value.
    + intros pre post. by apply sub_rule2_date_text_between.
  - intros pre tok post Htok Hpre Hpost. exists (unchars (_date_repl tok)).
    split; [by apply format_field_iso|]. rewrite chars_unchars.
    split; [by apply sub_rule2_token|].
    unfold _date_repl. by intros ->.
Qed.

Lemma rule2_date_round_trip_witness :
  Re.sub rule2 (chars "20-Dec-2023") = chars "20-Dec-2023"
  /\ Re.sub rule2 (chars "From 2023-01-05 to " ++ chars "20-Dec-2023" ++ chars ".")
     = chars "From 05-Jan-2023 to 20-Dec-2023."
  /\ Re.sub rule2 (chars "Onset on 2023-12-20, and 2023-02-30.")
     = chars "Onset on 20-Dec-2023, and 2023-02-30.".
Proof.
  pose proof (rule2_date_round_trip
                (date_config "start_date" "adverse_events" "AESTDTC") eq_refl)
    as [Hvalue Htoken].
  destruct (Hvalue (VStr "2023-12-20")
              {| Datetime.year := 2023; Datetime.month := 12; Datetime.day := 20 |}
              eq_refl) as (_ & _ & Halone & Hbetween).
  split; [exact Halone|split].
  - refine (eq_trans (Hbetween (chars "From 2023-01-05 to ") (chars ".") _ _ _ _) _);
      by vm_compute.
  - destruct (Htoken (chars "Onset on ") (chars "2023-12-20") (chars ", and 2023-02-30."))
      as (formatted & Hf & H & _); [by vm_compute..|].
    vm_compute in Hf. injection Hf as <-. exact H.
Defined.

(** * Further properties *)

(** ** What a run of the business rules leaves behind *)

Lemma prev_at_None a : prev_at None a = last a.
Proof. unfold prev_at. by destruct (last a). Qed.

Lemma apply_rules_detector bad text a b :
  In bad detectors ->
  chars (apply_business_rules text) = a ++ b -> bad (last a) b = false.
Proof.
  intros Hin Hsplit. unfold apply_business_rules in Hsplit.
  rewrite chars_unchars in Hsplit.
  pose proof (apply_rules_clear (chars text)) as Hclear.
  rewrite List.Forall_forall in Hclear.
  rewrite <- prev_at_None. by apply (Hclear bad Hin).
Qed.

(** X1.  The terminology rules hold in the text a run returns for an ASCII
    text: [last dose] stands nowhere between word boundaries, in any case, so
    rule 1 matches nowhere; and no digit is followed by [-years-old], in any
    case. *)
Theorem apply_business_rules_terminology text a b :
  ascii_text (chars text) = true ->
  chars (apply_business_rules text) = a ++ b ->
  rule1 (last a) b = None
  /\ (Re.is_word_opt (last a) = false ->
      Re.starts_with Re.same_char_ci (chars "last dose") b = true ->
      Re.is_word_opt (b !! 9%nat) = true)
  /\ (Re.starts_with Re.same_char_ci (chars "-years-old") b = true ->
      forall d, last a = Some d -> is_digit d = false).
Proof.
  intros _ Hsplit.
  pose proof (apply_rules_detector bad1 text a b ltac:(cbn; tauto) Hsplit) as H1.
  pose proof (apply_rules_detector bad5 text a b ltac:(cbn; tauto) Hsplit) as H5.
  split; [|split].
  - unfold rule1, Re.bounded_literal. unfold bad1, bounded_at in H1. by rewrite H1.
  - intros Hp Hs. unfold bad1, bounded_at in H1. rewrite Hs in H1.
    assert (exists c, head b = Some c /\ is_word c = true) as (c & Hc & Hcw).
    { destruct b as [|c b]; [by cbn in Hs|]. exists c. split; [done|].
      cbn in Hs. apply andb_prop in Hs as [Hs _].
      revert Hs. clear. by each_char c. }
    assert (exists x, b !! 8%nat = Some x /\ is_word x = true) as (x & Hx & Hxw).
    { do 9 (destruct b as [|? b]; [by cbn in Hs; rewrite ?andb_false_r in Hs|]).
      eexists. split; [done|].
      cbn in Hs. do 8 (apply andb_prop in Hs as [? Hs]).
      apply andb_prop in Hs as [Hs _].
      revert Hs. clear. match goal with |- context [is_word ?y] => by each_char y end. }
    change (length (chars "last dose")) with 9%nat in H1. cbn [Nat.sub] in H1.
    rewrite Hc, Hx in H1. unfold Re.word_boundary in H1. cbn in H1.
    rewrite Hp, Hcw, Hxw in H1. cbn in H1.
    by destruct (Re.is_word_opt (b !! 9%nat)).
  - intros Hs d Hd. unfold bad5 in H5. fold years_old in Hs. rewrite Hs, Hd in H5.
    cbn in H5. by rewrite andb_true_r in H5.
Qed.

Lemma apply_business_rules_terminology_witness :
  rule1 (Some " "%char) (chars "most recent dose was taken by the 74-year-old.") = None.
Proof.
  refine (proj1 (apply_business_rules_terminology
                   "The Last Dose was taken by the 74-YEARS-old."
                   (chars "The ") _ _ _)); by vm_compute.
Defined.

(** X2.  The clause rules hold in the text a run returns: wherever one of the two
    trigger phrases stands, in any case, the clause that follows it, up to
    the next period, has no capital letter; and [SAE of ] is nowhere followed
    by a capital letter. *)
Theorem apply_business_rules_lowercase text a b :
  chars (apply_business_rules text) = a ++ b ->
  (forall trigger,
     trigger = "action taken with study drug was "%string
     \/ trigger = "assessed the event as "%string ->
     Re.starts_with Re.same_char_ci (chars trigger) b = true ->
     has_upper (Re.span (fun c => negb (Ascii.eqb c ".")) (drop (length (chars trigger)) b))
     = false)
  /\ (Re.starts_with Re.same_char (chars "SAE of ") b = true ->
      forall c, b !! 7%nat = Some c -> is_upper c = false)
  /\ rule7 (last a) b = None.
Proof.
  intros Hsplit.
  pose proof (apply_rules_detector bad3 text a b ltac:(cbn; tauto) Hsplit) as H3.
  pose proof (apply_rules_detector bad4 text a b ltac:(cbn; tauto) Hsplit) as H4.
  pose proof (apply_rules_detector bad7 text a b ltac:(cbn; tauto) Hsplit) as H7.
  split; [|split].
  - intros trigger [-> | ->] Hs.
    + unfold bad3, bad_clause in H3. by rewrite Hs in H3.
    + unfold bad4, bad_clause in H4. by rewrite Hs in H4.
  - intros Hs c Hc. unfold bad7 in H7. fold sae_of in Hs. by rewrite Hs, Hc in H7.
  - unfold rule7. unfold bad7 in H7. fold sae_of.
    destruct (Re.starts_with _ _ _); [|done].
    destruct (b !! 7%nat) as [c|]; [|done]. cbn in H7. by rewrite H7.
Qed.

Lemma apply_business_rules_lowercase_witness :
  has_upper (chars "not related") = false
  /\ rule7 (Some " "%char) (chars "SAE of pneumonia. He assessed the event as not related.")
     = None.
Proof.
  pose proof (apply_business_rules_lowercase
                "An SAE of Pneumonia. He assessed the event as NOT Related."
                (chars "An ")
                (chars "SAE of pneumonia. He assessed the event as not related.")
                ltac:(by vm_compute)) as (_ & _ & H7).
  pose proof (apply_business_rules_lowercase
                "An SAE of Pneumonia. He assessed the event as NOT Related."
                (chars "An SAE of pneumonia. He ")
                (chars "assessed the event as not related.")
                ltac:(by vm_compute)) as (Hclause & _).
  split; [|exact H7].
  exact (Hclause "assessed the event as "%string (or_intror eq_refl) eq_refl).
Defined.

(** X3.  The race and ethnicity rules hold in the text a run returns: none of the
    five terms stands in capitals between word boundaries, so no rule of
    rule 6 matches anywhere. *)
Theorem apply_business_rules_race_casing text a b :
  chars (apply_business_rules text) = a ++ b ->
  rule6_white (last a) b = None
  /\ rule6_black (last a) b = None
  /\ rule6_asian (last a) b = None
  /\ rule6_not_hispanic (last a) b = None
  /\ rule6_hispanic (last a) b = None.
Proof.
  intros Hsplit.
  assert (forall pat repl, In (bad6 pat) detectors ->
            Re.bounded_literal Re.same_char pat repl (last a) b = None) as H.
  { intros pat repl Hin.
    pose proof (apply_rules_detector _ text a b Hin Hsplit) as Hb.
    unfold Re.bounded_literal. unfold bad6, bounded_at in Hb. by rewrite Hb. }
  repeat split; apply H; cbn; tauto.
Qed.

Lemma apply_business_rules_race_casing_witness :
  rule6_hispanic (Some " "%char) (chars "Hispanic or Latino male, race White.") = None.
Proof.
  refine (proj2 (proj2 (proj2 (proj2 (apply_business_rules_race_casing
                   "A HISPANIC OR LATINO male, race WHITE."
                   (chars "A ") _ _))))).
  by vm_compute.
Defined.

(** ** Template selection for any configuration *)

Lemma select_template_candidates templates event_data serious hosp med_imp :
  flag event_data "serious_event" = Return serious ->
  flag event_data "hospitalization" = Return hosp ->
  flag event_data "other_medically_important" = Return med_imp ->
  select_template templates event_data
  = match first_configured templates
            (if String.eqb serious "Y" then sae_candidates hosp else ["ae_non_serious"]) with
    | Some t => Return t
    | None => Raise (NoTemplateError serious hosp med_imp (dom templates))
    end.
Proof.
  intros Fs Fh Fm. unfold select_template, first_configured, sae_candidates.
  rewrite Fs, Fh, Fm. cbn [mbind outcome_bind bind].
  destruct (String.eqb serious "Y");
    (destruct (String.eqb_spec hosp "Y") as [-> | ?];
     [change (String.eqb "Y" "N") with false|destruct (String.eqb hosp "N")]);
    destruct (String.eqb med_imp "Y"); cbn;
    repeat match goal with
           | |- context [templates !! ?k] => destruct (templates !! k); cbn
           end; reflexivity.
Qed.

(** X4.  For any configuration, a serious event gets the first configured
    template of: the hospitalization template when hospitalization is Y,
    else the medically-important one; then the generic SAE template; then
    the hospitalization template; then the non-serious template.  The flag
    [other_medically_important] has no part in the choice. *)
Theorem select_template_serious_order templates event_data hosp med_imp :
  flag event_data "serious_event" = Return "Y"%string ->
  flag event_data "hospitalization" = Return hosp ->
  flag event_data "other_medically_important" = Return med_imp ->
  select_template templates event_data
  = match first_configured templates (sae_candidates hosp) with
    | Some t => Return t
    | None => Raise (NoTemplateError "Y" hosp med_imp (dom templates))
    end.
Proof.
  intros Fs Fh Fm. by rewrite (select_template_candidates _ _ _ _ _ Fs Fh Fm).
Qed.

Lemma select_template_serious_order_witness :
  select_template {[ "sae_hospitalization" := example_template "SAE_HOSP_V1";
                     "ae_non_serious" := example_template "AE_NON_SERIOUS_V1" ]}
    {[ "serious_event" := VStr "Y"; "hospitalization" := VStr "N";
       "other_medically_important" := VStr "Y" ]}
  = Return (example_template "SAE_HOSP_V1").
Proof.
  etrans; [apply (select_template_serious_order _ _ "N" "Y"); reflexivity|].
  reflexivity.
Defined.

(** X5.  For any configuration, an event whose serious flag is not Y gets the
    non-serious template, whatever the other two flags say; the error is
    raised when that template is not configured. *)
Theorem select_template_not_serious templates event_data serious hosp med_imp :
  flag event_data "serious_event" = Return serious ->
  flag event_data "hospitalization" = Return hosp ->
  flag event_data "other_medically_important" = Return med_imp ->
  serious <> "Y"%string ->
  select_template templates event_data
  = match templates !! "ae_non_serious" with
    | Some t => Return t
    | None => Raise (NoTemplateError serious hosp med_imp (dom templates))
    end.
Proof.
  intros Fs Fh Fm Hne. rewrite (select_template_candidates _ _ _ _ _ Fs Fh Fm).
  destruct (String.eqb_spec serious "Y"); [done|].
  unfold first_configured. cbn. by destruct (templates !! "ae_non_serious").
Qed.

Lemma select_template_not_serious_witness :
  select_template example_templates
    {[ "serious_event" := VStr "n"; "hospitalization" := VStr "Y";
       "other_medically_important" := VStr "Y" ]}
  = Return (example_template "AE_NON_SERIOUS_V1").
Proof.
  etrans; [apply (select_template_not_serious example_templates _ "N" "Y" "Y");
           try reflexivity; discriminate|].
  reflexivity.
Defined.

(** X6.  [select_template] raises its error exactly when no candidate of the
    event is configured; the error names the three flags as read and the
    configured keys; and a template it returns is one of the configuration. *)
Theorem select_template_error_iff templates event_data serious hosp med_imp :
  flag event_data "serious_event" = Return serious ->
  flag event_data "hospitalization" = Return hosp ->
  flag event_data "other_medically_important" = Return med_imp ->
  let candidates :=
    if String.eqb serious "Y" then sae_candidates hosp else ["ae_non_serious"%string] in
  (select_template templates event_data
   = Raise (NoTemplateError serious hosp med_imp (dom templates))
   <-> forall key, In key candidates -> templates !! key = None)
  /\ (forall t, select_template templates event_data = Return t ->
        exists key, In key candidates /\ templates !! key = Some t)
  /\ (forall e, select_template templates event_data = Raise e ->
        e = NoTemplateError serious hosp med_imp (dom templates)).
Proof.
  intros Fs Fh Fm candidates.
  rewrite (select_template_candidates _ _ _ _ _ Fs Fh Fm). fold candidates.
  unfold first_configured. clearbody candidates.
  induction candidates as [|key keys IH]; cbn.
  - split; [|split]; [split; [by intros _ ? [] | done] | done | by intros e [= <-]].
  - destruct (templates !! key) as [t|] eqn:Hkey; cbn.
    + split; [|split].
      * split; [done|]. intros H. specialize (H key (or_introl eq_refl)). congruence.
      * intros t' [= <-]. eauto.
      * done.
    + destruct IH as (IH1 & IH2 & IH3). split; [|split].
      * rewrite IH1. split.
        -- intros H k [<- | Hin]; [done|by apply H].
        -- intros H k Hin. apply H. by right.
      * intros t Ht. destruct (IH2 t Ht) as (k & Hin & Hk). eauto.
      * done.
Qed.

Lemma select_template_error_iff_witness :
  select_template {[ "sae_medically_important" := example_template "SAE_MED_IMP_V1" ]}
    {[ "serious_event" := VStr "Y"; "hospitalization" := VStr "Y" ]}
  = Raise (NoTemplateError "Y" "Y" ""
             (dom ({[ "sae_medically_important" := example_template "SAE_MED_IMP_V1" ]}
                     : gmap string narrative_template))).
Proof.
  refine (proj2 (proj1 (select_template_error_iff
                  {[ "sae_medically_important" := example_template "SAE_MED_IMP_V1" ]}
                  {[ "serious_event" := VStr "Y"; "hospitalization" := VStr "Y" ]}
                  "Y" "Y" "" _ _ _)) _); try (vm_compute; reflexivity).
  intros key [<- | [<- | [<- | []]]]; reflexivity.
Defined.

(** X7.  A flag holding a value that is truthy and not a string, a non-zero
    integer or a NaN, has no [upper]: selection raises [AttributeError],
    whatever the configuration. *)
Theorem select_template_flag_not_string templates event_data key value :
  key = "serious_event"%string \/ key = "hospitalization"%string
  \/ key = "other_medically_important"%string ->
  event_data !! key = Some value ->
  (exists z, value = VInt z /\ z <> 0) \/ value = VNaN ->
  select_template templates event_data = Raise AttributeError.
Proof.
  intros Hkey Hv Hval.
  assert (flag event_data key = Raise AttributeError) as Hflag.
  { unfold flag, py_get, py_or. rewrite Hv. cbn.
    destruct Hval as [(z & -> & Hz) | ->]; [|done]. cbn.
    by destruct (Z.eqb_spec z 0). }
  assert (forall k, flag event_data k = Raise AttributeError
                    \/ exists s, flag event_data k = Return s) as Hcases.
  { intros k. unfold flag. destruct (py_or _ _); eauto. }
  unfold select_template.
  destruct (Hcases "serious_event"%string) as [-> | [s Hs]]; [done|].
  destruct (Hcases "hospitalization"%string) as [Hh | [h Hh]];
    [by rewrite Hs, Hh|].
  destruct (Hcases "other_medically_important"%string) as [Hm | [m Hm]];
    [by rewrite Hs, Hh, Hm|].
  destruct Hkey as [-> | [-> | ->]]; congruence.
Qed.

Lemma select_template_flag_not_string_witness :
  select_template example_templates
    {[ "serious_event" := VStr "Y"; "hospitalization" := VInt 1 ]}
  = Raise AttributeError.
Proof.
  apply (select_template_flag_not_string _ _ "hospitalization" (VInt 1)).
  - right. by left.
  - reflexivity.
  - left. exists 1. split; [reflexivity|discriminate].
Defined.

(** ** Template filling: literal text, composition, malformed templates *)

Lemma vformat_from_literal kwargs s :
  brace_free s = true ->
  Formatter.vformat_from kwargs Formatter.Literal s = Return s.
Proof.
  induction s as [|c s IH]; [done|]. cbn. intros H.
  apply andb_prop in H as [Hc Hs]. apply negb_true_iff in Hc.
  apply orb_false_elim in Hc as [-> ->]. by rewrite (IH Hs).
Qed.

(** X8.  A template without braces is returned as it is, whatever the field
    mapping holds. *)
Theorem fill_template_literal template_text field_values :
  brace_free (chars template_text) = true ->
  fill_template template_text field_values = Return template_text.
Proof.
  intros H. rewrite fill_template_vformat. unfold Formatter.vformat.
  rewrite (vformat_from_literal _ _ H). cbn. by rewrite unchars_chars.
Qed.

Lemma fill_template_literal_witness :
  fill_template "No concomitant medications were reported."
    {[ "age" := VInt 74 ]}
  = Return "No concomitant medications were reported.".
Proof. apply fill_template_literal. reflexivity. Defined.













(** ** Template filling: missing values and braces *)

Lemma vformat_from_ext kwargs kwargs' :
  (forall x, kwargs x = kwargs' x) ->
  forall s st, Formatter.vformat_from kwargs st s = Formatter.vformat_from kwargs' st s.
Proof.
  intros H. induction s as [|c s IH]; intros st; [done|].
  destruct st; cbn -[Formatter.get_integer]; unfold Formatter.get_field;
    repeat match goal with
           | |- context [if ?b then _ else _] => destruct b
           | |- context [match Formatter.get_integer ?x with _ => _ end] =>
               destruct (Formatter.get_integer x)
           end; rewrite ?H, ?IH; reflexivity.
Qed.

(** X11.  A field whose value is missing ([None], the empty string, ["nan"] or
    ["NaN"]) fills every template as if the field mapping had no entry for
    it. *)
Theorem fill_template_missing_as_absent template_text field_values key value :
  is_missing_value value = true ->
  fill_template template_text (<[key := value]> field_values)
  = fill_template template_text (delete key field_values).
Proof.
  intros Hv. rewrite !fill_template_vformat. unfold Formatter.vformat.
  rewrite (vformat_from_ext _ (_SafeDict.__getitem__ (safe_value <$> delete key field_values)));
    [done|].
  intros x. rewrite !safe_getitem_returns, !lookup_fmap.
  rewrite lookup_insert, lookup_delete.
  destruct (decide (key = x)); [|done]. cbn. unfold safe_value. by rewrite Hv.
Qed.

Lemma fill_template_missing_as_absent_witness :
  fill_template "Outcome: {outcome}." {[ "outcome" := VStr "nan" ]}
  = fill_template "Outcome: {outcome}." ∅.
Proof.
  exact (fill_template_missing_as_absent "Outcome: {outcome}." ∅ "outcome" (VStr "nan")
           eq_refl).
Defined.







(** ** Dates: parsing what was formatted *)

Local Open Scope nat_scope.

Lemma p_bind_head {A B} (p : Datetime.parser A) (f : A -> Datetime.parser B)
    s a r tl x tl' :
  p s = (a, r) :: tl -> f a r = x :: tl' ->
  exists tl'', Datetime.p_bind p f s = x :: tl''.
Proof. unfold Datetime.p_bind. intros -> Hf. cbn. rewrite Hf. cbn. eauto. Qed.

Lemma p_char_dash rest :
  Datetime.p_char "-" ("-"%char :: rest) = [("-"%char, rest)].
Proof. reflexivity. Qed.

(** A year of four digits is written as those four digits. *)
Definition year_check (y : nat) : bool :=
  match Datetime.year_digits y with
  | [c1; c2; c3; c4] =>
      (is_digit c1 && is_digit c2 && is_digit c3 && is_digit c4
       && Nat.eqb (100 * (10 * Datetime.digit_val c1 + Datetime.digit_val c2)
                   + (10 * Datetime.digit_val c3 + Datetime.digit_val c4)) y)%bool
  | _ => false
  end.

Lemma year_checks : forallb year_check (seq (10 * 100) (90 * 100)) = true.
Proof. vm_compute. reflexivity. Qed.

Lemma re_Y_year_digits y rest :
  10 * 100 <= y -> y < 100 * 100 ->
  Datetime.re_Y (Datetime.year_digits y ++ rest) = [(y, rest)].
Proof.
  intros Hlo Hhi.
  pose proof year_checks as H. rewrite forallb_forall in H.
  specialize (H y ltac:(apply in_seq; lia)). unfold year_check in H.
  destruct (Datetime.year_digits y) as [|c1 [|c2 [|c3 [|c4 [|]]]]]; try done.
  do 4 (apply andb_prop in H as [H ?]).
  apply Nat.eqb_eq in H0.
  unfold Datetime.re_Y, Datetime.two, Datetime.p_bind, Datetime.p_class, Datetime.p_ret.
  cbn [app map concat]. rewrite H. cbn [app map concat]. rewrite H3.
  cbn [app map concat]. rewrite H2. cbn [app map concat]. rewrite H1.
  cbn [app map concat]. by rewrite H0.
Qed.

Lemma re_m_pad2 m rest :
  1 <= m -> m <= 12 ->
  exists tl, Datetime.re_m (Datetime.pad2 m ++ rest) = (m, rest) :: tl.
Proof.
  intros Hlo Hhi. destruct m as [|m]; [lia|].
  do 12 (destruct m as [|m]; [eexists; vm_compute; reflexivity|]). lia.
Qed.

Lemma re_d_pad2 d rest :
  1 <= d -> d <= 31 ->
  exists tl, Datetime.re_d (Datetime.pad2 d ++ rest) = (d, rest) :: tl.
Proof.
  intros Hlo Hhi. destruct d as [|d]; [lia|].
  do 31 (destruct d as [|d]; [eexists; vm_compute; reflexivity|]). lia.
Qed.

Lemma re_b_month_abbr m rest :
  1 <= m -> m <= 12 ->
  exists tl, Datetime.re_b (chars (nth (m - 1) Datetime.month_abbr ""%string) ++ rest)
             = (m, rest) :: tl.
Proof.
  intros Hlo Hhi. destruct m as [|m]; [lia|].
  do 12 (destruct m as [|m]; [eexists; vm_compute; reflexivity|]). lia.
Qed.

Lemma valid_date_bounds d :
  Datetime.valid_date d = true ->
  1 <= Datetime.month d /\ Datetime.month d <= 12
  /\ 1 <= Datetime.day d /\ Datetime.day d <= 31.
Proof.
  unfold Datetime.valid_date. intros H.
  repeat (apply andb_prop in H as [H ?]).
  repeat match goal with
         | Hb : (_ <=? _) = true |- _ => apply Nat.leb_le in Hb
         end.
  assert (Datetime.days_in_month (Datetime.year d) (Datetime.month d) <= 31).
  { unfold Datetime.days_in_month.
    destruct (Datetime.month d) as [|[|[|[|[|[|[|[|[|[|[|[|[|]]]]]]]]]]]]]; try lia.
    destruct (Datetime.is_leap _); lia. }
  lia.
Qed.

Lemma finish_head d tl :
  Datetime.valid_date d = true -> Datetime.finish ((d, []) :: tl) = Some d.
Proof. intros H. cbn. by rewrite H. Qed.

Lemma p_bind_cons {A B} (p : Datetime.parser A) (f : A -> Datetime.parser B)
    s a r tl :
  p s = (a, r) :: tl ->
  Datetime.p_bind p f s = f a r ++ concat (map (fun '(a, r) => f a r) tl).
Proof. unfold Datetime.p_bind. by intros ->. Qed.

Lemma strptime_Ymd_strftime_Ymd d :
  Datetime.valid_date d = true ->
  10 * 100 <= Datetime.year d -> Datetime.year d < 100 * 100 ->
  Datetime.strptime_Ymd (Datetime.strftime_Ymd d) = Some d.
Proof.
  intros Hv Hlo Hhi. destruct (valid_date_bounds d Hv) as (Hm1 & Hm2 & Hd1 & Hd2).
  unfold Datetime.strptime_Ymd, Datetime.strftime_Ymd.
  destruct (re_d_pad2 (Datetime.day d) [] Hd1 Hd2) as [tld Hday].
  rewrite app_nil_r in Hday.
  destruct (re_m_pad2 (Datetime.month d) ("-"%char :: Datetime.pad2 (Datetime.day d))
              Hm1 Hm2) as [tlm Hmonth].
  rewrite (p_bind_cons _ _ _ _ _ _ (re_Y_year_digits _ _ Hlo Hhi)).
  rewrite (p_bind_cons _ _ _ _ _ _ (p_char_dash _)).
  rewrite (p_bind_cons _ _ _ _ _ _ Hmonth).
  rewrite (p_bind_cons _ _ _ _ _ _ (p_char_dash _)).
  rewrite (p_bind_cons _ _ _ _ _ _ Hday).
  unfold Datetime.p_ret. cbn [app]. destruct d. cbn in Hv |- *. by rewrite Hv.
Qed.

Lemma strptime_dbY_strftime_dbY d :
  Datetime.valid_date d = true ->
  10 * 100 <= Datetime.year d -> Datetime.year d < 100 * 100 ->
  Datetime.strptime_dbY (Datetime.strftime_dbY d) = Some d.
Proof.
  intros Hv Hlo Hhi. destruct (valid_date_bounds d Hv) as (Hm1 & Hm2 & Hd1 & Hd2).
  unfold Datetime.strptime_dbY, Datetime.strftime_dbY.
  pose proof (re_Y_year_digits (Datetime.year d) [] Hlo Hhi) as Hyear.
  rewrite app_nil_r in Hyear.
  destruct (re_d_pad2 (Datetime.day d)
              ("-"%char :: chars (nth (Datetime.month d - 1) Datetime.month_abbr ""%string)
                 ++ "-"%char :: Datetime.year_digits (Datetime.year d)) Hd1 Hd2)
    as [tld Hday].
  destruct (re_b_month_abbr (Datetime.month d)
              ("-"%char :: Datetime.year_digits (Datetime.year d)) Hm1 Hm2)
    as [tlm Hmonth].
  rewrite (p_bind_cons _ _ _ _ _ _ Hday).
  rewrite (p_bind_cons _ _ _ _ _ _ (p_char_dash _)).
  rewrite (p_bind_cons _ _ _ _ _ _ Hmonth).
  rewrite (p_bind_cons _ _ _ _ _ _ (p_char_dash _)).
  rewrite (p_bind_cons _ _ _ _ _ _ Hyear).
  unfold Datetime.p_ret. cbn [app]. destruct d. cbn in Hv |- *. by rewrite Hv.
Qed.

Lemma in_p_bind {A B} (p : Datetime.parser A) (f : A -> Datetime.parser B) s x :
  In x (Datetime.p_bind p f s) ->
  exists a r, In (a, r) (p s) /\ In x (f a r).
Proof.
  unfold Datetime.p_bind. intros H. apply in_concat in H as (l & Hl & Hx).
  apply in_map_iff in Hl as ([a r] & <- & Hin). eauto.
Qed.

Lemma in_p_class ok s c r :
  In (c, r) (Datetime.p_class ok s) -> s = c :: r /\ ok c = true.
Proof.
  unfold Datetime.p_class. destruct s as [|c' r']; [done|].
  destruct (ok c') eqn:E; [|done]. by intros [[= <- <-] | []].
Qed.

Lemma in_two hi lo s n r :
  In (n, r) (Datetime.two hi lo s) ->
  exists a b, s = a :: b :: r /\ hi a = true /\ lo b = true
    /\ n = 10 * Datetime.digit_val a + Datetime.digit_val b.
Proof.
  unfold Datetime.two. intros H.
  apply in_p_bind in H as (a & r1 & Ha & H). apply in_p_class in Ha as [-> Ha].
  apply in_p_bind in H as (b & r2 & Hb & H). apply in_p_class in Hb as [-> Hb].
  destruct H as [[= <- <-] | []]. eauto 10.
Qed.

Lemma digit_val_bound c : is_digit c = true -> Datetime.digit_val c <= 9.
Proof.
  intros H. apply Nat.leb_le. revert H. clear. by each_char c.
Qed.

Lemma in_re_Y s y r :
  In (y, r) (Datetime.re_Y s) ->
  y < 100 * 100
  /\ exists c1 c2 c3 c4, s = c1 :: c2 :: c3 :: c4 :: r
       /\ Forall (fun c => is_digit c = true) [c1; c2; c3; c4].
Proof.
  unfold Datetime.re_Y. intros H.
  apply in_p_bind in H as (hi & r1 & Hhi & H).
  apply in_two in Hhi as (c1 & c2 & -> & H1 & H2 & ->).
  apply in_p_bind in H as (lo & r2 & Hlo & H).
  apply in_two in Hlo as (c3 & c4 & -> & H3 & H4 & ->).
  destruct H as [[= <- <-] | []].
  split; [|exists c1, c2, c3, c4; by repeat constructor].
  apply digit_val_bound in H1, H2, H3, H4. lia.
Qed.

Lemma finish_in l d : Datetime.finish l = Some d -> In (d, []) l.
Proof.
  unfold Datetime.finish. destruct l as [|[d' [|]] l]; try done.
  destruct (Datetime.valid_date d'); [|done]. intros [= <-]. by left.
Qed.

(** A date that [strptime] returns has a year below 10000. *)
Lemma strptime_Ymd_year s d :
  Datetime.strptime_Ymd s = Some d -> Datetime.year d < 100 * 100.
Proof.
  unfold Datetime.strptime_Ymd. intros H. apply finish_in in H.
  apply in_p_bind in H as (y & r1 & Hy & H). apply in_re_Y in Hy as [Hy _].
  apply in_p_bind in H as (? & r2 & _ & H).
  apply in_p_bind in H as (m & r3 & _ & H).
  apply in_p_bind in H as (? & r4 & _ & H).
  apply in_p_bind in H as (dd & r5 & _ & H).
  by destruct H as [[= <- _] | []].
Qed.

Lemma strptime_dbY_year s d :
  Datetime.strptime_dbY s = Some d -> Datetime.year d < 100 * 100.
Proof.
  unfold Datetime.strptime_dbY. intros H. apply finish_in in H.
  apply in_p_bind in H as (dd & r1 & _ & H).
  apply in_p_bind in H as (? & r2 & _ & H).
  apply in_p_bind in H as (m & r3 & _ & H).
  apply in_p_bind in H as (? & r4 & _ & H).
  apply in_p_bind in H as (y & r5 & Hy & H). apply in_re_Y in Hy as [Hy _].
  by destruct H as [[= <- _] | []].
Qed.

(** [%Y-%m-%d] does not parse a date of the form [DD-Mon-YYYY]. *)
Lemma strptime_Ymd_date_text x : date_text x -> Datetime.strptime_Ymd x = None.
Proof.
  intros [d1 d2 mon ys Hd1 Hd2 Hmon Hys Hall].
  unfold Datetime.strptime_Ymd. rewrite p_bind_nil; [done|].
  intros y r Hin. apply in_re_Y in Hin as (_ & c1 & c2 & c3 & c4 & Heq & Hdig).
  cbn in Heq. injection Heq as _ _ <- _.
  apply Forall_cons in Hdig as [_ Hdig]. apply Forall_cons in Hdig as [_ Hdig].
  by apply Forall_cons in Hdig as [Hdig _].
Qed.

(** A year below 1000 is written with fewer than four digits, which [%Y]
    does not parse. *)
Lemma year_digits_short_checks :
  forallb (fun y => length (Datetime.year_digits y) <? 4) (seq 0 (10 * 100)) = true.
Proof. vm_compute. reflexivity. Qed.

Lemma re_Y_short_year y :
  y < 10 * 100 -> Datetime.re_Y (Datetime.year_digits y) = [].
Proof.
  intros Hy. pose proof year_digits_short_checks as H. rewrite forallb_forall in H.
  specialize (H y ltac:(apply in_seq; lia)). apply Nat.ltb_lt in H.
  destruct (Datetime.re_Y (Datetime.year_digits y)) as [|[y' r] l] eqn:E; [done|].
  assert (In (y', r) (Datetime.re_Y (Datetime.year_digits y))) as Hin
    by (rewrite E; by left).
  apply in_re_Y in Hin as (_ & c1 & c2 & c3 & c4 & Heq & _).
  rewrite Heq in H. cbn in H. lia.
Qed.

Lemma in_p_word_ci w : forall s u r,
  In (u, r) (Datetime.p_word_ci w s) -> r = drop (length w) s.
Proof.
  induction w as [|c w IH]; intros s u r H.
  - destruct H as [[= _ <-] | []]. done.
  - cbn in H. apply in_p_bind in H as (x & r1 & Hx & H).
    apply in_p_class in Hx as [-> _]. by apply IH in H.
Qed.

Lemma in_re_b_from names : forall i s m r,
  In (m, r) (Datetime.re_b_from i names s) ->
  exists n, In n names /\ r = drop (length (chars n)) s.
Proof.
  induction names as [|n names IH]; intros i s m r H; [done|].
  cbn in H. unfold Datetime.p_alt in H. apply in_app_or in H as [H | H].
  - apply in_p_bind in H as (u & r1 & Hu & H). apply in_p_word_ci in Hu.
    destruct H as [[= _ <-] | []]. exists n. split; [by left|done].
  - apply IH in H as (n' & Hn' & ->). exists n'. split; [by right|done].
Qed.

Lemma in_re_b s m r : In (m, r) (Datetime.re_b s) -> r = drop 3 s.
Proof.
  intros H. apply in_re_b_from in H as (n & Hn & ->).
  cbn in Hn. by repeat (destruct Hn as [<- | Hn]; [done|]).
Qed.

Lemma strptime_dbY_short_year d :
  Datetime.valid_date d = true -> Datetime.year d < 10 * 100 ->
  Datetime.strptime_dbY (Datetime.strftime_dbY d) = None.
Proof.
  intros Hv Hy. pose proof (valid_date_month d Hv) as Hmon.
  destruct (month_abbr_letters _ Hmon) as (M1 & M2 & M3 & HM & _).
  unfold Datetime.strptime_dbY, Datetime.strftime_dbY, Datetime.pad2.
  rewrite HM. cbn [app]. rewrite p_bind_nil; [done|].
  intros dd r Hin. apply re_d_rest in Hin.
  apply p_bind_nil. intros u r1 Hu. unfold Datetime.p_char in Hu.
  apply in_p_class in Hu as [Hr Hdash].
  apply Ascii.eqb_eq in Hdash. subst u.
  destruct Hin as [-> | ->].
  { injection Hr as Hbad _. pose proof (is_digit_digit_char (Datetime.day d)) as Hd.
    by rewrite Hbad in Hd. }
  injection Hr as <-.
  apply p_bind_nil. intros m r2 Hm. apply in_re_b in Hm. cbn in Hm. subst r2.
  apply p_bind_nil. intros u r3 Hu. unfold Datetime.p_char in Hu.
  apply in_p_class in Hu as [Heq _]. injection Heq as <- <-.
  apply p_bind_nil. intros y r4 Hin. by rewrite re_Y_short_year in Hin.
Qed.

Lemma parse_date_year value d :
  _parse_date value = Some d -> Datetime.year d < 100 * 100.
Proof.
  unfold _parse_date. destruct value as [|s| |]; try done.
  destruct (Datetime.strptime_Ymd (chars s)) eqn:E.
  - intros [= <-]. by eapply strptime_Ymd_year.
  - apply strptime_dbY_year.
Qed.

(** X13.  Parsing what was formatted gives the date back: [strptime] undoes
    [strftime] for both formats, on every calendar date with a year of four
    digits; so [_parse_date] reads the ISO text the loader stores and the
    text [format_field] shows as the same date. *)
Theorem strptime_strftime_round_trip d :
  Datetime.valid_date d = true ->
  (1000 <= Z.of_nat (Datetime.year d) <= 9999)%Z ->
  Datetime.strptime_Ymd (Datetime.strftime_Ymd d) = Some d
  /\ Datetime.strptime_dbY (Datetime.strftime_dbY d) = Some d
  /\ _parse_date (VStr (unchars (Datetime.strftime_Ymd d))) = Some d
  /\ _parse_date (VStr (unchars (Datetime.strftime_dbY d))) = Some d.
Proof.
  intros Hv Hy.
  assert (Datetime.strptime_Ymd (Datetime.strftime_Ymd d) = Some d) as H1
    by (apply strptime_Ymd_strftime_Ymd; [done|lia..]).
  assert (Datetime.strptime_dbY (Datetime.strftime_dbY d) = Some d) as H2
    by (apply strptime_dbY_strftime_dbY; [done|lia..]).
  repeat split; try done; unfold _parse_date; rewrite chars_unchars.
  - by rewrite H1.
  - by rewrite (strptime_Ymd_date_text _ (strftime_dbY_date_text _ Hv)).
Qed.

Lemma strptime_strftime_round_trip_witness :
  _parse_date (VStr "2024-02-29")
  = Some {| Datetime.year := 2024; Datetime.month := 2; Datetime.day := 29 |}
  /\ _parse_date (VStr "29-Feb-2024")
     = Some {| Datetime.year := 2024; Datetime.month := 2; Datetime.day := 29 |}.
Proof.
  pose proof (strptime_strftime_round_trip
                {| Datetime.year := 2024; Datetime.month := 2; Datetime.day := 29 |}
                eq_refl ltac:(cbn; lia)) as (_ & _ & H1 & H2).
  split; [exact H1|exact H2].
Defined.

Lemma format_field_eq value config :
  format_field value config
  = if bool_decide (format config = Some "date"%string) then
      match _parse_date value with
      | Some parsed => VStr (unchars (Datetime.strftime_dbY parsed))
      | None => value
      end
    else value.
Proof. unfold format_field. destruct value; try done. by destruct (bool_decide _). Qed.

(** X14.  [format_field] is idempotent: formatting a formatted value changes
    nothing, for every value and every field configuration. *)
Theorem format_field_idempotent value config :
  format_field (format_field value config) config = format_field value config.
Proof.
  rewrite !format_field_eq.
  destruct (bool_decide (format config = Some "date"%string)) eqn:Hfmt; [|done].
  destruct (_parse_date value) as [d|] eqn:Hp; [|by rewrite Hp].
  pose proof (parse_date_valid _ _ Hp) as Hv.
  pose proof (parse_date_year _ _ Hp) as Hy.
  unfold _parse_date. rewrite chars_unchars.
  rewrite (strptime_Ymd_date_text _ (strftime_dbY_date_text _ Hv)).
  destruct (decide (Datetime.year d < 10 * 100)) as [Hshort | Hlong].
  - by rewrite strptime_dbY_short_year.
  - by rewrite strptime_dbY_strftime_dbY by (done || lia).
Qed.

Lemma format_field_idempotent_example :
  format_field (VStr "0999-01-05") (date_config "start_date" "adverse_events" "start_date")
  = VStr "05-Jan-999"
  /\ format_field (VStr "05-Jan-999")
       (date_config "start_date" "adverse_events" "start_date")
     = VStr "05-Jan-999".
Proof. by vm_compute. Qed.

Lemma strftime_Ymd_iso_token d :
  Datetime.valid_date d = true ->
  10 * 100 <= Datetime.year d -> Datetime.year d < 100 * 100 ->
  iso_token (Datetime.strftime_Ymd d).
Proof.
  intros Hv Hlo Hhi. unfold Datetime.strftime_Ymd, Datetime.pad2.
  pose proof year_checks as H. rewrite forallb_forall in H.
  specialize (H (Datetime.year d) ltac:(apply in_seq; lia)). unfold year_check in H.
  destruct (Datetime.year_digits (Datetime.year d)) as [|c1 [|c2 [|c3 [|c4 [|]]]]];
    try done.
  do 4 (apply andb_prop in H as [H ?]).
  split; [|done]. cbn. rewrite H, H3, H2, H1, !is_digit_digit_char. done.
Qed.

(** X15.  A date the loader stores is shown as the same date: [_clean_date]
    writes a timestamp as an ISO token, and both [format_field] and rule 2
    turn that token into the [DD-Mon-YYYY] text of the same calendar date. *)
Theorem clean_date_then_format_field d config :
  Datetime.valid_date d = true ->
  (1000 <= Z.of_nat (Datetime.year d) <= 9999)%Z ->
  format config = Some "date"%string ->
  exists iso,
    ADAELoader._clean_date (ADAELoader.Timestamp d) = Return (VStr iso)
    /\ iso_token (chars iso)
    /\ format_field (VStr iso) config = VStr (unchars (Datetime.strftime_dbY d))
    /\ _date_repl (chars iso) = Datetime.strftime_dbY d.
Proof.
  intros Hv Hy Hfmt. exists (unchars (Datetime.strftime_Ymd d)).
  assert (Datetime.strptime_Ymd (Datetime.strftime_Ymd d) = Some d) as H1
    by (apply strptime_Ymd_strftime_Ymd; [done|lia..]).
  rewrite chars_unchars. repeat split.
  - apply strftime_Ymd_iso_token; [done|lia..].
  - apply strftime_Ymd_iso_token; [done|lia..].
  - unfold format_field, _parse_date.
    by rewrite Hfmt, bool_decide_eq_true_2, chars_unchars, H1.
  - unfold _date_repl. by rewrite H1.
Qed.

Lemma clean_date_then_format_field_witness :
  format_field (VStr "2023-01-05") (date_config "start_date" "adverse_events" "start_date")
  = VStr "05-Jan-2023".
Proof.
  destruct (clean_date_then_format_field
              {| Datetime.year := 2023; Datetime.month := 1; Datetime.day := 5 |}
              (date_config "start_date" "adverse_events" "start_date")
              eq_refl ltac:(cbn; lia) eq_refl) as (iso & Hiso & _ & H & _).
  vm_compute in Hiso. injection Hiso as <-. exact H.
Defined.

Local Close Scope nat_scope.

(** ** The order of the paragraphs *)

Definition by_number (p q : paragraph) : Prop := number p <= number q.

Lemma insert_paragraph_perm p l : insert_paragraph p l ≡ₚ p :: l.
Proof.
  induction l as [|q l IH]; [done|]. cbn.
  destruct (number p <=? number q); [done|]. by rewrite IH, Permutation_swap.
Qed.

Lemma sorted_paragraphs_perm ps : sorted_paragraphs ps ≡ₚ ps.
Proof.
  induction ps as [|p ps IH]; [done|]. cbn.
  by rewrite insert_paragraph_perm, IH.
Qed.

Lemma insert_paragraph_sorted p l :
  StronglySorted by_number l -> StronglySorted by_number (insert_paragraph p l).
Proof.
  induction 1 as [|q l Hl IH Hq]; cbn; [by repeat constructor|].
  destruct (Z.leb_spec (number p) (number q)) as [Hle | Hgt].
  - constructor; [by constructor|]. constructor; [done|].
    eapply Forall_impl; [exact Hq|]. unfold by_number. intros; cbn in *. lia.
  - constructor; [done|]. rewrite insert_paragraph_perm.
    constructor; [unfold by_number; lia|done].
Qed.

Lemma sorted_paragraphs_sorted ps : StronglySorted by_number (sorted_paragraphs ps).
Proof.
  induction ps as [|p ps IH]; [constructor|]. by apply insert_paragraph_sorted.
Qed.

Lemma insert_paragraph_filter n p l :
  StronglySorted by_number l ->
  filter (fun q => number q = n) (insert_paragraph p l)
  = filter (fun q => number q = n) (p :: l).
Proof.
  induction 1 as [|q l Hl IH Hq]; [done|]. cbn [insert_paragraph].
  destruct (Z.leb_spec (number p) (number q)) as [Hle | Hgt]; [done|].
  rewrite filter_cons, IH, !filter_cons.
  destruct (decide (number q = n)) as [Hqn | ?]; [|done].
  destruct (decide (number p = n)) as [Hpn | ?]; [lia|done].
Qed.

(** X16.  [generate_narrative] takes the paragraphs in ascending order of their
    numbers: the sorted list holds the configured paragraphs, each as often
    as configured; numbers never decrease along it; and paragraphs that
    share a number keep the order of the configuration. *)
Theorem sorted_paragraphs_stable_sort ps :
  sorted_paragraphs ps ≡ₚ ps
  /\ StronglySorted (fun p q => number p <= number q) (sorted_paragraphs ps)
  /\ forall n, filter (fun p => number p = n) (sorted_paragraphs ps)
               = filter (fun p => number p = n) ps.
Proof.
  split; [apply sorted_paragraphs_perm|]. split; [apply sorted_paragraphs_sorted|].
  intros n. induction ps as [|p ps IH]; [done|]. cbn [sorted_paragraphs foldr].
  rewrite insert_paragraph_filter by apply sorted_paragraphs_sorted.
  fold (sorted_paragraphs ps). by rewrite !filter_cons, IH.
Qed.

Lemma sorted_unique (l l' : list paragraph) :
  StronglySorted by_number l -> StronglySorted by_number l' ->
  NoDup (number <$> l) -> l ≡ₚ l' -> l = l'.
Proof.
  intros Hl. revert l'. induction Hl as [|a l Hl IH Ha]; intros l' Hl' Hnd Hperm.
  - by apply Permutation_nil_l in Hperm.
  - destruct Hl' as [|b l' Hl' Hb].
    { by apply Permutation_nil_r in Hperm. }
    apply NoDup_cons in Hnd as [Hna Hnd].
    assert (a = b) as <-.
    { assert (a ∈ b :: l') as Ha' by (rewrite <- Hperm; left).
      assert (b ∈ a :: l) as Hb' by (rewrite Hperm; left).
      apply elem_of_cons in Ha' as [? | Ha']; [done|].
      apply elem_of_cons in Hb' as [? | Hb']; [done|exfalso].
      rewrite Forall_forall in Ha, Hb.
      pose proof (Ha b Hb') as H1. pose proof (Hb a Ha') as H2.
      unfold by_number in H1, H2.
      apply Hna. replace (number a) with (number b) by lia.
      by apply list_elem_of_fmap_2. }
    f_equal. apply IH; [done|done|]. by apply Permutation_cons_inv in Hperm.
Qed.

Lemma sorted_paragraphs_permuted ps ps' :
  NoDup (number <$> ps) -> ps ≡ₚ ps' -> sorted_paragraphs ps = sorted_paragraphs ps'.
Proof.
  intros Hnd Hperm. apply sorted_unique; try apply sorted_paragraphs_sorted.
  - by rewrite sorted_paragraphs_perm.
  - by rewrite !sorted_paragraphs_perm.
Qed.

Lemma flag_cases event_data key :
  flag event_data key = Raise AttributeError
  \/ exists s, flag event_data key = Return s.
Proof. unfold flag. destruct (py_or _ _); eauto. Qed.

Lemma first_configured_insert templates key T T' keys :
  first_configured (<[key := T]> templates) keys
  = first_configured (<[key := T']> templates) keys
  \/ (first_configured (<[key := T]> templates) keys = Some T
      /\ first_configured (<[key := T']> templates) keys = Some T').
Proof.
  unfold first_configured. induction keys as [|k keys IH]; [by left|]. cbn.
  rewrite !lookup_insert. destruct (decide (key = k)); cbn; [by right|].
  destruct (templates !! k); cbn; [by left|done].
Qed.

Lemma select_template_insert templates event_data key T T' :
  select_template (<[key := T]> templates) event_data
  = select_template (<[key := T']> templates) event_data
  \/ (select_template (<[key := T]> templates) event_data = Return T
      /\ select_template (<[key := T']> templates) event_data = Return T').
Proof.
  destruct (flag_cases event_data "serious_event") as [Hs | [s Hs]].
  { left. unfold select_template. by rewrite Hs. }
  destruct (flag_cases event_data "hospitalization") as [Hh | [h Hh]].
  { left. unfold select_template. by rewrite Hs, Hh. }
  destruct (flag_cases event_data "other_medically_important") as [Hm | [m Hm]].
  { left. unfold select_template. by rewrite Hs, Hh, Hm. }
  rewrite !(select_template_candidates _ _ _ _ _ Hs Hh Hm).
  rewrite !dom_insert_L.
  destruct (first_configured_insert templates key T T'
              (if String.eqb s "Y" then sae_candidates h else ["ae_non_serious"%string]))
    as [-> | [-> ->]]; [by left|by right].
Qed.

(** X17.  The narrative does not depend on the order in which a template lists
    its paragraphs, as long as their numbers are distinct: two
    configurations that differ in that order only give the same result, with
    or without an enhancer. *)
Theorem generate_narrative_paragraph_order templates config enh r key id ps ps' :
  NoDup (number <$> ps) -> ps ≡ₚ ps' ->
  generate_narrative (<[key := {| template_id := id; paragraphs := ps |}]> templates)
    config enh r
  = generate_narrative (<[key := {| template_id := id; paragraphs := ps' |}]> templates)
      config enh r.
Proof.
  intros Hnd Hperm. unfold generate_narrative, baseline_narrative.
  destruct (select_template_insert templates (default ∅ (event_data r)) key
              {| template_id := id; paragraphs := ps |}
              {| template_id := id; paragraphs := ps' |}) as [-> | [-> ->]]; [done|].
  cbn -[sorted_paragraphs]. rewrite (sorted_paragraphs_permuted ps ps' Hnd Hperm).
  by destruct (generate_paragraphs _ _).
Qed.

Definition numbered (n : Z) (text : string) : paragraph :=
  {| number := n; template := text; variations := None |}.

Lemma generate_narrative_paragraph_order_witness :
  generate_narrative
    {[ "ae_non_serious" :=
         {| template_id := "AE_NON_SERIOUS_V1";
            paragraphs := [numbered 2 "Second."; numbered 1 "First."] |} ]}
    [] None {| subject_data := None; event_data := None; treatment_data := None |}
  = generate_narrative
      {[ "ae_non_serious" :=
           {| template_id := "AE_NON_SERIOUS_V1";
              paragraphs := [numbered 1 "First."; numbered 2 "Second."] |} ]}
      [] None {| subject_data := None; event_data := None; treatment_data := None |}.
Proof.
  apply (generate_narrative_paragraph_order ∅ [] None _ "ae_non_serious"
           "AE_NON_SERIOUS_V1").
  - repeat constructor; cbn; rewrite ?elem_of_cons; [|apply not_elem_of_nil].
    intros [[=] | []%not_elem_of_nil].
  - apply Permutation_swap.
Defined.

(** ** The field mapping *)

Definition map_field (r : rows) (mapped_fields : gmap string pyval)
    (field : field_config) : gmap string pyval :=
  <[name field := field_value r field]> mapped_fields.

Lemma map_all_fields_fold config r :
  map_all_fields config r = fold_left (map_field r) (concat config) ∅.
Proof. reflexivity. Qed.

Lemma fold_map_field_dom r fields : forall m,
  dom (fold_left (map_field r) fields m) = dom m ∪ list_to_set (name <$> fields).
Proof.
  induction fields as [|f fields IH]; intros m; cbn.
  - by rewrite union_empty_r_L.
  - rewrite IH. unfold map_field. rewrite dom_insert_L.
    by rewrite (union_comm_L {[name f]} (dom m)), <- union_assoc_L.
Qed.

Lemma fold_map_field_notin r fields n : forall m,
  n ∉ name <$> fields -> fold_left (map_field r) fields m !! n = m !! n.
Proof.
  induction fields as [|f fields IH]; intros m Hn; [done|]. cbn.
  rewrite fmap_cons, not_elem_of_cons in Hn. destruct Hn as [Hne Hn].
  rewrite IH by done. unfold map_field. by rewrite lookup_insert_ne.
Qed.

Lemma fold_map_field_last r before field after : forall m,
  name field ∉ name <$> after ->
  fold_left (map_field r) (before ++ field :: after) m !! name field
  = Some (field_value r field).
Proof.
  intros m Hn. rewrite fold_left_app. cbn.
  rewrite fold_map_field_notin by done. unfold map_field. by rewrite lookup_insert_eq.
Qed.

(** X18.  The field mapping has an entry for exactly the configured field names,
    whatever rows were found; and the entry of a name is computed from the
    last field configured under that name. *)
Theorem map_all_fields_entries config r :
  dom (map_all_fields config r) = list_to_set (name <$> concat config)
  /\ forall before field after,
       concat config = before ++ field :: after ->
       name field ∉ name <$> after ->
       map_all_fields config r !! name field = Some (field_value r field).
Proof.
  rewrite map_all_fields_fold. split.
  - by rewrite fold_map_field_dom, dom_empty_L, union_empty_l_L.
  - intros before field after -> Hn. by apply fold_map_field_last.
Qed.

Definition sex_and_start_date : list (list field_config) :=
  [[ {| name := "sex"; db_table := "subjects"; db_column := "sex";
        value_map := Some {[ "M" := VStr "male" ]}; format := None |} ];
   [ date_config "start_date" "adverse_events" "start_date" ]].

Lemma map_all_fields_entries_witness :
  map_all_fields sex_and_start_date
    {| subject_data := Some {[ "sex" := VStr "m" ]};
       event_data := Some {[ "start_date" := VStr "2023-01-05" ]};
       treatment_data := None |}
  !! "start_date" = Some (VStr "05-Jan-2023").
Proof.
  refine (proj2 (map_all_fields_entries sex_and_start_date _)
            [_] (date_config "start_date" "adverse_events" "start_date") []
            eq_refl _).
  apply not_elem_of_nil.
Defined.

Lemma field_value_no_rows field : field_value no_rows field = VNone.
Proof.
  unfold field_value.
  assert (raw_value no_rows (db_table field) (db_column field) = VNone) as ->.
  { unfold raw_value, no_rows. cbn. by repeat case_match. }
  done.
Qed.

Lemma fold_map_field_no_rows fields : forall m n v,
  (forall n v, m !! n = Some v -> v = VNone) ->
  fold_left (map_field no_rows) fields m !! n = Some v -> v = VNone.
Proof.
  induction fields as [|f fields IH]; intros m n v Hm; cbn; [apply Hm|].
  apply IH. intros n' v'. unfold map_field. rewrite lookup_insert.
  destruct (decide (name f = n')); [|apply Hm].
  rewrite field_value_no_rows. by intros [= <-].
Qed.

Lemma fill_template_all_missing template_text field_values :
  (forall n v, field_values !! n = Some v -> is_missing_value v = true) ->
  fill_template template_text field_values = fill_template template_text ∅.
Proof.
  intros Hall. rewrite !fill_template_vformat. unfold Formatter.vformat.
  rewrite (vformat_from_ext _ (_SafeDict.__getitem__ (safe_value <$> ∅))); [done|].
  intros x. rewrite !safe_getitem_returns, !lookup_fmap, lookup_empty.
  destruct (field_values !! x) as [v|] eqn:Hx; [|done]. cbn.
  unfold safe_value. by rewrite (Hall _ _ Hx).
Qed.

(** X19.  When no row is found, neither subject nor event nor treatment, every
    configured field maps to [None], and every template is filled as from an
    empty mapping: each placeholder shows the marker and nothing is
    raised for want of data. *)
Theorem map_all_fields_no_rows config template_text :
  (forall n v, map_all_fields config no_rows !! n = Some v -> v = VNone)
  /\ fill_template template_text (map_all_fields config no_rows)
     = fill_template template_text ∅.
Proof.
  assert (forall n v, map_all_fields config no_rows !! n = Some v -> v = VNone) as H.
  { intros n v. rewrite map_all_fields_fold. by apply fold_map_field_no_rows. }
  split; [done|]. apply fill_template_all_missing.
  intros n v Hv. by rewrite (H _ _ Hv).
Qed.

(** ** Whitespace: [strip], the enhancer and the loader *)

Import OpenAINarrativeEnhancer.

Lemma lstrip_all_space s : all_space s = true -> lstrip s = [].
Proof.
  induction s as [|c s IH]; [done|]. cbn. intros [Hc Hs]%andb_prop.
  rewrite Hc. by apply IH.
Qed.

Lemma lstrip_head s c t : head s = Some c -> is_space c = false -> s = c :: t -> lstrip s = s.
Proof. intros _ Hc ->. cbn. by rewrite Hc. Qed.

Lemma lstrip_cases s :
  lstrip s = [] \/ exists c t, lstrip s = c :: t /\ is_space c = false.
Proof.
  induction s as [|c s IH]; [by left|]. cbn.
  destruct (is_space c) eqn:Hc; [done|]. right. eauto.
Qed.

Lemma lstrip_idem s : lstrip (lstrip s) = lstrip s.
Proof.
  destruct (lstrip_cases s) as [-> | (c & t & -> & Hc)]; [done|]. cbn. by rewrite Hc.
Qed.

Lemma lstrip_snoc l c : is_space c = false -> lstrip (l ++ [c]) = lstrip l ++ [c].
Proof.
  intros Hc. induction l as [|x l IH]; cbn; [by rewrite Hc|].
  by destruct (is_space x).
Qed.

(** The two ends of a stripped text. *)
Definition stripped (s : list ascii) : Prop :=
  s = [] \/ exists c t, s = c :: t /\ is_space c = false
                        /\ exists d, last s = Some d /\ is_space d = false.

Lemma strip_chars s :
  chars (strip s) = rev (lstrip (rev (lstrip (chars s)))).
Proof. unfold strip. by rewrite chars_unchars. Qed.

Lemma strip_stripped s : stripped (chars (strip s)).
Proof.
  rewrite strip_chars.
  destruct (lstrip_cases (chars s)) as [-> | (c & t & -> & Hc)]; [by left|].
  right. cbn [rev]. rewrite lstrip_snoc by done. rewrite rev_app_distr. cbn [rev app].
  exists c, (rev (lstrip (rev t))). split; [done|]. split; [done|].
  destruct (lstrip_cases (rev t)) as [-> | (d & u & -> & Hd)]; [by exists c|].
  exists d. split; [|done]. cbn [rev].
  by rewrite app_comm_cons, last_snoc.
Qed.

Lemma strip_fix s : stripped (chars s) -> strip s = s.
Proof.
  intros [Hs | (c & t & Hs & Hc & d & Hd & Hds)].
  - unfold strip. rewrite Hs. cbn. by rewrite <- (unchars_chars s), Hs.
  - unfold strip. rewrite Hs. cbn [lstrip]. rewrite Hc.
    rewrite Hs in Hd.
    assert (exists u, c :: t = u ++ [d]) as [u Hu].
    { destruct (c :: t) as [|x l] eqn:E using rev_ind; [done|].
      rewrite last_snoc in Hd. injection Hd as ->. eauto. }
    rewrite Hu, rev_app_distr. cbn [rev app lstrip]. rewrite Hds.
    change (d :: rev u) with (rev [d] ++ rev u). rewrite <- rev_app_distr, rev_involutive.
    by rewrite <- Hu, <- Hs, unchars_chars.
Qed.

Lemma strip_idem s : strip (strip s) = strip s.
Proof. apply strip_fix, strip_stripped. Qed.

Lemma strip_all_space s : all_space (chars s) = true -> strip s = ""%string.
Proof. intros H. unfold strip. by rewrite (lstrip_all_space _ H). Qed.

(** X20.  What [enhance] returns when the client call returns: the content
    stripped of surrounding whitespace, or the stripped baseline when the
    content is [None] or empty.  The emptiness test comes before the
    stripping, so a content of whitespace only gives the empty narrative, not
    the baseline.  In every case the text returned is stripped. *)
Theorem enhance_returns_stripped cl field_values template_id baseline_text content :
  cl field_values template_id baseline_text = Return content ->
  exists out,
    enhance cl field_values template_id baseline_text = Return out
    /\ strip out = out
    /\ (content = None \/ content = Some ""%string -> out = strip baseline_text)
    /\ (forall c, content = Some c -> c <> ""%string -> out = strip c)
    /\ (forall c, content = Some c -> c <> ""%string -> all_space (chars c) = true ->
          out = ""%string).
Proof.
  intros Hcl. unfold enhance. rewrite Hcl. eexists. split; [done|].
  split; [apply strip_idem|]. split; [|split].
  - by intros [-> | ->].
  - intros c -> Hc. by destruct (String.eqb_spec c "").
  - intros c -> Hc Hsp. destruct (String.eqb_spec c ""); [done|].
    by apply strip_all_space.
Qed.

Lemma enhance_returns_stripped_witness :
  enhance (fun _ _ _ => Return (Some "  "%string)) ∅ "AE_NON_SERIOUS_V1" "Baseline."
  = Return ""%string.
Proof.
  destruct (enhance_returns_stripped (fun _ _ _ => Return (Some "  "%string)) ∅
              "AE_NON_SERIOUS_V1" "Baseline." (Some "  "%string) eq_refl)
    as (out & -> & _ & _ & _ & Hblank).
  by rewrite (Hblank "  "%string eq_refl ltac:(discriminate) eq_refl).
Defined.

(** X21.  [_clean_string] never stores an empty or padded string: the result is
    [None] or a non-empty string without surrounding whitespace; [None], NaN
    and strings of whitespace only give [None]; and cleaning a cleaned value
    changes nothing. *)
Theorem clean_string_normal value :
  (ADAELoader._clean_string value = VNone
   \/ exists s, ADAELoader._clean_string value = VStr s
                /\ s <> ""%string /\ strip s = s)
  /\ (value = VNone \/ value = VNaN
      \/ (exists s, value = VStr s /\ all_space (chars s) = true) ->
      ADAELoader._clean_string value = VNone)
  /\ ADAELoader._clean_string (ADAELoader._clean_string value)
     = ADAELoader._clean_string value.
Proof.
  assert (ADAELoader._clean_string value = VNone
          \/ exists s, ADAELoader._clean_string value = VStr s
                       /\ s <> ""%string /\ strip s = s) as Hcases.
  { unfold ADAELoader._clean_string. destruct (ADAELoader.isna value); [by left|].
    destruct (String.eqb_spec (strip (py_str value)) ""); [by left|].
    right. eexists. split; [done|]. split; [done|apply strip_idem]. }
  split; [done|]. split.
  - intros [-> | [-> | (s & -> & Hs)]]; try done.
    unfold ADAELoader._clean_string. cbn [ADAELoader.isna py_str].
    by rewrite strip_all_space.
  - destruct Hcases as [-> | (s & -> & Hne & Hs)]; [done|].
    unfold ADAELoader._clean_string. cbn [ADAELoader.isna py_str]. rewrite Hs.
    by destruct (String.eqb_spec s "").
Qed.

(** ** The data shown in the prompt *)

Import PromptData.

Lemma extract_category_lookup data keys k v :
  _extract_category data keys !! k = Some v
  <-> data !! k = Some v /\ k ∈ keys /\ v <> VNone.
Proof.
  unfold _extract_category. rewrite map_lookup_filter_Some. cbn. tauto.
Qed.

Lemma insert_item_perm kv l : insert_item kv l ≡ₚ kv :: l.
Proof.
  induction l as [|kv' l IH]; [done|]. cbn.
  destruct (String.leb kv.1 kv'.1); [done|]. by rewrite IH, Permutation_swap.
Qed.

Lemma sorted_items_perm data : sorted_items data ≡ₚ map_to_list data.
Proof.
  unfold sorted_items. induction (map_to_list data) as [|kv l IH]; [done|].
  cbn. by rewrite insert_item_perm, IH.
Qed.

Definition by_key (a b : string * pyval) : Prop := String.leb a.1 b.1 = true.

Lemma insert_item_sorted kv l : Sorted by_key l -> Sorted by_key (insert_item kv l).
Proof.
  induction 1 as [|kv' l Hl IH Hhd]; cbn; [by repeat constructor|].
  destruct (String.leb kv.1 kv'.1) eqn:Hle.
  - constructor; [by constructor|]. by constructor.
  - constructor; [done|].
    assert (by_key kv' kv) as Hkv.
    { unfold by_key. destruct (String.leb_total kv.1 kv'.1); congruence. }
    destruct l as [|kv'' l]; cbn; [by constructor|].
    destruct (String.leb kv.1 kv''.1); constructor; [done|].
    by inversion Hhd.
Qed.

Lemma sorted_items_sorted data : Sorted by_key (sorted_items data).
Proof.
  unfold sorted_items. induction (map_to_list data) as [|kv l IH]; [constructor|].
  by apply insert_item_sorted.
Qed.

Lemma join_cons sep p rest :
  exists t, NarrativeGenerator.join sep (p :: rest) = p +:+ t.
Proof.
  destruct rest as [|q rest]; cbn.
  - exists ""%string. unfold String.app. induction p as [|c p IH]; cbn; congruence.
  - eauto.
Qed.

Lemma format_dict_no_data data : _format_dict data = NO_DATA <-> data = ∅.
Proof.
  unfold _format_dict. split; [|by intros ->].
  destruct (decide (data = ∅)) as [-> | Hne]; [done|].
  rewrite bool_decide_eq_false_2 by done.
  destruct (sorted_items data) as [|kv l] eqn:E.
  { exfalso. apply Hne. apply map_to_list_empty_iff.
    apply Permutation_nil_r. by rewrite <- sorted_items_perm, E. }
  cbn [fmap list_fmap]. destruct (join_cons (String "010" "") (line kv) (line <$> l))
    as [t ->].
  unfold line, NO_DATA. cbv [String.app]. discriminate.
Qed.

(** The text of a category: two fields with a value, one that is [None] and
    one of another category. *)
Example format_dict_example :
  _format_dict
    (_extract_category
       {[ "sex" := VStr "male"; "age" := VInt 74; "race" := VNone;
          "outcome" := VStr "recovered" ]}
       ["age"; "sex"; "race"])
  = ("  - age: 74" +:+ String "010" "  - sex: male")%string.
Proof. by vm_compute. Qed.

(** X22.  A category of the prompt lists exactly the fields of the category that
    have a value: a field is kept when its name is one of the category's keys
    and its value is not [None].  When a field is kept, the text returned is
    made of the lines [  - name: value] of the kept fields, one line each, in
    ascending order of their names, joined by newlines; and the text is the
    note [(no data available)] exactly when every field of the category is
    missing or [None]. *)
Theorem format_dict_extract_category data keys :
  (forall k v, _extract_category data keys !! k = Some v
               <-> data !! k = Some v /\ k ∈ keys /\ v <> VNone)
  /\ sorted_items (_extract_category data keys)
     ≡ₚ map_to_list (_extract_category data keys)
  /\ Sorted (fun a b => String.leb a.1 b.1 = true)
       (sorted_items (_extract_category data keys))
  /\ (_extract_category data keys <> ∅ ->
      exists items,
        items ≡ₚ map_to_list (_extract_category data keys)
        /\ Sorted (fun a b => String.leb a.1 b.1 = true) items
        /\ _format_dict (_extract_category data keys)
           = NarrativeGenerator.join (String "010" "")
               ((fun kv => "  - " +:+ kv.1 +:+ ": " +:+ py_str kv.2) <$> items))
  /\ (_format_dict (_extract_category data keys) = NO_DATA
      <-> forall k, k ∈ keys -> data !! k = None \/ data !! k = Some VNone).
Proof.
  split; [apply extract_category_lookup|].
  split; [apply sorted_items_perm|]. split; [apply sorted_items_sorted|].
  split.
  { intros Hne. exists (sorted_items (_extract_category data keys)).
    split; [apply sorted_items_perm|]. split; [apply sorted_items_sorted|].
    unfold _format_dict. by rewrite bool_decide_eq_false_2 by done. }
  rewrite format_dict_no_data, map_empty. split.
  - intros H k Hk. specialize (H k).
    destruct (data !! k) as [v|] eqn:Hv; [|by left]. right.
    destruct (decide (v = VNone)) as [-> | Hne]; [done|].
    assert (_extract_category data keys !! k = Some v) as Hsome
      by (by apply extract_category_lookup).
    congruence.
  - intros H k.
    destruct (_extract_category data keys !! k) as [v|] eqn:Hv; [|done].
    apply extract_category_lookup in Hv as (Hv & Hk & Hne).
    destruct (H k Hk); congruence.
Qed.

(** ** The rows the loader inserts *)

(** X23.  The row inserted for an adverse event never carries
    [analysis_causality]: the event dict has the key, every other key of the
    dict is an inserted column, and the row is the same whatever value the
    key holds.  A row has one value for each column, [None] where the record
    has no such key; and the count returned is the number of records. *)
Theorem adverse_events_row_without_analysis_causality :
  In "analysis_causality"%string ADAELoader.event_keys
  /\ (forall key, In key ADAELoader.event_keys -> key <> "analysis_causality"%string ->
        In key ADAELoader.adverse_events_columns)
  /\ (forall record value,
        ADAELoader.record_row ADAELoader.adverse_events_columns
          (<["analysis_causality" := value]> record)
        = ADAELoader.record_row ADAELoader.adverse_events_columns record)
  /\ (forall columns records,
        (ADAELoader._insert_records columns records).2 = length records
        /\ Forall (fun row => length row = length columns)
             (ADAELoader._insert_records columns records).1).
Proof.
  split; [cbn; tauto|]. split; [|split].
  - intros key Hin Hne. cbn in Hin |- *.
    repeat (destruct Hin as [<- | Hin]; [tauto|]). done.
  - intros record value. unfold ADAELoader.record_row, ADAELoader.adverse_events_columns.
    cbn [fmap list_fmap]. unfold py_get.
    by rewrite !lookup_insert_ne by discriminate.
  - intros columns records. unfold ADAELoader._insert_records. cbn [fst snd].
    split; [by rewrite length_fmap|].
    apply Forall_fmap, Forall_forall. intros record _.
    unfold ADAELoader.record_row. cbn. by rewrite length_fmap.
Qed.

(** ** The clause rules at a trigger phrase *)

Lemma starts_with_prefix cmp p s x :
  (length p <= length s)%nat ->
  Re.starts_with cmp p (s ++ x) = Re.starts_with cmp p s.
Proof.
  revert s. induction p as [|a p IH]; intros [|c s] Hlen; cbn in *; try done; [lia|].
  rewrite IH; [done|lia].
Qed.

Lemma sub_from_any_prev m :
  (forall p p' s, m p s = m p' s) ->
  forall s k p p', Re.sub_from m k p s = Re.sub_from m k p' s.
Proof.
  intros Hm. induction s as [|c s IH]; intros k p p'; [done|]. cbn.
  destruct k as [|k]; [|done]. by rewrite (Hm p p').
Qed.

Section clause_at_trigger.

Variable trigger : string.
Hypothesis trigger_no_dot :
  forallb (fun a => negb (Re.same_char_ci a ".")) (chars trigger) = true.

Lemma lowercase_clause_stable pre x a b p :
  last pre = Some "."%char -> pre = a ++ b -> b <> [] ->
  Re.lowercase_clause trigger p (b ++ x) = Re.lowercase_clause trigger p b
  /\ forall repl n, Re.lowercase_clause trigger p b = Some (repl, n) ->
       (n <= length b)%nat.
Proof.
  intros Hlast -> Hb. split.
  2: { intros repl n H.
       apply (clause_rule_Some _ trigger_no_dot) in H
         as (trg & clause & rest & -> & Hlen & _ & _ & _ & _ & _ & _ & _ & ->).
       rewrite !length_app. lia. }
  assert (exists b', b = b' ++ ["."%char]) as [b' ->].
  { rewrite last_app in Hlast. destruct (last b) eqn:E; [|by apply last_None in E].
    injection Hlast as ->. by apply last_Some. }
  pose proof (trig_dot_clash _ trigger_no_dot) as Hclash.
  unfold Re.lowercase_clause.
  destruct (decide (length (chars trigger) <= length (b' ++ ["."%char]))%nat)
    as [Hlong | Hshort].
  - rewrite starts_with_prefix by done.
    destruct (Re.starts_with Re.same_char_ci (chars trigger) (b' ++ ["."%char])) eqn:Hs;
      [|done].
    cbn [andb]. rewrite take_app_le, drop_app_le by done.
    pose proof (starts_with_ci_not_dot _ _ Hclash Hs) as Htake.
    destruct (span_app (fun c => negb (Ascii.eqb c "."))
                (drop (length (chars trigger)) (b' ++ ["."%char])))
      as (rest & Hsplit & Hrest).
    assert (exists c r, rest = c :: r /\ negb (Ascii.eqb c ".") = false)
      as (c & r & -> & Hc).
    { destruct Hrest as [-> | ?]; [exfalso|done]. rewrite app_nil_r in Hsplit.
      pose proof (span_all (fun c => negb (Ascii.eqb c "."))
                    (drop (length (chars trigger)) (b' ++ ["."%char]))) as Hall.
      rewrite <- Hsplit in Hall.
      assert (Forall (fun c => negb (Ascii.eqb c ".") = true) (b' ++ ["."%char])) as Hb'.
      { rewrite <- (take_drop (length (chars trigger)) (b' ++ ["."%char])).
        by apply Forall_app. }
      apply Forall_app in Hb' as [_ Hdot]. by apply Forall_cons in Hdot as [Hdot _]. }
    remember (drop (length (chars trigger)) (b' ++ ["."%char])) as d eqn:Hd.
    assert (Re.span (fun c => negb (Ascii.eqb c ".")) (d ++ x)
            = Re.span (fun c => negb (Ascii.eqb c ".")) d) as ->; [|done].
    rewrite Hsplit at 1. rewrite <- app_assoc.
    rewrite span_app_stop; [done|apply span_all|]. right. by exists c, (r ++ x).
  - assert (Re.starts_with Re.same_char_ci (chars trigger) (b' ++ ["."%char]) = false)
      as ->.
    { destruct (Re.starts_with _ _ _) eqn:Hs; [|done].
      apply starts_with_length in Hs. lia. }
    rewrite <- app_assoc. cbn [app].
    rewrite (starts_with_short _ _ b' ("."%char :: x)); [done| |by right; eauto|done].
    rewrite length_app in Hshort. cbn in Hshort. lia.
Qed.

Lemma lowercase_clause_at_trigger p trig clause rest :
  length trig = length (chars trigger) ->
  Re.starts_with Re.same_char_ci (chars trigger) trig = true ->
  clause <> [] -> Forall (fun c => negb (Ascii.eqb c ".") = true) clause ->
  rest = [] \/ head rest = Some "."%char ->
  Re.lowercase_clause trigger p (trig ++ clause ++ rest)
  = Some (trig ++ lower_text clause, length (trig ++ clause)).
Proof.
  intros Hlen Hs Hne Hcl Hrest. unfold Re.lowercase_clause.
  rewrite (starts_with_app _ _ _ _ Hs). rewrite <- Hlen.
  rewrite drop_app_length, take_app_length.
  rewrite span_app_stop; [|done|].
  - destruct clause; [done|]. by rewrite length_app.
  - destruct Hrest as [-> | Hh]; [by left|]. right.
    destruct rest as [|c r]; [done|]. injection Hh as ->. by exists "."%char, r.
Qed.

Lemma sub_lowercase_clause_at_trigger pre trig clause rest :
  pre = [] \/ last pre = Some "."%char ->
  length trig = length (chars trigger) ->
  Re.starts_with Re.same_char_ci (chars trigger) trig = true ->
  clause <> [] -> Forall (fun c => negb (Ascii.eqb c ".") = true) clause ->
  rest = [] \/ head rest = Some "."%char ->
  Re.sub (Re.lowercase_clause trigger) (pre ++ trig ++ clause ++ rest)
  = Re.sub (Re.lowercase_clause trigger) pre ++ trig ++ lower_text clause
    ++ Re.sub (Re.lowercase_clause trigger) rest.
Proof.
  intros Hpre Hlen Hs Hne Hcl Hrest. unfold Re.sub.
  assert (forall prev, Re.sub_from (Re.lowercase_clause trigger) 0 prev
                         (trig ++ clause ++ rest)
                       = trig ++ lower_text clause
                         ++ Re.sub_from (Re.lowercase_clause trigger) 0 None rest) as Hat.
  { intros prev.
    pose proof (lowercase_clause_at_trigger prev trig clause rest Hlen Hs Hne Hcl Hrest)
      as Hm.
    destruct (trig ++ clause) as [|c matched] eqn:E.
    { apply app_eq_nil in E as [_ ->]. done. }
    rewrite app_assoc, E in Hm |- *. cbn [app Re.sub_from] in Hm |- *.
    rewrite Hm. cbn [length Nat.pred]. rewrite sub_from_skip, <- app_assoc.
    do 2 f_equal. by apply sub_from_any_prev. }
  destruct Hpre as [-> | Hlast]; [apply Hat|].
  rewrite (sub_from_app_stable _ pre (trig ++ clause ++ rest)); [|..|lia].
  - by rewrite Hat.
  - intros a b p Hab Hb. by eapply lowercase_clause_stable.
Qed.

End clause_at_trigger.

(** X24.  Rule 3 and rule 4 lowercase the whole clause after their trigger
    phrase, up to the next period or the end of the text, whatever stands in
    it: after a text that is empty or ends in a period, the trigger phrase,
    in any case, is kept as written, the clause is written in lower case,
    and the texts before and after are rewritten as they would be alone. *)
Theorem clause_rules_lowercase_whole_clause trigger pre trig clause rest :
  trigger = "action taken with study drug was "%string
  \/ trigger = "assessed the event as "%string ->
  pre = [] \/ last pre = Some "."%char ->
  length trig = length (chars trigger) ->
  Re.starts_with Re.same_char_ci (chars trigger) trig = true ->
  clause <> [] -> Forall (fun c => negb (Ascii.eqb c ".") = true) clause ->
  rest = [] \/ head rest = Some "."%char ->
  Re.sub (Re.lowercase_clause trigger) (pre ++ trig ++ clause ++ rest)
  = Re.sub (Re.lowercase_clause trigger) pre ++ trig ++ lower_text clause
    ++ Re.sub (Re.lowercase_clause trigger) rest.
Proof.
  intros Htrigger. apply sub_lowercase_clause_at_trigger.
  by destruct Htrigger as [-> | ->].
Qed.

Lemma clause_rules_lowercase_whole_clause_witness :
  Re.sub rule3 (chars "Action taken with study drug was [NOT AVAILABLE] on 20-Dec-2023.")
  = chars "Action taken with study drug was [not available] on 20-dec-2023.".
Proof.
  refine (eq_trans
            (clause_rules_lowercase_whole_clause
               "action taken with study drug was " []
               (chars "Action taken with study drug was ")
               (chars "[NOT AVAILABLE] on 20-Dec-2023") (chars ".")
               (or_introl eq_refl) (or_introl eq_refl) eq_refl eq_refl _ _
               (or_intror eq_refl)) _).
  - discriminate.
  - by apply Forall_forall; intros c Hc; revert c Hc; apply Forall_forall;
      repeat constructor.
  - by vm_compute.
Defined.

(** ** No template syntax in a narrative *)

















(** ** Each rule on its own *)

(** X26.  Every rule but rule 2 is idempotent on its own: applying it to what it
    returned changes nothing, for every text. *)
Theorem business_rules_but_rule2_idempotent m s :
  In m [rule1; rule3; rule4; rule5;
        rule6_white; rule6_black; rule6_asian; rule6_not_hispanic; rule6_hispanic;
        rule7] ->
  Re.sub m (Re.sub m s) = Re.sub m s.
Proof.
  intros Hm. cbn in Hm.
  destruct Hm as [<- | [<- | [<- | [<- | [<- | [<- | [<- | [<- | [<- | [<- | []]]]]]]]]]].
  - apply rule1_fix, rule1_clean.
  - apply clause_rule_fix, clause_rule_clean; done.
  - apply clause_rule_fix, clause_rule_clean; done.
  - apply rule5_fix, rule5_clean.
  - apply (rule6_fix "WHITE" "White"), rule6_clean; cbn; tauto.
  - apply (rule6_fix "BLACK OR AFRICAN AMERICAN" "Black or African American"),
      rule6_clean; cbn; tauto.
  - apply (rule6_fix "ASIAN" "Asian"), rule6_clean; cbn; tauto.
  - apply (rule6_fix "NOT HISPANIC OR LATINO" "Not Hispanic or Latino"),
      rule6_clean; cbn; tauto.
  - apply (rule6_fix "HISPANIC OR LATINO" "Hispanic or Latino"), rule6_clean;
      cbn; tauto.
  - apply rule7_fix, rule7_clean.
Qed.

Lemma business_rules_but_rule2_idempotent_witness :
  Re.sub rule5 (Re.sub rule5 (chars "A 74-YEARS-old male and a 7-Years-Old boy."))
  = chars "A 74-year-old male and a 7-year-old boy.".
Proof.
  etrans; [apply business_rules_but_rule2_idempotent; cbn; tauto|]. by vm_compute.
Defined.
